(** * Hopper content script: message detection, scheduling and scroll engine

    A shallow embedding of the content script (the main router) and of the
    parts of the platform adapters it relies on.  JavaScript values are
    modelled as follows.

    - strings are [string]; only ASCII case folding and ASCII white space
      are modelled by [toLowerCase] and [trim];
    - a DOM element is a handle ([Node]); [===] on elements is equality of
      handles, and everything the script reads from the host page
      ([parentElement], [isConnected], [compareDocumentPosition], selector
      queries, ...) is a field of [Document];
    - an absent property ([undefined]) is [None]; a string property that the
      script only reads through [||] is a [string] whose falsy value is the
      empty string;
    - a function that may raise returns [Res];
    - timers are explicit: the state carries the queue of pending timers. *)

From stdpp Require Import base decidable option list numbers strings pretty gmap sorting.
From Stdlib Require Import Ascii String QArith Qminmax Qabs Lqa.

Local Open Scope string_scope.
Local Open Scope Z_scope.

(** ** JavaScript primitives *)

Module Js.

Inductive Res (A : Type) : Type :=
| Ok (a : A)
| Throw (e : string).
Arguments Ok {A} a.
Arguments Throw {A} e.

(** [a || b] on strings. *)
Definition orElse (a b : string) : string :=
  match a with
  | EmptyString => b
  | _ => a
  end.

(** Truthiness of a string. *)
Definition truthy (s : string) : bool :=
  match s with
  | EmptyString => false
  | _ => true
  end.

Definition isWhiteSpace (c : ascii) : bool :=
  let n := nat_of_ascii c in
  ((9 <=? n) && (n <=? 13))%nat || (n =? 32)%nat.

Fixpoint trimStart (s : string) : string :=
  match s with
  | EmptyString => EmptyString
  | String c s' => if isWhiteSpace c then trimStart s' else s
  end.

Fixpoint trimEnd (s : string) : string :=
  match s with
  | EmptyString => EmptyString
  | String c s' =>
      match trimEnd s' with
      | EmptyString => if isWhiteSpace c then EmptyString else String c EmptyString
      | t => String c t
      end
  end.

Definition trim (s : string) : string := trimEnd (trimStart s).

Definition lowerChar (c : ascii) : ascii :=
  let n := nat_of_ascii c in
  if ((65 <=? n) && (n <=? 90))%nat then ascii_of_nat (n + 32) else c.

Fixpoint toLowerCase (s : string) : string :=
  match s with
  | EmptyString => EmptyString
  | String c s' => String (lowerChar c) (toLowerCase s')
  end.

(** [s.substring(0, n)]. *)
Definition substring0 (n : nat) (s : string) : string := String.substring 0 n s.

(** [Math.max(...l)] for a non-empty argument list. *)
Definition max_of (x : Z) (l : list Z) : Z := foldl Z.max x l.

End Js.
Export Js.

(** ** Data model *)

Definition Node := nat.

Inductive Role := user | assistant.

#[global] Instance Role_eq_dec : EqDecision Role.
Proof. solve_decision. Defined.

(** A message object as the adapters build it. *)
Record Message := mkMessage {
  id : string;
  originalId : option string;
  role : Role;
  content : string;
  fullContent : string;
  element : option Node;
  timestamp : Z;
  order : option Z
}.

#[global] Instance Message_eq_dec : EqDecision Message.
Proof. solve_decision. Defined.

Definition set_order (o : option Z) (m : Message) : Message :=
  mkMessage (id m) (originalId m) (role m) (content m) (fullContent m)
            (element m) (timestamp m) o.


Definition set_timestamp (t : Z) (m : Message) : Message :=
  mkMessage (id m) (originalId m) (role m) (content m) (fullContent m)
            (element m) t (order m).

(** What the script can observe of the host page. *)
Record Document := mkDocument {
  parentElement : Node -> option Node;
  isConnected : Node -> bool;
  compareDocumentPosition : Node -> Node -> Z;
  offsetTop : Node -> Z;
  textContent : Node -> string;
  getElementById : string -> option Node;
  querySelector : string -> Res (option Node);
  querySelectorAll : string -> list Node;
  closest : Node -> string -> option Node;
  sidebarInjected : bool
}.

Definition DOCUMENT_POSITION_PRECEDING : Z := 2.
Definition DOCUMENT_POSITION_FOLLOWING : Z := 4.

(** A platform adapter, as far as the router looks at it.  The optional
    members are the ones the router tests before calling. *)
Record Platform := mkPlatform {
  name : string;
  hasDetectMessages : bool;
  hasIsStreaming : bool;
  getDebounceTime : option Z;
  getStreamingWaitTime : option Z
}.

(** ** Detection and de-duplication ([detectMessages]) *)

Section Detection.

Variable doc : Document.

Definition normalizedContent (m : Message) : string :=
  toLowerCase (trim (orElse (orElse (fullContent m) (content m)) "")).

Definition sameElement (existingMsg newMsg : Message) : bool :=
  match element existingMsg, element newMsg with
  | Some a, Some b => bool_decide (a = b)
  | _, _ => false
  end.

(** The [while] loop climbing from the new element: at most five hops. *)
Fixpoint climb (fuel : nat) (target : Node) (current : option Node) (distance : nat)
  : nat * option Node :=
  match fuel with
  | O => (distance, current)
  | S fuel' =>
      match current with
      | None => (distance, current)
      | Some c =>
          if bool_decide (c = target) then (distance, current)
          else if (distance <? 5)%nat
               then climb fuel' target (parentElement doc c) (S distance)
               else (distance, current)
      end
  end.

Definition closeInDom (existingMsg newMsg : Message) : bool :=
  match element existingMsg, element newMsg with
  | Some ee, Some ne =>
      let '(distance, current) := climb 6 ee (Some ne) 0 in
      (distance <? 3)%nat && bool_decide (current = Some ee)
  | _, _ => false
  end.

Definition nearIdentical (existingContent newContent : string) : bool :=
  bool_decide (existingContent = newContent)
  || ((10 <? String.length existingContent)%nat
      && (10 <? String.length newContent)%nat
      && (Z.abs (Z.of_nat (String.length existingContent)
                 - Z.of_nat (String.length newContent)) <? 5)
      && bool_decide
           (substring0 (Nat.min 50 (String.length existingContent)) existingContent
            = substring0 (Nat.min 50 (String.length newContent)) newContent)).

(** One iteration of the [for (const existingMsg of messages)] loop:
    [true] when the iteration executes [return false]. *)
Definition duplicateOf (existingMsg newMsg : Message) : bool :=
  if negb (bool_decide (role existingMsg = role newMsg)) then false
  else
    let existingContent := normalizedContent existingMsg in
    let newContent := normalizedContent newMsg in
    let check1 :=
      match order existingMsg, order newMsg with
      | Some oe, Some on =>
          bool_decide (oe = on)
          && (sameElement existingMsg newMsg
              || (truthy existingContent && truthy newContent
                  && bool_decide (existingContent = newContent)))
      | _, _ => false
      end in
    if check1 then true
    else if sameElement existingMsg newMsg then true
    else if negb (truthy existingContent) || negb (truthy newContent) then false
    else nearIdentical existingContent newContent && closeInDom existingMsg newMsg.

(** The callback of the second [filter]. *)
Definition keepCandidate (messages : list Message) (newMsg : Message) : bool :=
  forallb (fun existingMsg => negb (duplicateOf existingMsg newMsg)) messages.

Definition existingIds (messages : list Message) : gset string :=
  list_to_set (map id messages).

Definition dropKnownIds (messages newMessages : list Message) : list Message :=
  filter (fun m => id m ∉ existingIds messages) newMessages.

Definition orderOrMinusOne (m : Message) : Z :=
  match order m with
  | Some o => o
  | None => -1
  end.

Definition maxExistingOrder (messages : list Message) : Z :=
  match map orderOrMinusOne messages with
  | [] => -1
  | x :: l => max_of x l
  end.

(** The DeepSeek branch: [msg.order = maxExistingOrder + 1 + index]. *)
Definition reassignOrder (platformName : string) (messages uniqueNewMessages : list Message)
  : list Message :=
  if bool_decide (platformName = "DeepSeek")
  then imap (fun index msg =>
               set_order (Some (maxExistingOrder messages + 1 + Z.of_nat index)) msg)
            uniqueNewMessages
  else uniqueNewMessages.

(** [uniqueNewMessages] as it stands before [if (uniqueNewMessages.length > 0)]. *)
Definition acceptedCandidates (platformName : string) (messages newMessages : list Message)
  : list Message :=
  List.filter (keepCandidate messages)
              (reassignOrder platformName messages (dropKnownIds messages newMessages)).

(** The comparator handed to [messages.sort]. *)
Definition compareMessages (a b : Message) : Z :=
  match order a, order b with
  | Some oa, Some ob => oa - ob
  | Some _, None => -1
  | None, Some _ => 1
  | None, None =>
      let byTimestamp := timestamp a - timestamp b in
      match element a, element b with
      | Some ea, Some eb =>
          let position := compareDocumentPosition doc ea eb in
          if negb (Z.land position DOCUMENT_POSITION_FOLLOWING =? 0) then -1
          else if negb (Z.land position DOCUMENT_POSITION_PRECEDING =? 0) then 1
          else
            let posA := offsetTop doc ea in
            let posB := offsetTop doc eb in
            if negb (posA =? posB) then posA - posB else byTimestamp
      | _, _ => byTimestamp
      end
  end.

End Detection.

(** [Array.prototype.sort] is a stable sort; it is modelled by the stable
    insertion sort: an element goes in front of the first later element that
    does not compare below it.  All stable sorts agree where the comparator
    is a total preorder; where it is not, the language leaves the result to
    the engine and this is one such result. *)
Section Sort.

Context {A : Type} (cmp : A -> A -> Z).

Fixpoint insertBy (x : A) (l : list A) : list A :=
  match l with
  | [] => [x]
  | y :: l' => if cmp x y <=? 0 then x :: l else y :: insertBy x l'
  end.

Fixpoint sortBy (l : list A) : list A :=
  match l with
  | [] => []
  | x :: l' => insertBy x (sortBy l')
  end.

End Sort.

(** ** Global state of the content script and the timer queue *)

(** The bodies handed to [setTimeout] and [setInterval]. *)
Inductive Callback :=
| CbDebounce                       (* observeDOM, the debounced body *)
| CbStreamingRecheck (streamingWaitTime : Z)
                                   (* observeDOM, first [streamingTimeout] body *)
| CbForcedDetect                   (* observeDOM, "still streaming, wait a bit more" *)
| CbConfirm                        (* observeDOM, re-detect after streaming completes *)
| CbDeepSeekDetect                 (* observeDOM, DeepSeek message nodes, 200ms *)
| CbQwenDetect                     (* observeDOM, Qwen message nodes, 200ms *)
| CbQwenFollowUp                   (* observeDOM, Qwen follow-up detections *)
| CbPoll                           (* observeDOM, DeepSeek and Qwen [setInterval] *)
| CbReset.                         (* checkUrlChange, the 1000ms body *)

#[global] Instance Callback_eq_dec : EqDecision Callback.
Proof. solve_decision. Defined.

Record Timer := mkTimer {
  tid : nat;
  due : Z;
  callback : Callback;
  period : option Z
}.

Inductive Event :=
| EvDetect (t : Z)                 (* detectMessages() entered *)
| EvStreamingCheck (t : Z) (streaming : bool)
| EvConsoleError (t : Z)
| EvUpdateUI (t : Z) (shown : nat).

#[global] Instance Event_eq_dec : EqDecision Event.
Proof. solve_decision. Defined.

Record State := mkState {
  messages : list Message;
  currentUrl : string;
  currentPlatform : option Platform;
  observer : bool;
  isResetting : bool;
  observerTimeout : option nat;
  streamingTimeout : option nat;
  hopperDeepSeekInterval : option nat;
  hopperQwenInterval : option nat;
  timers : list Timer;
  nextTimerId : nat;
  log : list Event
}.

Definition set_messages (v : list Message) (s : State) : State :=
  mkState v (currentUrl s) (currentPlatform s) (observer s) (isResetting s)
          (observerTimeout s) (streamingTimeout s) (hopperDeepSeekInterval s)
          (hopperQwenInterval s) (timers s) (nextTimerId s) (log s).
Definition set_currentUrl (v : string) (s : State) : State :=
  mkState (messages s) v (currentPlatform s) (observer s) (isResetting s)
          (observerTimeout s) (streamingTimeout s) (hopperDeepSeekInterval s)
          (hopperQwenInterval s) (timers s) (nextTimerId s) (log s).
Definition set_observer (v : bool) (s : State) : State :=
  mkState (messages s) (currentUrl s) (currentPlatform s) v (isResetting s)
          (observerTimeout s) (streamingTimeout s) (hopperDeepSeekInterval s)
          (hopperQwenInterval s) (timers s) (nextTimerId s) (log s).
Definition set_isResetting (v : bool) (s : State) : State :=
  mkState (messages s) (currentUrl s) (currentPlatform s) (observer s) v
          (observerTimeout s) (streamingTimeout s) (hopperDeepSeekInterval s)
          (hopperQwenInterval s) (timers s) (nextTimerId s) (log s).
Definition set_observerTimeout (v : option nat) (s : State) : State :=
  mkState (messages s) (currentUrl s) (currentPlatform s) (observer s) (isResetting s)
          v (streamingTimeout s) (hopperDeepSeekInterval s)
          (hopperQwenInterval s) (timers s) (nextTimerId s) (log s).
Definition set_streamingTimeout (v : option nat) (s : State) : State :=
  mkState (messages s) (currentUrl s) (currentPlatform s) (observer s) (isResetting s)
          (observerTimeout s) v (hopperDeepSeekInterval s)
          (hopperQwenInterval s) (timers s) (nextTimerId s) (log s).
Definition set_hopperDeepSeekInterval (v : option nat) (s : State) : State :=
  mkState (messages s) (currentUrl s) (currentPlatform s) (observer s) (isResetting s)
          (observerTimeout s) (streamingTimeout s) v
          (hopperQwenInterval s) (timers s) (nextTimerId s) (log s).
Definition set_hopperQwenInterval (v : option nat) (s : State) : State :=
  mkState (messages s) (currentUrl s) (currentPlatform s) (observer s) (isResetting s)
          (observerTimeout s) (streamingTimeout s) (hopperDeepSeekInterval s)
          v (timers s) (nextTimerId s) (log s).
Definition set_timers (v : list Timer) (s : State) : State :=
  mkState (messages s) (currentUrl s) (currentPlatform s) (observer s) (isResetting s)
          (observerTimeout s) (streamingTimeout s) (hopperDeepSeekInterval s)
          (hopperQwenInterval s) v (nextTimerId s) (log s).
Definition set_nextTimerId (v : nat) (s : State) : State :=
  mkState (messages s) (currentUrl s) (currentPlatform s) (observer s) (isResetting s)
          (observerTimeout s) (streamingTimeout s) (hopperDeepSeekInterval s)
          (hopperQwenInterval s) (timers s) v (log s).
Definition set_log (v : list Event) (s : State) : State :=
  mkState (messages s) (currentUrl s) (currentPlatform s) (observer s) (isResetting s)
          (observerTimeout s) (streamingTimeout s) (hopperDeepSeekInterval s)
          (hopperQwenInterval s) (timers s) (nextTimerId s) v.

Definition emit (e : Event) (s : State) : State := set_log (log s ++ [e]) s.

(** What the host page answers at one instant. *)
Record Host := mkHost {
  document : Document;
  adapterDetectMessages : Res (list Message);   (* currentPlatform.detectMessages() *)
  adapterIsStreaming : bool;                    (* currentPlatform.isStreaming() *)
  href : string;                                (* window.location.href *)
  normalizeUrl : string -> string               (* currentPlatform.normalizeUrl || default *)
}.

Definition World := Z -> Host.

(** *** Timers *)

(** [setTimeout] / [setInterval]: returns the new id, which is never 0. *)
Definition addTimer (now delay : Z) (cb : Callback) (repeat : bool) (s : State)
  : nat * State :=
  let i := nextTimerId s in
  (i, set_nextTimerId (S i)
        (set_timers (timers s ++ [mkTimer i (now + delay) cb
                                          (if repeat then Some delay else None)]) s)).

(** [clearTimeout(id)] / [clearInterval(id)]; an [undefined] or stale id is ignored. *)
Definition clearTimer (i : option nat) (s : State) : State :=
  match i with
  | None => s
  | Some i => set_timers (List.filter (fun t => negb (bool_decide (tid t = i))) (timers s)) s
  end.

Definition clearDeepSeekInterval (s : State) : State :=
  match hopperDeepSeekInterval s with
  | Some i => set_hopperDeepSeekInterval None (clearTimer (Some i) s)
  | None => s
  end.

(** *** [updateUI] and [detectMessages] *)

(** How a statement sequence working on the globals ends: normally, or by an
    exception raised in the state reached so far. *)
Inductive Outcome :=
| Done (s : State)
| Raised (e : string) (s : State).

(** The rendering itself is outside the engine; only that it happened, and
    that [badge.textContent = ...] raises when the sidebar is not there. *)
Definition updateUI (now : Z) (h : Host) (s : State) : Outcome :=
  if sidebarInjected (document h)
  then Done (emit (EvUpdateUI now (List.length (messages s))) s)
  else Raised "TypeError" s.

(** The part of [detectMessages] that computes the next value of [messages]
    from the adapter's answer. *)
Definition nextMessages (doc : Document) (platformName : string)
    (messages newMessages : list Message) : list Message :=
  if (0 <? List.length newMessages)%nat then
    let uniqueNewMessages := acceptedCandidates doc platformName messages newMessages in
    if (0 <? List.length uniqueNewMessages)%nat
    then sortBy (compareMessages doc) (messages ++ uniqueNewMessages)
    else messages
  else messages.

(** The body of the [try] block. *)
Definition detectMessagesBody (now : Z) (h : Host) (s : State) : Outcome :=
  match currentPlatform s with
  | None => Done s
  | Some p =>
      if negb (hasDetectMessages p) then Done s
      else
        match adapterDetectMessages h with
        | Throw e => Raised e s
        | Ok newMessages =>
            if (0 <? List.length newMessages)%nat then
              let uniqueNewMessages :=
                acceptedCandidates (document h) (name p) (messages s) newMessages in
              if (0 <? List.length uniqueNewMessages)%nat then
                let s1 := set_messages
                            (sortBy (compareMessages (document h))
                                    (messages s ++ uniqueNewMessages)) s in
                (* setupScrollSpy() is a no-op *)
                updateUI now h s1
              else Done s
            else Done s
        end
  end.

(** [detectMessages]: the body under its [try], the [catch] logging to the
    console.  Every call is recorded as one detection pass. *)
Definition detectMessages (now : Z) (h : Host) (s : State) : State :=
  match detectMessagesBody now h (emit (EvDetect now) s) with
  | Done s' => s'
  | Raised _ s' => emit (EvConsoleError now) s'
  end.

(** *** [observeDOM], the observer callback and [checkUrlChange] *)

Definition isDeepSeek (p : Platform) : bool := bool_decide (name p = "DeepSeek").
Definition isQwen (p : Platform) : bool := bool_decide (name p = "Qwen").

(** [observeDOM] below the creation of the observer: the observer is
    (re)connected and the fallback polls are (re)installed. *)
Definition observeDOM (now : Z) (s : State) : State :=
  match currentPlatform s with
  | None => s
  | Some p =>
      let s := set_observer true s in
      let s :=
        if isDeepSeek p then
          let s := clearDeepSeekInterval s in
          let '(i, s) := addTimer now 1500 CbPoll true s in
          set_hopperDeepSeekInterval (Some i) s
        else clearDeepSeekInterval s in
      if isQwen p then
        let s := match hopperQwenInterval s with
                 | Some i => clearTimer (Some i) s
                 | None => s
                 end in
        let '(i, s) := addTimer now 1200 CbPoll true s in
        set_hopperQwenInterval (Some i) s
      else s
  end.

(** What the observer callback computes from a batch of mutation records. *)
Record Mutations := mkMutations {
  hasRelevantChanges : bool;
  hasMessageNodes : bool;          (* DeepSeek: an added node is a message node *)
  hasQwenMessages : bool           (* Qwen: a record touches a message *)
}.

(** The callback of [new MutationObserver(...)]. *)
Definition onMutations (now : Z) (mu : Mutations) (s : State) : State :=
  if negb (observer s) then s
  else
    let s := clearTimer (observerTimeout s) s in
    let special :=
      match currentPlatform s with
      | Some p =>
          if hasRelevantChanges mu && isDeepSeek p && hasMessageNodes mu
          then Some (CbDeepSeekDetect)
          else if hasRelevantChanges mu && isQwen p && hasQwenMessages mu
               then Some (CbQwenDetect)
               else None
      | None => None
      end in
    match special with
    | Some cb =>
        let s := clearTimer (observerTimeout s) s in
        let '(i, s) := addTimer now 200 cb false s in
        set_observerTimeout (Some i) s
    | None =>
        let s := match streamingTimeout s with
                 | Some i => clearTimer (Some i) s
                 | None => s
                 end in
        let debounceTime :=
          match currentPlatform s with
          | Some p => default 300 (getDebounceTime p)
          | None => 300
          end in
        let '(i, s) := addTimer now debounceTime CbDebounce false s in
        set_observerTimeout (Some i) s
    end.

(** [checkUrlChange]: the teardown of the conversation context. *)
Definition checkUrlChange (now : Z) (h : Host) (s : State) : State :=
  match currentPlatform s with
  | None => s
  | Some p =>
      let newUrl := href h in
      let currentNormalized := normalizeUrl h (currentUrl s) in
      let newNormalized := normalizeUrl h newUrl in
      if negb (bool_decide (currentNormalized = newNormalized)) && negb (isResetting s)
      then
        let s := set_isResetting true s in
        let s := set_messages [] s in
        (* teardownScrollSpy() only touches the sidebar *)
        let s := set_currentUrl newUrl s in
        let s := if observer s then set_observer false s else s in
        let s := match observerTimeout s with
                 | Some i => set_observerTimeout None (clearTimer (Some i) s)
                 | None => s
                 end in
        match updateUI now h s with
        | Done s => (addTimer now 1000 CbReset false s).2
        | Raised _ s => emit (EvConsoleError now) s
        end
      else s
  end.

(** The bodies of the timer callbacks. *)
Definition fire (cb : Callback) (now : Z) (h : Host) (s : State) : State :=
  match cb with
  | CbDebounce =>
      match currentPlatform s with
      | None => s
      | Some p =>
          let hasExistingMessages := (0 <? List.length (messages s))%nat in
          let isStreaming :=
            if negb hasExistingMessages && hasIsStreaming p
            then adapterIsStreaming h else false in
          let s := if negb hasExistingMessages && hasIsStreaming p
                   then emit (EvStreamingCheck now isStreaming) s else s in
          if isStreaming then
            let streamingWaitTime := default 2000 (getStreamingWaitTime p) in
            let '(i, s) := addTimer now streamingWaitTime
                                    (CbStreamingRecheck streamingWaitTime) false s in
            set_streamingTimeout (Some i) s
          else
            let beforeCount := List.length (messages s) in
            let s := detectMessages now h s in
            let afterCount := List.length (messages s) in
            let s :=
              match getStreamingWaitTime p with
              | Some streamingWaitTime =>
                  if negb hasExistingMessages && (beforeCount <? afterCount)%nat then
                    let '(i, s) := addTimer now streamingWaitTime CbConfirm false s in
                    set_streamingTimeout (Some i) s
                  else s
              | None => s
              end in
            if isQwen p then
              let qwenWaitTime := default 1500 (getStreamingWaitTime p) in
              if (beforeCount <? afterCount)%nat || hasExistingMessages
              then (addTimer now qwenWaitTime CbQwenFollowUp false s).2
              else s
            else s
      end
  | CbStreamingRecheck streamingWaitTime =>
      match currentPlatform s with
      | None => s
      | Some p =>
          let stillStreaming := if hasIsStreaming p then adapterIsStreaming h else false in
          let s := if hasIsStreaming p
                   then emit (EvStreamingCheck now stillStreaming) s else s in
          if negb stillStreaming then detectMessages now h s
          else
            let '(i, s) := addTimer now streamingWaitTime CbForcedDetect false s in
            set_streamingTimeout (Some i) s
      end
  | CbForcedDetect | CbConfirm | CbDeepSeekDetect | CbQwenFollowUp | CbPoll =>
      detectMessages now h s
  | CbQwenDetect =>
      let s := detectMessages now h s in
      (addTimer now 800 CbQwenFollowUp false s).2
  | CbReset =>
      let s := detectMessages now h s in
      let s := observeDOM now s in
      set_isResetting false s
  end.

(** *** The event loop *)

Definition earlier (a b : Timer) : bool :=
  (due a <? due b) || ((due a =? due b) && (tid a <? tid b)%nat).

Fixpoint nextTimer (l : list Timer) : option Timer :=
  match l with
  | [] => None
  | t :: l' =>
      match nextTimer l' with
      | Some u => if earlier u t then Some u else Some t
      | None => Some t
      end
  end.

(** A timeout leaves the queue when it fires; an interval is re-armed. *)
Definition consume (t : Timer) (s : State) : State :=
  match period t with
  | None => clearTimer (Some (tid t)) s
  | Some p =>
      set_timers (map (fun u => if bool_decide (tid u = tid t)
                                then mkTimer (tid u) (due u + p) (callback u) (period u)
                                else u) (timers s)) s
  end.

(** Fire, in order, the timers that are due before [limit]. *)
Fixpoint runUntil (w : World) (limit : Z) (fuel : nat) (s : State) : State :=
  match fuel with
  | O => s
  | S fuel' =>
      match nextTimer (timers s) with
      | Some t =>
          if due t <? limit
          then runUntil w limit fuel' (fire (callback t) (due t) (w (due t)) (consume t s))
          else s
      | None => s
      end
  end.

(** What reaches the script from outside, with its time. *)
Inductive Input :=
| InMutations (t : Z) (mu : Mutations)   (* the observer callback is invoked *)
| InUrlCheck (t : Z).                    (* history hook, popstate or the 1000ms poll *)

Definition deliver (w : World) (fuel : nat) (i : Input) (s : State) : State :=
  match i with
  | InMutations t mu => onMutations t mu (runUntil w t fuel s)
  | InUrlCheck t => checkUrlChange t (w t) (runUntil w t fuel s)
  end.

Definition simulate (w : World) (fuel : nat) (inputs : list Input) (s : State) : State :=
  foldl (fun s i => deliver w fuel i s) s inputs.

Definition detectTimes (l : list Event) : list Z :=
  omap (fun e => match e with EvDetect t => Some t | _ => None end) l.

Definition streamingChecks (l : list Event) : list (Z * bool) :=
  omap (fun e => match e with EvStreamingCheck t b => Some (t, b) | _ => None end) l.

(** ** Scroll resolution ([scrollToMessage], [ensureMessageElement]) *)

Module Text.

Definition startsWith (p s : string) : bool := String.prefix p s.

Fixpoint includes (p s : string) : bool :=
  String.prefix p s ||
  match s with
  | EmptyString => false
  | String _ s' => includes p s'
  end.

(** [s.split(/\s+/)]: [cur] is the piece being read, reversed. *)
Fixpoint splitGo (cur : string) (inGap : bool) (s : string) : list string :=
  match s with
  | EmptyString => [String.rev cur]
  | String c s' =>
      if isWhiteSpace c
      then if inGap then splitGo cur true s'
           else String.rev cur :: splitGo EmptyString true s'
      else splitGo (String c cur) false s'
  end.

Definition splitWhiteSpace (s : string) : list string := splitGo EmptyString false s.

(** [l.join(sep)]. *)
Fixpoint join (sep : string) (l : list string) : string :=
  match l with
  | [] => EmptyString
  | [x] => x
  | x :: l' => x ++ sep ++ join sep l'
  end.

End Text.

Section Scroll.

Variable doc : Document.
Variable platformName : option string.      (* currentPlatform?.name *)

(** The double quote of the selector templates. *)
Definition dq : string := String (ascii_of_nat 34) EmptyString.

Definition cardSelector (mid : string) : string :=
  ".hopper-message[data-id=" ++ dq ++ mid ++ dq ++ "]".
Definition dataIdSelector (mid : string) : string := "[data-id=" ++ dq ++ mid ++ dq ++ "]".
Definition idContainsSelector (mid : string) : string := "[id*=" ++ dq ++ mid ++ dq ++ "]".












End Scroll.

(** ** Scroll animation ([smoothScrollToTarget], [isTargetCentered]) *)

(** What the page measures during one attempt: the distance to scroll when
    the attempt starts, and the target's rectangle and the viewport height
    once its animation has completed.  Pixels and milliseconds are exact
    rationals. *)
Record Layout := mkLayout {
  scrollDelta : Q;        (* desired - start *)
  rectTop : Q;
  rectHeight : Q;
  innerHeight : Q
}.

Section Animation.

Variable layoutAt : nat -> Layout.

Definition maxAttempts : nat := 2.
Definition baseDuration : Q := 320%Q.

Definition easeOutQuart (t : Q) : Q := (1 - (1 - t) ^ 4)%Q.

Definition Qltb (a b : Q) : bool := negb (Qle_bool b a).

Definition animationDuration (attempt : nat) (absDelta : Q) : Q :=
  let dynamicPart := Qmin (absDelta * (4 # 10)) 580 in
  if (attempt =? 0)%nat then (baseDuration + dynamicPart)%Q else 300%Q.

(** The scroll offset written by the frame running [elapsed] ms after the
    start.  Offsets and times are exact rationals here, doubles in the
    source: only what is written with the code's own expression, or holds
    where the curve ends ([progress = 1]), carries over to the doubles. *)
Definition frameOffset (start delta duration elapsed : Q) : Q :=
  let progress := Qmin 1 (elapsed / duration) in
  (start + delta * easeOutQuart progress)%Q.

Definition isTargetCentered (l : Layout) : bool :=
  let viewportCenter := (innerHeight l / 2)%Q in
  let distance :=
    Qabs (rectTop l + Qmin (rectHeight l) 140 / 2 - viewportCenter)%Q in
  Qltb distance 90.

(** One animation that ran to completion: its attempt number and duration. *)
Definition Animation : Type := nat * Q.

(** [smoothScrollToTarget(target, container, attempt)]: the animations it
    runs, following the retries scheduled by the last frame.  [fuel] bounds
    the chain of retries. *)
Fixpoint smoothScrollToTarget (fuel : nat) (attempt : nat) : list Animation :=
  match fuel with
  | O => []
  | S fuel' =>
      let absDelta := Qabs (scrollDelta (layoutAt attempt)) in
      if Qltb absDelta 1 then []
      else
        (attempt, animationDuration attempt absDelta)
        :: (if (attempt <? maxAttempts)%nat && negb (isTargetCentered (layoutAt attempt))
            then smoothScrollToTarget fuel' (S attempt)
            else [])
  end.

End Animation.

(** ** Favorites ([toggleFavorite]) *)





(** ** The Gemini adapter's stable identifiers ([getStableId]) *)

Module Gemini.

(** Attribute values of the page's elements. *)
Definition getAttribute (attrs : gmap (Node * string) string) (el : Node) (a : string)
  : option string := attrs !! (el, a).

Definition getStableId (attrs : gmap (Node * string) string)
    (el : option Node) (role fallbackHash : string)
  : string * gmap (Node * string) string :=
  match el with
  | None => ("msg-gemini-" ++ role ++ "-" ++ fallbackHash, attrs)
  | Some el =>
      let existing := default "" (getAttribute attrs el "data-hopper-id") in
      if truthy existing then (existing, attrs)
      else
        let domId := orElse (default "" (getAttribute attrs el "data-message-id"))
                            (default "" (getAttribute attrs el "id")) in
        let newId := if truthy domId
                     then "msg-gemini-" ++ role ++ "-" ++ domId
                     else "msg-gemini-" ++ role ++ "-" ++ fallbackHash in
        (newId, <[(el, "data-hopper-id") := newId]> attrs)
  end.

End Gemini.

(** ** The adapters' scans (Kimi, Grok, Gemini)

    What an adapter reads off one element with selector queries and
    [textContent] is given with the element; what it does with it (text
    normalisation, skipping, identifiers, numbering) is modelled here. *)

Module AdapterText.

(** [s.replace(/\s+/g, ' ')]. *)
Fixpoint collapseGo (inGap : bool) (s : string) : string :=
  match s with
  | EmptyString => EmptyString
  | String c s' =>
      if isWhiteSpace c
      then if inGap then collapseGo true s' else String " "%char (collapseGo true s')
      else String c (collapseGo false s')
  end.

Definition collapseWhiteSpace (s : string) : string := collapseGo false s.

(** [s.replace(/\s/g, '')]. *)
Fixpoint removeWhiteSpace (s : string) : string :=
  match s with
  | EmptyString => EmptyString
  | String c s' => if isWhiteSpace c then removeWhiteSpace s' else String c (removeWhiteSpace s')
  end.

(** [content.replace(/\s+/g, ' ').trim()]. *)
Definition normalizeText (s : string) : string := trim (collapseWhiteSpace s).

(** [content.substring(0, n).replace(/\s/g, '').substring(0, k)]. *)
Definition contentHash (n k : nat) (content : string) : string :=
  substring0 k (removeWhiteSpace (substring0 n content)).

Definition roleName (r : Role) : string :=
  match r with
  | user => "user"
  | assistant => "assistant"
  end.

(** [`msg-${platform}-${role}-${index}-${contentHash}`]. *)
Definition indexedId (platform : string) (r : Role) (index : nat) (hash : string) : string :=
  "msg-" ++ platform ++ "-" ++ roleName r ++ "-" ++ pretty index ++ "-" ++ hash.

End AdapterText.
Export AdapterText.

Module Kimi.

(** One [.chat-content-item]: the element, the [role] and [content] the
    extraction cascade leaves for it ([role] stays null for an item the
    cascade gives up on, thinking-stage items included), and its
    [offsetHeight]. *)
Record Item := mkItem {
  itemEl : Node;
  itemRole : option Role;
  itemContent : string;
  itemOffsetHeight : Z
}.

(** The scroll element: the item itself, or, when the item is detached or
    has no height, the [index + 1]-th item of the page if that is attached. *)
Definition scrollElement (doc : Document) (index : nat) (it : Item) : Res Node :=
  if negb (isConnected doc (itemEl it)) || (itemOffsetHeight it =? 0) then
    match querySelector doc (".chat-content-item:nth-of-type(" ++ pretty (index + 1)%nat ++ ")") with
    | Throw e => Throw e
    | Ok (Some foundItem) => if isConnected doc foundItem then Ok foundItem else Ok (itemEl it)
    | Ok None => Ok (itemEl it)
    end
  else Ok (itemEl it).

(** The body of the [forEach] from the normalisation of [content] on: the
    message pushed for the item, if any. *)
Definition itemMessage (doc : Document) (now : Z) (index messageOrder : nat) (it : Item)
  : option Message :=
  let content := if truthy (itemContent it) then normalizeText (itemContent it)
                 else itemContent it in
  match itemRole it with
  | None => None
  | Some r =>
      if negb (truthy content) then None
      else
        match scrollElement doc index it with
        | Throw _ => None                       (* caught by the item's own try *)
        | Ok el =>
            Some (mkMessage (indexedId "kimi" r index (contentHash 50 20 content))
                            None r (substring0 200 content) content (Some el) now
                            (Some (Z.of_nat messageOrder)))
        end
  end.

Fixpoint scanFrom (doc : Document) (now : Z) (index messageOrder : nat) (items : list Item)
  : list Message :=
  match items with
  | [] => []
  | it :: rest =>
      match itemMessage doc now index messageOrder it with
      | Some m => m :: scanFrom doc now (S index) (S messageOrder) rest
      | None => scanFrom doc now (S index) messageOrder rest
      end
  end.

(** [detectMessages] over the items found on the page at time [now]. *)
Definition detectMessages (doc : Document) (now : Z) (items : list Item) : list Message :=
  scanFrom doc now 0 0 items.

End Kimi.

Module Grok.

(** The message bubble of a node after the UI elements are removed: the
    texts of its [.break-words] blocks and its whole text. *)
Record Bubble := mkBubble {
  textBlocks : list string;
  bubbleText : string
}.

(** One [div[id^="response-"]]. *)
Record MsgNode := mkMsgNode {
  msgEl : Node;
  domId : string;
  bubble : option Bubble;
  hasUserActions : bool;          (* an Edit or Delete button *)
  hasAssistantActions : bool;     (* a Regenerate, Read Aloud or Like button *)
  hasFeedback : bool              (* a Like or Dislike button *)
}.

Definition determineRole (n : MsgNode) : Role :=
  if hasUserActions n && negb (hasAssistantActions n) then user
  else if hasAssistantActions n then assistant
  else if hasFeedback n then assistant
  else user.

Definition extractContent (b : Bubble) : string :=
  let parts := List.filter truthy (map normalizeText (textBlocks b)) in
  let parts := match parts with
               | [] => List.filter truthy [normalizeText (bubbleText b)]
               | _ => parts
               end in
  trim (Text.join (String (ascii_of_nat 10) (String (ascii_of_nat 10) EmptyString)) parts).

Definition nodeMessage (now : Z) (index order : nat) (n : MsgNode) : option Message :=
  match bubble n with
  | None => None
  | Some b =>
      let r := determineRole n in
      let content := extractContent b in
      if negb (truthy content) then None
      else Some (mkMessage (indexedId "grok" r index (contentHash 50 20 content))
                           (Some (domId n)) r (substring0 200 content) content
                           (Some (msgEl n)) now (Some (Z.of_nat order)))
  end.

Fixpoint scanFrom (now : Z) (index order : nat) (nodes : list MsgNode) : list Message :=
  match nodes with
  | [] => []
  | n :: rest =>
      match nodeMessage now index order n with
      | Some m => m :: scanFrom now (S index) (S order) rest
      | None => scanFrom now (S index) order rest
      end
  end.

Definition detectMessages (now : Z) (nodes : list MsgNode) : list Message :=
  scanFrom now 0 0 nodes.

End Grok.

Module GeminiScan.

(** One message block, as [handleNode] sees it: the wrapper
    [normalizeNode] returns for it, whether that is hidden, the role the
    classification ends with, the wrapper's text without the UI elements,
    and whether the wrapper is streaming. *)
Record Block := mkBlock {
  blockEl : Node;
  blockHidden : bool;
  blockRole : Role;
  blockText : string;
  blockStreaming : bool
}.

(** The variables of one call of [detectMessages], and the page's attributes. *)
Record Scan := mkScan {
  attrs : gmap (Node * string) string;
  seen : list Node;
  nextOrder : nat;
  found : list Message
}.

Definition handleNode (now : Z) (sc : Scan) (b : Block) : Scan :=
  let el := blockEl b in
  if bool_decide (el ∈ seen sc) then sc
  else if blockHidden b then sc
  else
    let content := normalizeText (blockText b) in
    if bool_decide (blockRole b = assistant) && blockStreaming b then sc
    else if negb (truthy content) then sc
    else
      let hash := orElse (contentHash 80 30 content) (pretty now) in
      let '(i, attrs') := Gemini.getStableId (attrs sc) (Some el) (roleName (blockRole b))
                                             (pretty (nextOrder sc) ++ "-" ++ hash) in
      mkScan attrs' (el :: seen sc) (S (nextOrder sc))
             (found sc ++ [mkMessage i None (blockRole b) (substring0 200 content) content
                                     (Some el) now (Some (Z.of_nat (nextOrder sc)))])%list.

(** [detectMessages] over the blocks of the page in document order. *)
Definition detectMessages (pageAttrs : gmap (Node * string) string) (now : Z)
    (blocks : list Block) : Scan :=
  foldl (handleNode now) (mkScan pageAttrs [] 0 []) blocks.

(** The marker an element carries. *)
Definition marker (a : gmap (Node * string) string) (el : Node) : string :=
  default "" (Gemini.getAttribute a el "data-hopper-id").

End GeminiScan.

(** ** The priming attempts of [init] ([tryDetect])

    [init] ends by starting the first detection attempts: after the initial
    delay it calls [tryDetect] once and schedules two more calls; every call
    may schedule one follow-up.  The calls run between the other callbacks of
    the script, at times and on pages the host decides. *)

Module Priming.

Definition isKimi (p : Platform) : bool := bool_decide (name p = "Kimi").

Definition maxAttempts (p : Platform) : nat := if isKimi p then 15%nat else 10%nat.

Definition initialDelay (p : Platform) : Z := if isKimi p then 5000 else 0.

(** [getStreamingWaitTime ? Math.max(500, getStreamingWaitTime() / 4) : 500]. *)
Definition detectionInterval (p : Platform) : Q :=
  match getStreamingWaitTime p with
  | Some w => Qmax 500 (inject_Z w / 4)
  | None => 500%Q
  end.

(** One call of [tryDetect]: the new [attemptCount], the globals after it and
    the delay of the follow-up call it schedules, if any.  [containerReady]
    says whether the Kimi chat container is on the page. *)
Definition tryDetect (p : Platform) (containerReady : bool) (now : Z) (h : Host)
    (attemptCount : nat) (s : State) : nat * State * option Q :=
  let attemptCount := S attemptCount in
  if isKimi p && (attemptCount <=? 3)%nat && negb containerReady then
    (attemptCount, s,
     if (attemptCount <? maxAttempts p)%nat then Some 2000%Q else None)
  else
    let beforeCount := List.length (messages s) in
    let s := detectMessages now h s in
    let afterCount := List.length (messages s) in
    if (beforeCount <? afterCount)%nat then
      let s := observeDOM now s in
      (attemptCount, s,
       if (attemptCount <? maxAttempts p)%nat then
         Some (match getStreamingWaitTime p with
               | Some w => Qmax (detectionInterval p) (inject_Z w / 2)
               | None => detectionInterval p
               end)
       else None)
    else if (afterCount =? 0)%nat && (attemptCount <? maxAttempts p)%nat then
      (attemptCount, s,
       Some (if isKimi p then Qmax (detectionInterval p * 3) 1500 else detectionInterval p))
    else if (0 <? afterCount)%nat then (attemptCount, observeDOM now s, None)
    else if (afterCount =? 0)%nat && (maxAttempts p <=? attemptCount)%nat then
      (attemptCount, observeDOM now s, None)
    else (attemptCount, s, None).

(** One call as the host lets it happen: its time, whether the Kimi container
    is there, and what reached the script since the call before. *)
Record Call := mkCall {
  callTime : Z;
  containerReady : bool;
  since : list Input
}.

(** The calls of [tryDetect] in the order they run.  [pending] counts the
    calls scheduled and not yet run; the run ends when none is pending. *)
Fixpoint prime (w : World) (fuel : nat) (p : Platform) (calls : list Call)
    (pending attemptCount : nat) (s : State) : nat * nat * State :=
  match calls, pending with
  | c :: rest, S k =>
      let s := runUntil w (callTime c) fuel (simulate w fuel (since c) s) in
      let '(n, s, next) :=
        tryDetect p (containerReady c) (callTime c) (w (callTime c)) attemptCount s in
      prime w fuel p rest (k + match next with Some _ => 1 | None => 0 end)%nat n s
  | _, _ => (attemptCount, pending, s)
  end.

(** [init] from the priming on: the first call and the two scheduled with it. *)
Definition init (w : World) (fuel : nat) (p : Platform) (calls : list Call) (s : State)
  : nat * nat * State :=
  prime w fuel p calls 3 0 s.

End Priming.


(** ** The scroll container and the scroll target
    ([resolveScrollContainer], [findScrollableAncestor],
    [getKimiScrollContainer], [isScrollableCandidate],
    [computeTargetScrollTop]) *)

Module Container.

(** The layout of the page: what the script reads of the boxes. *)
Record Boxes := mkBoxes {
  scrollHeight : Node -> Z;
  clientHeight : Node -> Z;
  hasOverflow : Node -> bool;        (* overflowY (or overflow) says auto, scroll or overlay *)
  testId : Node -> option string;    (* getAttribute('data-testid') *)
  body : Node;                       (* document.body *)
  scrollingElement : Node;           (* document.scrollingElement || document.documentElement *)
  offsetParent : Node -> option Node;
  contains : Node -> Node -> bool;   (* a.contains(b) *)
  boundingTop : Node -> Q;           (* getBoundingClientRect().top *)
  currentScrollTop : Node -> Q       (* scrollTop, or the page offset for the root *)
}.

Definition KIMI_SCROLL_SELECTORS : list string :=
  [".chat-content-container"; ".chat-detail-content"; ".chat-detail-main";
   ".chat-page.chat"; ".layout-content-main"; ".layout-content"; ".chat-layout";
   ".chat-layout-main"; ".n-scrollbar-container"; ".n-scrollbar-content";
   ".scrollbar-container"; ".scrollbar-content"; ".virtual-list";
   ".virtual-list-container"; ".virtual-scroll";
   "[class*=" ++ dq ++ "scroll-area" ++ dq ++ "]";
   "[class*=" ++ dq ++ "scrollbar" ++ dq ++ "]";
   "[class*=" ++ dq ++ "chat-content" ++ dq ++ "]"].

Definition KIMI_SCROLL_SELECTOR_STRING : string := Text.join ", " KIMI_SCROLL_SELECTORS.

Section Resolve.

Variable doc : Document.
Variable bx : Boxes.
Variable platformName : option string.      (* currentPlatform?.name *)

Definition scrollSpace (n : Node) : Z := scrollHeight bx n - clientHeight bx n.

(** The loop of [findScrollableAncestor], [depth] hops still allowed. *)
Fixpoint climbScrollable (depth : nat) (parent : option Node) : option Node :=
  match depth, parent with
  | S depth', Some q =>
      let isKimi := bool_decide (platformName = Some "Kimi") in
      let scrollRoom := 50 <? scrollSpace q in
      if (hasOverflow bx q && scrollRoom) || (isKimi && scrollRoom) then Some q
      else climbScrollable depth' (parentElement doc q)
  | _, _ => None
  end.

Definition findScrollableAncestor (node : Node) : option Node :=
  climbScrollable 15 (parentElement doc node).

Definition isScrollableCandidate (el : option Node) (minDelta : Z) : bool :=
  match el with
  | None => false
  | Some el =>
      if negb (isConnected doc el) then false
      else if minDelta <? scrollSpace el then true
      else hasOverflow bx el && (10 <? scrollSpace el)
  end.

(** [candidates.add(el)] on a [Set]: insertion order, no duplicates. *)
Definition addCandidate (el : Node) (candidates : list Node) : list Node :=
  if bool_decide (el ∈ candidates) then candidates else (candidates ++ [el])%list.

(** The loop over the target and its ancestors, [depth] rounds still allowed. *)
Fixpoint ancestorCandidates (depth : nat) (ancestor : option Node) (candidates : list Node)
  : list Node :=
  match depth, ancestor with
  | S depth', Some a =>
      let candidates := addCandidate a candidates in
      let candidates :=
        match closest doc a KIMI_SCROLL_SELECTOR_STRING with
        | Some matched => addCandidate matched candidates
        | None => candidates
        end in
      ancestorCandidates depth' (parentElement doc a) candidates
  | _, _ => candidates
  end.

Definition kimiCandidates (target : Node) : list Node :=
  let candidates :=
    if isConnected doc target then ancestorCandidates 20 (Some target) [] else [] in
  foldl (fun acc el => addCandidate el acc) candidates
        (querySelectorAll doc KIMI_SCROLL_SELECTOR_STRING).

(** The selection loop: [best] and [bestDelta] after the candidates. *)
Definition pickBest (candidates : list Node) : option Node * Z :=
  foldl (fun '(best, bestDelta) candidate =>
           if negb (isConnected doc candidate) then (best, bestDelta)
           else
             let delta := scrollSpace candidate in
             if isScrollableCandidate (Some candidate) 80 && (bestDelta <=? delta)
             then (Some candidate, delta)
             else (best, bestDelta))
        (None, 0) candidates.

(** [getKimiScrollContainer]: the container and the new value of the cache
    [kimiScrollContainer]. *)
Definition getKimiScrollContainer (kimiScrollContainer : option Node) (target : Node)
  : Node * option Node :=
  let fallback := scrollingElement bx in
  if isScrollableCandidate kimiScrollContainer 80
  then (default fallback kimiScrollContainer, kimiScrollContainer)
  else
    match (pickBest (kimiCandidates target)).1 with
    | Some best => (best, Some best)
    | None => (fallback, Some fallback)
    end.

(** [document.querySelector(a) || document.querySelector(b) || ...]. *)
Fixpoint firstMatch (selectors : list string) : Res (option Node) :=
  match selectors with
  | [] => Ok None
  | sel :: rest =>
      match querySelector doc sel with
      | Throw e => Throw e
      | Ok (Some n) => Ok (Some n)
      | Ok None => firstMatch rest
      end
  end.

Definition platformSelectors : list string :=
  if bool_decide (platformName = Some "Grok") then
    ["[data-testid=" ++ dq ++ "drop-container" ++ dq ++ "] main";
     "[data-testid=" ++ dq ++ "drop-container" ++ dq ++ "]"]
  else if bool_decide (platformName = Some "ChatGPT") then
    [".flex-1.flex.flex-col"; "[class*=" ++ dq ++ "overflow" ++ dq ++ "]"]
  else if bool_decide (platformName = Some "DeepSeek") then
    [".ds-scroll-area"; "[class*=" ++ dq ++ "ds-scroll-area" ++ dq ++ "]";
     "[class*=" ++ dq ++ "_0f72b0b" ++ dq ++ "]"]
  else ["main"; "[class*=" ++ dq ++ "scroll" ++ dq ++ "]"].

(** [resolveScrollContainer]: the container and the new value of the Kimi
    cache.  ([gentlyNudgeKimiContainer] writes [scrollTop] and writes it
    back.) *)
Definition resolveScrollContainer (kimiScrollContainer : option Node) (target : Node)
  : Res (Node * option Node) :=
  let found :=
    if bool_decide (platformName = Some "Kimi") then
      let '(c, cache) := getKimiScrollContainer kimiScrollContainer target in
      Ok (Some c, cache)
    else
      match firstMatch platformSelectors with
      | Throw e => Throw e
      | Ok c => Ok (c, kimiScrollContainer)
      end in
  match found with
  | Throw e => Throw e
  | Ok (container, cache) =>
      let container :=
        match findScrollableAncestor target with
        | Some ancestor =>
            if bool_decide (ancestor ≠ body bx) then
              if bool_decide (platformName = Some "Grok")
                 && match container with
                    | Some c => bool_decide (testId bx c = Some "drop-container")
                    | None => false
                    end
              then container
              else Some ancestor
            else container
        | None => container
        end in
      let fallback := scrollingElement bx in
      let hasScrollSpace :=
        match container with
        | Some c => 10 <? scrollSpace c
        | None => false
        end in
      Ok (if hasScrollSpace then default fallback container else fallback, cache)
  end.

(** The loop of [computeTargetScrollTop] over the offset parents. *)
Fixpoint sumOffsets (fuel : nat) (container : Node) (parent : option Node) (acc : Q) : Q :=
  match fuel, parent with
  | S fuel', Some q =>
      if bool_decide (q = container) || bool_decide (q = body bx) then acc
      else sumOffsets fuel' container (offsetParent bx q) (acc + inject_Z (offsetTop doc q))
  | _, _ => acc
  end.

Definition elementTopInContent (fuel : nat) (target container : Node) : Q :=
  let byRects :=
    (boundingTop bx target - boundingTop bx container + currentScrollTop bx container)%Q in
  match offsetParent bx target with
  | Some op =>
      if contains bx container op
      then sumOffsets fuel container (Some op) (inject_Z (offsetTop doc target))
      else byRects
  | None => byRects
  end.

Definition computeTargetScrollTop (fuel : nat) (target container : Node)
    (containerHeight : Q) : Q :=
  let desiredCenterOffset :=
    Qmax 0 (elementTopInContent fuel target container - containerHeight * (15 # 100)) in
  let maxScroll := Qmax 0 (inject_Z (scrollHeight bx container) - containerHeight) in
  Qmax 0 (Qmin desiredCenterOffset maxScroll).

End Resolve.

End Container.


(** ** Platform detection ([detectPlatform]) *)

Module Registry.

(** An entry of [window.HopperPlatform]: the adapter object and what its
    [isActive] does when called ([None]: the adapter has no [isActive]). *)
Record Adapter := mkAdapter {
  platform : Platform;
  isActive : option (Res bool)
}.

Definition platforms : list string :=
  ["chatgpt"; "claude"; "gemini"; "kimi"; "deepseek"; "grok"; "qwen"].

(** The [for] loop. *)
Fixpoint firstActive (registry : gmap string Adapter) (names : list string)
  : Res (option Platform) :=
  match names with
  | [] => Ok None
  | platformName :: rest =>
      match registry !! platformName with
      | Some a =>
          match isActive a with
          | Some (Ok true) => Ok (Some (platform a))
          | Some (Throw e) => Throw e
          | _ => firstActive registry rest
          end
      | None => firstActive registry rest
      end
  end.

(** [detectPlatform]; [hopperPlatform] is [window.HopperPlatform]. *)
Definition detectPlatform (hopperPlatform : option (gmap string Adapter))
  : option Platform :=
  match hopperPlatform with
  | None => None                      (* logged: platform APIs not loaded *)
  | Some registry =>
      match firstActive registry platforms with
      | Ok r => r
      | Throw _ => None               (* caught and logged *)
      end
  end.

End Registry.


(** ** The sidebar list ([updateUI], [updateTabCounts]) *)

Module Sidebar.

(** [messages.findIndex(P)]. *)
Fixpoint findIndex (P : Message -> bool) (l : list Message) : option nat :=
  match l with
  | [] => None
  | m :: l' => if P m then Some 0%nat else S <$> findIndex P l'
  end.

(** The tab filter. *)
Definition byTab (filter : string) (favorites : list string) (messages : list Message)
  : list Message :=
  if bool_decide (filter = "favorites")
  then List.filter (fun m => bool_decide (id m ∈ favorites)) messages
  else if negb (bool_decide (filter = "all"))
       then List.filter (fun m => bool_decide (roleName (role m) = filter)) messages
       else messages.

(** The search filter. *)
Definition bySearch (searchQuery : string) (filtered : list Message) : list Message :=
  if truthy searchQuery then
    let query := toLowerCase searchQuery in
    List.filter (fun m =>
                   let content := toLowerCase (orElse (fullContent m) (content m)) in
                   Text.includes query content)
                filtered
  else filtered.

(** The number shown on the card at position [index] of the list. *)
Definition messageNumber (messages : list Message) (index : nat) (msg : Message) : nat :=
  match findIndex (fun m => bool_decide (id m = id msg)) messages with
  | Some originalIndex => (originalIndex + 1)%nat
  | None => (index + 1)%nat
  end.

(** What [updateUI] puts into [#hopper-messages]. *)
Inductive Rendering :=
| NoMessagesYet                              (* No messages detected yet. *)
| NoMatch                                    (* No messages match your filter/search *)
| Cards (cards : list (Message * nat)).      (* one card per message, with its number *)

Definition render (filter searchQuery : string) (favorites : list string)
    (messages : list Message) : Rendering :=
  let filtered := bySearch searchQuery (byTab filter favorites messages) in
  if (List.length filtered =? 0)%nat then
    if (List.length messages =? 0)%nat then NoMessagesYet else NoMatch
  else Cards (imap (fun index msg => (msg, messageNumber messages index msg)) filtered).

Record TabCounts := mkTabCounts {
  allCount : nat;
  userCount : nat;
  assistantCount : nat;
  favoritesCount : nat
}.

Definition updateTabCounts (favorites : list string) (messages : list Message) : TabCounts :=
  mkTabCounts
    (List.length messages)
    (List.length (List.filter (fun m => bool_decide (roleName (role m) = "user")) messages))
    (List.length (List.filter (fun m => bool_decide (roleName (role m) = "assistant"))
                              messages))
    (List.length (List.filter (fun m => bool_decide (id m ∈ favorites)) messages)).

End Sidebar.


(** ** The active card of the sidebar ([highlightSidebarMessage]) *)

Module Active.

(** [activeSidebarMessageId], [activeSidebarElement] and the elements that
    carry the class [hopper-message-active]. *)
Record SidebarState := mkSidebarState {
  activeSidebarMessageId : option string;
  activeSidebarElement : option Node;
  activeClass : gset Node
}.

(** [highlightSidebarMessage(id, { force })]: the state after the call and
    whether the call raised ([document.querySelector] on a selector that
    does not parse). *)
Definition highlightSidebarMessage (doc : Document) (mid : option string) (force : bool)
    (st : SidebarState) : SidebarState * bool :=
  if negb force && bool_decide (mid = activeSidebarMessageId st) then (st, false)
  else
    let classes :=
      match activeSidebarElement st with
      | Some el => activeClass st ∖ {[el]}
      | None => activeClass st
      end in
    let active :=
      match mid with
      | Some i => if truthy i then Some i else None
      | None => None
      end in
    match active with
    | None => (mkSidebarState None None classes, false)
    | Some i =>
        match querySelector doc (cardSelector i) with
        | Throw _ => (mkSidebarState active None classes, true)
        | Ok (Some element) =>
            (mkSidebarState active (Some element) (classes ∪ {[element]}), false)
        | Ok None => (mkSidebarState active None classes, false)
        end
    end.

(** [teardownScrollSpy] (the scroll spy itself is disabled). *)
Definition teardownScrollSpy (doc : Document) (st : SidebarState) : SidebarState :=
  let st := (highlightSidebarMessage doc None true st).1 in
  mkSidebarState None (activeSidebarElement st) (activeClass st).

(** A call of [highlightSidebarMessage] on the page as it is then. *)
Record Call := mkCall {
  page : Document;
  target : option string;
  force : bool
}.

Definition run (calls : list Call) (st : SidebarState) : SidebarState :=
  foldl (fun st c => (highlightSidebarMessage (page c) (target c) (force c) st).1) st calls.

Definition initial : SidebarState := mkSidebarState None None ∅.

End Active.

(** ** The search box ([handleSearch]) *)

Module Search.

(** [searchTimeout] (the pending timer: when it is due and the query its
    callback has captured), [lastSearchQuery], and the queries [updateUI]
    has been called with, oldest first. *)
Record SearchState := mkSearchState {
  searchTimeout : option (Z * string);
  lastSearchQuery : string;
  rendered : list string
}.

(** [handleSearch(e)] at time [now], the box holding [value]. *)
Definition handleSearch (now : Z) (value : string) (st : SearchState) : SearchState :=
  let query := trim value in
  let st := mkSearchState None (lastSearchQuery st) (rendered st) in
  if (String.length query =? 0)%nat then
    if negb (bool_decide (lastSearchQuery st = ""))
    then mkSearchState None "" (rendered st ++ [""])
    else st
  else if bool_decide (query = lastSearchQuery st) then st
  else mkSearchState (Some (now + 200, query)) (lastSearchQuery st) (rendered st).

(** The callback of the 200ms timer; [inputValue] is what the search box
    holds when it runs ([None]: the box is not on the page). *)
Definition onSearchTimeout (inputValue : option string) (st : SearchState) : SearchState :=
  match searchTimeout st with
  | None => st
  | Some (_, query) =>
      let currentQuery := orElse (from_option trim "" inputValue) "" in
      if bool_decide (currentQuery = query)
         && negb (bool_decide (currentQuery = lastSearchQuery st))
      then mkSearchState None query (rendered st ++ [query])
      else mkSearchState None (lastSearchQuery st) (rendered st)
  end.

Inductive Action :=
| Typed (now : Z) (value : string)        (* an input event *)
| TimerFired (inputValue : option string).

Definition step (st : SearchState) (a : Action) : SearchState :=
  match a with
  | Typed now value => handleSearch now value st
  | TimerFired inputValue => onSearchTimeout inputValue st
  end.

Definition run (actions : list Action) (st : SearchState) : SearchState :=
  foldl step st actions.

Definition initial : SearchState := mkSearchState None "" [].

End Search.


(** ** The highlight of the target ([animateMessageHighlight])

    One target element: its inline style, its entry in
    [highlightCleanupMap] and the two timers of the animation. *)

Module Highlight.

Record Style := mkStyle {
  backgroundColor : string;
  boxShadow : string;
  borderRadius : string;
  outline : string;
  outlineOffset : string;
  transition : string;
  willChange : string
}.

(** The accent colours read from [#hopper-root], defaults applied. *)
Record Accent := mkAccent {
  accentBg : string;
  accentShadow : string;
  accentOutline : string
}.

Inductive HCallback :=
| FadeOut (original : Style)
| ResetHighlight (original : Style).

Record HTimer := mkHTimer {
  hid : nat;
  hdue : Z;
  hcallback : HCallback
}.

(** An entry of [highlightCleanupMap]; [restore] is [resetHighlight] with
    the [original] of the call that made the entry. *)
Record Cleanup := mkCleanup {
  fadeTimeout : nat;
  resetTimeout : nat;
  restoreOriginal : Style
}.

Record Target := mkTarget {
  style : Style;
  cleanup : option Cleanup;
  htimers : list HTimer;
  hnextId : nat
}.

Definition clearHTimer (i : nat) (tg : Target) : Target :=
  mkTarget (style tg) (cleanup tg)
           (List.filter (fun t => negb (bool_decide (hid t = i))) (htimers tg)) (hnextId tg).

Definition applyHighlight (a : Accent) (original : Style) (s : Style) : Style :=
  mkStyle (accentBg a)
          ("0 0 28px " ++ accentShadow a)
          (orElse (borderRadius original) "16px")
          ("2px solid " ++ accentOutline a)
          "3px"
          "background-color 0.35s cubic-bezier(0.16, 1, 0.3, 1), box-shadow 0.35s cubic-bezier(0.16, 1, 0.3, 1), outline 0.35s cubic-bezier(0.16, 1, 0.3, 1)"
          "background-color, box-shadow, border-radius, outline".

Definition fadeOut (connected : bool) (original : Style) (tg : Target) : Target :=
  if negb connected then tg
  else
    mkTarget
      (mkStyle (orElse (backgroundColor original) "")
               (orElse (boxShadow original) "")
               (borderRadius (style tg))
               (orElse (outline original) "")
               (orElse (outlineOffset original) "")
               "background-color 0.8s cubic-bezier(0.33, 1, 0.68, 1), box-shadow 0.8s cubic-bezier(0.33, 1, 0.68, 1), outline 0.8s cubic-bezier(0.33, 1, 0.68, 1)"
               (willChange (style tg)))
      (cleanup tg) (htimers tg) (hnextId tg).

Definition resetHighlight (connected : bool) (original : Style) (tg : Target) : Target :=
  if negb connected then tg
  else
    mkTarget
      (mkStyle (orElse (backgroundColor original) "")
               (orElse (boxShadow original) "")
               (orElse (borderRadius original) "")
               (orElse (outline original) "")
               (orElse (outlineOffset original) "")
               (orElse (transition original) "")
               (orElse (willChange original) ""))
      None (htimers tg) (hnextId tg).

(** [animateMessageHighlight(target)] at time [now]. *)
Definition animateMessageHighlight (connected : bool) (a : Accent) (now : Z) (tg : Target)
  : Target :=
  let tg :=
    match cleanup tg with
    | Some existing =>
        let tg := clearHTimer (fadeTimeout existing) tg in
        let tg := clearHTimer (resetTimeout existing) tg in
        let tg := resetHighlight connected (restoreOriginal existing) tg in
        mkTarget (style tg) None (htimers tg) (hnextId tg)
    | None => tg
    end in
  let original := style tg in
  let i := hnextId tg in
  mkTarget (applyHighlight a original (style tg))
           (Some (mkCleanup i (S i) original))
           (htimers tg ++ [mkHTimer i (now + 600) (FadeOut original);
                           mkHTimer (S i) (now + 1700) (ResetHighlight original)])
           (S (S i)).

Definition fireH (connected : bool) (cb : HCallback) (tg : Target) : Target :=
  match cb with
  | FadeOut original => fadeOut connected original tg
  | ResetHighlight original => resetHighlight connected original tg
  end.

Definition earlierH (a b : HTimer) : bool :=
  (hdue a <? hdue b) || ((hdue a =? hdue b) && (hid a <? hid b)%nat).

Fixpoint nextHTimer (l : list HTimer) : option HTimer :=
  match l with
  | [] => None
  | t :: l' =>
      match nextHTimer l' with
      | Some u => if earlierH u t then Some u else Some t
      | None => Some t
      end
  end.

(** Fire, in order, the timers due before [limit]; [connectedAt] says when
    the target is attached. *)
Fixpoint runH (connectedAt : Z -> bool) (limit : Z) (fuel : nat) (tg : Target) : Target :=
  match fuel with
  | O => tg
  | S fuel' =>
      match nextHTimer (htimers tg) with
      | Some t =>
          if hdue t <? limit
          then runH connectedAt limit fuel'
                    (fireH (connectedAt (hdue t)) (hcallback t) (clearHTimer (hid t) tg))
          else tg
      | None => tg
      end
  end.

(** The target is highlighted at each of the [times], then left alone
    until [finish]. *)
Definition session (connectedAt : Z -> bool) (a : Accent) (fuel : nat) (times : list Z)
    (finish : Z) (tg : Target) : Target :=
  runH connectedAt finish fuel
       (foldl (fun tg t => animateMessageHighlight (connectedAt t) a t
                                                   (runH connectedAt t fuel tg))
              tg times).

End Highlight.


(** ** Copying a message ([formatMessageAsMarkdown], [copyMessage]) *)

Module Copy.

Definition LF : ascii := ascii_of_nat 10.
Definition CR : ascii := ascii_of_nat 13.

(** [s.replace(/\r\n/g, '\n')]. *)
Fixpoint replaceCRLF (s : string) : string :=
  match s with
  | EmptyString => EmptyString
  | String c s' =>
      match s' with
      | String d s'' =>
          if bool_decide (c = CR) && bool_decide (d = LF)
          then String LF (replaceCRLF s'')
          else String c (replaceCRLF s')
      | EmptyString => String c EmptyString
      end
  end.

(** [s.split('\n')]. *)
Fixpoint splitLines (s : string) : list string :=
  match s with
  | EmptyString => [EmptyString]
  | String c s' =>
      if bool_decide (c = LF) then EmptyString :: splitLines s'
      else match splitLines s' with
           | line :: rest => String c line :: rest
           | [] => [String c EmptyString]
           end
  end.

Definition blankLine : string := String LF (String LF EmptyString).

Definition normalizeLines (rawContent : string) : string :=
  Text.join blankLine
    (List.filter (fun line => (0 <? String.length line)%nat)
                 (map trim (splitLines (replaceCRLF rawContent)))).

(** [formatMessageAsMarkdown(msg)] for a message object; [platformName] is
    [currentPlatform?.name]. *)
Definition formatMessageAsMarkdown (platformName : option string) (messages : list Message)
    (msg : Message) : string :=
  let roleLabel :=
    match role msg with
    | user => "You"
    | assistant => orElse (default "" platformName) "AI"
    end in
  let headingNumber :=
    match Sidebar.findIndex (fun m => bool_decide (id m = id msg)) messages with
    | Some index => pretty (index + 1)%nat ++ ". "
    | None => ""
    end in
  let heading := "### " ++ headingNumber ++ roleLabel ++ blankLine in
  let rawContent := trim (orElse (fullContent msg) (orElse (content msg) "")) in
  if negb (truthy rawContent) then trim heading
  else heading ++ normalizeLines rawContent.

Definition copyButtonSelector (mid : string) : string :=
  ".hopper-copy[data-id=" ++ dq ++ mid ++ dq ++ "]".

(** [copyMessage(id)]: the text handed to the clipboard, if any.  The copy
    button is looked up, with a selector built from the id, after the text
    is formatted and before the clipboard is written: when the selector does
    not parse the function raises and nothing is copied. *)
Definition copyMessage (doc : Document) (platformName : option string)
    (messages : list Message) (mid : string) : Res (option string) :=
  match List.find (fun m => bool_decide (id m = mid)) messages with
  | None => Ok None
  | Some msg =>
      let contentToCopy := formatMessageAsMarkdown platformName messages msg in
      match querySelector doc (copyButtonSelector mid) with
      | Throw e => Throw e
      | Ok _ => Ok (Some contentToCopy)     (* button feedback and toast, then the clipboard *)
      end
  end.

End Copy.


(** ** Notions used to state the properties *)

(** The candidates a pass accepts in state [s] when the page answers [h]. *)
Definition passAccepted (h : Host) (s : State) : list Message :=
  match currentPlatform s, adapterDetectMessages h with
  | Some p, Ok newMessages =>
      if hasDetectMessages p
      then acceptedCandidates (document h) (name p) (messages s) newMessages
      else []
  | _, _ => []
  end.

(** The [k]-th ancestor of an element. *)
Fixpoint ancestor (doc : Document) (k : nat) (n : Node) : option Node :=
  match k with
  | O => Some n
  | S k' => match parentElement doc n with
            | Some p => ancestor doc k' p
            | None => None
            end
  end.

(** The primary sort key: messages carrying an [order] by ascending value,
    then the messages without one. *)
Definition orderLe (a b : Message) : Prop :=
  match order a, order b with
  | Some x, Some y => x <= y
  | Some _, None => True
  | None, Some _ => False
  | None, None => True
  end.

(** Two scans of an unchanged page differ at most in their [Date.now()]. *)
Definition sameScan (cs cs' : list Message) : Prop :=
  Forall2 (fun c c' => c' = set_timestamp (timestamp c') c) cs cs'.

(** [compareDocumentPosition] answers consistently in both directions. *)
Definition positionsConsistent (doc : Document) : Prop :=
  ∀ a b,
    Z.land (compareDocumentPosition doc a b) DOCUMENT_POSITION_PRECEDING ≠ 0 →
    Z.land (compareDocumentPosition doc a b) DOCUMENT_POSITION_FOLLOWING = 0 →
    Z.land (compareDocumentPosition doc b a) DOCUMENT_POSITION_FOLLOWING ≠ 0.


(** ** Sample pages and messages *)

(** A page that is one chain: element [n+1] is the only child of element [n].
    Element [b] follows and is contained by every [a < b]. *)
Definition chainDoc : Document :=
  mkDocument
    (fun n => match n with O => None | S k => Some k end)
    (fun _ => true)
    (fun a b => if (a <? b)%nat then 20 else if (b <? a)%nat then 10 else 0)
    (fun n => Z.of_nat n * 40)
    (fun _ => "")
    (fun _ => None)
    (fun _ => Ok None)
    (fun _ => [])
    (fun _ _ => None)
    true.

Definition helloAt0 : Message :=
  mkMessage "msg-kimi-user-0-hello" None user "hello" "hello" (Some 0%nat) 1000 (Some 0).

(** The same text from the same author ten levels further down; its item
    index is 1 but it is again the first message the scan produced. *)
Definition helloAt10 : Message :=
  mkMessage "msg-kimi-user-1-hello" None user "hello" "hello" (Some 10%nat) 2000 (Some 0).

(** As [helloAt10], but second in its scan. *)
Definition helloAt10' : Message :=
  mkMessage "msg-kimi-user-1-hello" None user "hello" "hello" (Some 10%nat) 2000 (Some 1).

Definition twinA : Message :=
  mkMessage "msg-gemini-user-m1" None user "hi" "hi" (Some 1%nat) 1000 (Some 0).
Definition twinB : Message :=
  mkMessage "msg-gemini-user-m1" None user "what now" "what now" (Some 2%nat) 1000 (Some 1).


(** A message seen first, and an older one that the host loads later above
    it: the scan that finds it numbers it from 0 again. *)
Definition seenFirst : Message :=
  mkMessage "msg-kimi-user-0-second" None user "second" "second" (Some 5%nat) 1000 (Some 0).
Definition loadedLater : Message :=
  mkMessage "msg-kimi-user-0-first" None user "first" "first" (Some 2%nat) 2000 (Some 0).

Definition kimi : Platform := mkPlatform "Kimi" true true (Some 800) (Some 2000).

(** The script right after [init] has picked the platform. *)
Definition initialState (p : Platform) (url : string) : State :=
  mkState [] url (Some p) false false None None None None [] 1 [].

Definition hostWith (d : Document) (scan : Res (list Message)) (streaming : bool)
    (url : string) : Host :=
  mkHost d scan streaming url (fun u => u).


(** A page on which the assistant streams until time [T] and the adapter
    finds [scan] at every instant. *)
Definition streamingUntil (T : Z) (scan : list Message) : World :=
  fun t => hostWith chainDoc (Ok scan) (t <? T) "/chat/1".

Definition childListChange : Mutations := mkMutations true false false.


Definition oldChatMessage : Message :=
  mkMessage "msg-kimi-user-0-oldquestion" None user "old question" "old question"
            (Some 3%nat) 900 (Some 0).
Definition newChatMessage : Message :=
  mkMessage "msg-kimi-user-0-newquestion" None user "new question" "new question"
            (Some 4%nat) 3000 (Some 0).

(** The user leaves conversation 1 for conversation 2 at time 2000; the host
    has replaced the old conversation's items by time 2950. *)
Definition navigation : World :=
  fun t => hostWith chainDoc
                    (Ok (if t <? 2950 then [oldChatMessage] else [newChatMessage]))
                    false
                    (if t <? 2000 then "/chat/1" else "/chat/2").

(** One mutation batch at 100, the URL poll that notices the navigation at 2000. *)
Definition navigationInputs : list Input :=
  [InMutations 100 childListChange; InUrlCheck 2000].


(** The three selectors [scrollToMessage] builds from the id are accepted by
    the page's selector parser. *)
Definition selectorsParse (doc : Document) (mid : string) : Prop :=
  ∀ sel, sel ∈ [cardSelector mid; dataIdSelector mid; idContainsSelector mid] →
         ∃ r, querySelector doc sel = Ok r.








Definition rerenderedDoc : Document :=
  mkDocument
    (fun _ => None)
    (fun n => negb (n =? 9)%nat)
    (fun _ _ => 0)
    (fun _ => 0)
    (fun n => if (n =? 7)%nat then "What is Rocq" else "")
    (fun _ => None)
    (fun sel => if bool_decide (sel ∈ [cardSelector "msg-grok-user-0-whatisrocq";
                                       dataIdSelector "msg-grok-user-0-whatisrocq"])
                then Ok (Some 50%nat) else Ok None)
    (fun _ => [])
    (fun _ _ => None)
    true.





(** An id holding double quotes, and a page whose selector parser rejects
    the selectors built from it. *)
Definition quotedId : string := "msg-grok-user-0-say" ++ dq ++ "hi" ++ dq.

Definition quotedMessage : Message :=
  mkMessage quotedId (Some "response-2") user
            ("say " ++ dq ++ "hi" ++ dq) ("say " ++ dq ++ "hi" ++ dq)
            (Some 9%nat) 1000 (Some 0).

Definition strictDoc : Document :=
  mkDocument
    (fun _ => None)
    (fun n => negb (n =? 9)%nat)
    (fun _ _ => 0)
    (fun _ => 0)
    (fun _ => "")
    (fun _ => None)
    (fun sel => if Text.includes quotedId sel then Throw "SyntaxError" else Ok None)
    (fun _ => [])
    (fun _ _ => None)
    true.


(** A page that keeps shifting while the scroll runs (content above the
    target is still loading): 1000px to go at first, 200px again at the start
    of each later attempt; the target, 120px high, ends each animation 135px
    below the top of a 900px viewport. *)
Definition shiftingLayout : nat -> Layout :=
  fun attempt => mkLayout (if (attempt =? 0)%nat then 1000%Q else 200%Q) 135%Q 120%Q 900%Q.

Definition sameAnimation (a b : Animation) : Prop := a.1 = b.1 ∧ (a.2 == b.2)%Q.


(** The two scans of the walk-through: first the user's message, then the
    same message and the assistant's answer. *)
Definition scanA : Message :=
  mkMessage "a" None user "hi" "hi" (Some 1%nat) 1000 (Some 0).
Definition scanA' : Message :=
  mkMessage "a" None user "hi" "hi" (Some 1%nat) 2000 (Some 0).
Definition scanB : Message :=
  mkMessage "b" None assistant "hello" "hello" (Some 2%nat) 2000 (Some 1).


(** ** Notions used to state the further properties *)

(** No character of the string is a dash. *)
Fixpoint noDash (s : string) : bool :=
  match s with
  | EmptyString => true
  | String c s' => negb (bool_decide (c = "-"%char)) && noDash s'
  end.

(** The [order] values [k], [k+1], ... of a scan. *)
Definition ordersFrom (k : nat) (n : nat) : list (option Z) :=
  map (fun i => Some (Z.of_nat i)) (seq k n).


(** The ids of the list are built from strictly increasing item indices,
    none below [lo]. *)
Inductive indexedFrom (platform : string) : nat -> list Message -> Prop :=
| indexedFrom_nil (lo : nat) : indexedFrom platform lo []
| indexedFrom_cons (lo i : nat) (r : Role) (h : string) (m : Message) (out : list Message) :
    (lo <= i)%nat →
    id m = indexedId platform r i h →
    indexedFrom platform (S i) out →
    indexedFrom platform lo (m :: out).

(** The sequence after a series of passes, each fed with one scan. *)
Definition afterScans (doc : Document) (platformName : string) (scans : list (list Message))
  : list Message :=
  foldl (nextMessages doc platformName) [] scans.


(** A batch of mutation records that takes the general, debounced path. *)
Definition debouncedBatch (p : Platform) (mu : Mutations) : Prop :=
  hasRelevantChanges mu && isDeepSeek p && hasMessageNodes mu = false
  ∧ hasRelevantChanges mu && isQwen p && hasQwenMessages mu = false.

(** Each batch comes no later than [d] after the one before. *)
Fixpoint spacedWithin (d : Z) (prev : Z) (batches : list (Z * Mutations)) : Prop :=
  match batches with
  | [] => True
  | (t, _) :: rest => prev <= t ∧ t <= prev + d ∧ spacedWithin d t rest
  end.

Definition batchInputs (batches : list (Z * Mutations)) : list Input :=
  map (fun '(t, mu) => InMutations t mu) batches.

Definition lastBatchTime (t0 : Z) (batches : list (Z * Mutations)) : Z :=
  List.last (map fst batches) t0.

(** The fallback polls in the queue. *)
Definition pollTimers (s : State) : list Timer :=
  List.filter (fun t => bool_decide (callback t = CbPoll)) (timers s).

(** At most one fallback poll is pending, and the script holds its id. *)
Definition onePoll (p : Platform) (s : State) : Prop :=
  currentPlatform s = Some p
  ∧ (List.length (pollTimers s) <= 1)%nat
  ∧ ∀ t, t ∈ pollTimers s →
         (if isQwen p then hopperQwenInterval s else hopperDeepSeekInterval s)
         = Some (tid t).

(** The state reached when a teardown could not finish: reset in progress,
    no reset callback pending. *)
Definition stuckInReset (s : State) : Prop :=
  isResetting s = true ∧ ∀ t, t ∈ timers s → callback t ≠ CbReset.

Definition inputTime (i : Input) : Z :=
  match i with
  | InMutations t _ => t
  | InUrlCheck t => t
  end.

(** The state right after a teardown at [now] that went through. *)
Definition tornDown (now : Z) (url : string) (s : State) : State :=
  mkState [] url (currentPlatform s) false true None (streamingTimeout s)
          (hopperDeepSeekInterval s) (hopperQwenInterval s)
          [mkTimer (nextTimerId s) (now + 1000) CbReset None]
          (S (nextTimerId s)) (log s ++ [EvUpdateUI now 0]).

Definition deepseek : Platform := mkPlatform "DeepSeek" true false (Some 500) None.


(** [s'] has the polls of [s] or fewer, and the same platform and poll ids. *)
Definition pollFrame (s s' : State) : Prop :=
  currentPlatform s' = currentPlatform s
  ∧ hopperDeepSeekInterval s' = hopperDeepSeekInterval s
  ∧ hopperQwenInterval s' = hopperQwenInterval s
  ∧ sublist (pollTimers s') (pollTimers s).


(** [s'] is in the reset [s] is in, at the same URL, and has no reset
    callback pending that [s] has not. *)
Definition resetFrame (s s' : State) : Prop :=
  isResetting s' = isResetting s
  ∧ currentUrl s' = currentUrl s
  ∧ currentPlatform s' = currentPlatform s
  ∧ ∀ t, t ∈ timers s' → callback t = CbReset → t ∈ timers s.

(** The chain page without the sidebar. *)
Definition bareDoc : Document :=
  mkDocument (parentElement chainDoc) (isConnected chainDoc)
             (compareDocumentPosition chainDoc) (offsetTop chainDoc)
             (textContent chainDoc) (getElementById chainDoc) (querySelector chainDoc)
             (querySelectorAll chainDoc) (closest chainDoc) false.

(** The navigation of [navigation] on a page whose sidebar is gone. *)
Definition navigationWithoutSidebar : World :=
  fun t => hostWith bareDoc (Ok [newChatMessage]) false
                    (if t <? 2000 then "/chat/1" else if t <? 5000 then "/chat/2" else "/chat/3").


(** What a state stuck in a reset keeps for ever. *)
Definition stuckAt (url : string) (s : State) : Prop :=
  stuckInReset s ∧ currentUrl s = url.

(** A page on which the adapter never finds a message. *)
Definition emptyPage : World := fun _ => hostWith chainDoc (Ok []) false "/chat/1".

(** [n] calls, one second apart, nothing else happening. *)
Definition quietCalls (n : nat) : list Priming.Call :=
  map (fun i => Priming.mkCall (Z.of_nat i * 1000) true []) (seq 0 n).


(** Nothing detected yet and nothing pending. *)
Definition blank (p : Platform) (s : State) : Prop :=
  currentPlatform s = Some p ∧ messages s = [] ∧ timers s = [].


(** An element [findScrollableAncestor] stops at. *)
Definition scrollableHere (bx : Container.Boxes) (platformName : option string) (q : Node)
  : Prop :=
  50 < Container.scrollSpace bx q
  ∧ (Container.hasOverflow bx q = true ∨ platformName = Some "Kimi").

(** The chain page with every box 100px high inside 1000px of content,
    [overflow: auto] on element 2 only. *)
Definition tallBoxes : Container.Boxes :=
  Container.mkBoxes (fun _ => 1000) (fun _ => 100) (fun n => bool_decide (n = 2%nat))
                    (fun _ => None) 0%nat 0%nat (fun _ => None) (fun _ _ => false)
                    (fun n => inject_Z (Z.of_nat n * 40)) (fun _ => 0%Q).


(** The adapter registered under [name], if any, lets the loop pass on. *)
Definition passesOn (registry : gmap string Registry.Adapter) (name : string) : Prop :=
  match registry !! name with
  | Some a => Registry.isActive a = None ∨ Registry.isActive a = Some (Ok false)
  | None => True
  end.


(** The number of cards a rendering shows. *)
Definition cardCount (r : Sidebar.Rendering) : nat :=
  match r with
  | Sidebar.Cards cards => List.length cards
  | _ => 0%nat
  end.


(** The page [d] with the sidebar there or not. *)
Definition withSidebar (b : bool) (d : Document) : Document :=
  mkDocument (parentElement d) (isConnected d) (compareDocumentPosition d) (offsetTop d)
             (textContent d) (getElementById d) (querySelector d) (querySelectorAll d)
             (closest d) b.


(** No two neighbours of the list are equal. *)
Fixpoint noStutter (l : list string) : Prop :=
  match l with
  | a :: (b :: _) as rest => a ≠ b ∧ noStutter rest
  | _ => True
  end.


(** What holds of the search state whatever has been typed. *)
Definition searchInv (st : Search.SearchState) : Prop :=
  noStutter ("" :: Search.rendered st)
  ∧ Search.lastSearchQuery st = List.last (Search.rendered st) ""
  ∧ ∀ due q, Search.searchTimeout st = Some (due, q) →
             q ≠ "" ∧ q ≠ Search.lastSearchQuery st.


(** The target right after a highlight at [t] that found the style [s0]:
    highlighted, both timers pending. *)
Definition highlighted (a : Highlight.Accent) (s0 : Highlight.Style) (t : Z) (i : nat)
  : Highlight.Target :=
  Highlight.mkTarget
    (Highlight.applyHighlight a s0 s0)
    (Some (Highlight.mkCleanup i (S i) s0))
    [Highlight.mkHTimer i (t + 600) (Highlight.FadeOut s0);
     Highlight.mkHTimer (S i) (t + 1700) (Highlight.ResetHighlight s0)]
    (S (S i)).

(** The same once the fade has started. *)
Definition fading (a : Highlight.Accent) (s0 : Highlight.Style) (t : Z) (i : nat)
  : Highlight.Target :=
  Highlight.fadeOut true s0
    (Highlight.mkTarget
       (Highlight.applyHighlight a s0 s0)
       (Some (Highlight.mkCleanup i (S i) s0))
       [Highlight.mkHTimer (S i) (t + 1700) (Highlight.ResetHighlight s0)]
       (S (S i))).

(** The target at rest with style [s0]. *)
Definition atRest (s0 : Highlight.Style) (i : nat) : Highlight.Target :=
  Highlight.mkTarget s0 None [] i.

Definition plainStyle : Highlight.Style :=
  Highlight.mkStyle "" "" "8px" "" "" "" "".

Definition blueAccent : Highlight.Accent :=
  Highlight.mkAccent "rgba(59, 130, 246, 0.28)" "rgba(59, 130, 246, 0.4)"
                     "rgba(59, 130, 246, 0.85)".


(** The order the comparator keeps, in the words of the specification as
    far as the code follows them: by [order] ascending, a message with an
    [order] before one without; between two messages that both lack an
    [order], the one whose element comes first in the document, then (when
    the document gives neither direction) by [offsetTop] ascending, then by
    [timestamp] ascending; by [timestamp] alone when an element is missing. *)
Definition sequenceLe (doc : Document) (a b : Message) : Prop :=
  match order a, order b with
  | Some x, Some y => x <= y
  | Some _, None => True
  | None, Some _ => False
  | None, None =>
      match element a, element b with
      | Some ea, Some eb =>
          let position := compareDocumentPosition doc ea eb in
          Z.land position DOCUMENT_POSITION_FOLLOWING ≠ 0
          ∨ (Z.land position DOCUMENT_POSITION_FOLLOWING = 0
             ∧ Z.land position DOCUMENT_POSITION_PRECEDING = 0
             ∧ (offsetTop doc ea < offsetTop doc eb
                ∨ (offsetTop doc ea = offsetTop doc eb ∧ timestamp a <= timestamp b)))
      | _, _ => timestamp a <= timestamp b
      end
  end.

(** Two messages of an adapter that assigns no [order]: the one found first
    (element 5) lies below the one found later (element 2). *)
Definition unorderedLow : Message :=
  mkMessage "low" None assistant "the answer" "the answer" (Some 5%nat) 100 None.
Definition unorderedHigh : Message :=
  mkMessage "high" None user "the question" "the question" (Some 2%nat) 900 None.


(** * Properties *)

(** Settle a closed decidable proposition by evaluating its decision procedure. *)
Ltac decide_by_compute :=
  match goal with
  | |- ?P => apply (bool_decide_unpack P); vm_compute; exact I
  end.

(** ** Checks of the model on small inputs *)

Example trim_lower : toLowerCase (trim "  Hello World ") = "hello world".
Proof. reflexivity. Qed.

Example split_runs :
  Text.splitWhiteSpace "what  is rocq" = ["what"; "is"; "rocq"]
  ∧ Text.splitWhiteSpace " a" = [""; "a"].
Proof. split; reflexivity. Qed.

Example two_scans :
  let s1 := detectMessages 10 (hostWith chainDoc (Ok [scanA]) false "/chat/1")
                           (initialState kimi "/chat/1") in
  let s2 := detectMessages 20 (hostWith chainDoc (Ok [scanA'; scanB]) false "/chat/1") s1 in
  messages s1 = [scanA] ∧ messages s2 = [scanA; scanB]
  ∧ log s2 = [EvDetect 10; EvUpdateUI 10 1; EvDetect 20; EvUpdateUI 20 2].
Proof. vm_compute. repeat split; reflexivity. Qed.

Example same_text_far_apart :
  nextMessages chainDoc "Kimi" [helloAt0] [helloAt10'] = [helloAt0; helloAt10'].
Proof. vm_compute. reflexivity. Qed.

(** ** Sorting *)

Section SortFacts.

Context {A : Type} (cmp : A -> A -> Z).

Lemma insertBy_Permutation (x : A) (l : list A) : insertBy cmp x l ≡ₚ x :: l.
Proof.
  induction l as [|y l IH]; simpl; [done|].
  destruct (cmp x y <=? 0); [done|].
  rewrite IH. apply Permutation_swap.
Qed.

Lemma sortBy_Permutation (l : list A) : sortBy cmp l ≡ₚ l.
Proof.
  induction l as [|x l IH]; simpl; [done|].
  rewrite insertBy_Permutation. by rewrite IH.
Qed.

Lemma sortBy_elem_of (x : A) (l : list A) : x ∈ sortBy cmp l ↔ x ∈ l.
Proof. by rewrite sortBy_Permutation. Qed.

Lemma sortBy_length (l : list A) : List.length (sortBy cmp l) = List.length l.
Proof. apply Permutation_length, sortBy_Permutation. Qed.

End SortFacts.

(** ** The detection pass on [messages] *)

Lemma detectMessages_messages (now : Z) (h : Host) (s : State) :
  messages (detectMessages now h s) =
  match currentPlatform s with
  | Some p =>
      if hasDetectMessages p then
        match adapterDetectMessages h with
        | Ok newMessages => nextMessages (document h) (name p) (messages s) newMessages
        | Throw _ => messages s
        end
      else messages s
  | None => messages s
  end.
Proof.
  unfold detectMessages, detectMessagesBody, nextMessages, updateUI. simpl.
  destruct (currentPlatform s) as [p|]; [|done].
  destruct (hasDetectMessages p); [|done]. simpl.
  destruct (adapterDetectMessages h) as [c|e]; [|done].
  destruct (0 <? List.length c)%nat; [|done].
  destruct (0 <? List.length _)%nat; [|done].
  by destruct (sidebarInjected (document h)).
Qed.

(** ** Favorites *)




(** ** Stages of the pass *)

Section PassFacts.

Variable doc : Document.

Lemma elem_of_existingIds (ms : list Message) (i : string) :
  i ∈ existingIds ms ↔ i ∈ map id ms.
Proof. unfold existingIds. by rewrite elem_of_list_to_set. Qed.

Lemma elem_of_dropKnownIds (ms cs : list Message) (c : Message) :
  c ∈ dropKnownIds ms cs ↔ c ∈ cs ∧ id c ∉ map id ms.
Proof.
  unfold dropKnownIds. rewrite list_elem_of_filter, elem_of_existingIds. tauto.
Qed.

Lemma max_of_ge (x : Z) (l : list Z) : x <= max_of x l ∧ Forall (fun y => y <= max_of x l) l.
Proof.
  unfold max_of. revert x. induction l as [|y l IH]; intros x; simpl.
  - split; [lia|constructor].
  - destruct (IH (Z.max x y)) as [H1 H2]. split; [lia|].
    constructor; [lia|done].
Qed.

Lemma maxExistingOrder_ge (ms : list Message) (m : Message) :
  m ∈ ms → orderOrMinusOne m <= maxExistingOrder ms.
Proof.
  intros Hin. unfold maxExistingOrder.
  assert (Hin' : orderOrMinusOne m ∈ map orderOrMinusOne ms)
    by (apply list_elem_of_fmap; eauto).
  destruct (map orderOrMinusOne ms) as [|x l]; [by apply elem_of_nil in Hin'|].
  destruct (max_of_ge x l) as [H1 H2].
  apply elem_of_cons in Hin' as [->|Hin']; [done|].
  rewrite Forall_forall in H2. by apply H2.
Qed.

Lemma reassignOrder_lookup (p : string) (ms u : list Message) (i : nat) :
  reassignOrder p ms u !! i =
  (if bool_decide (p = "DeepSeek")
   then set_order (Some (maxExistingOrder ms + 1 + Z.of_nat i)) <$> u !! i
   else u !! i).
Proof.
  unfold reassignOrder. case_bool_decide; [|done].
  by rewrite list_lookup_imap.
Qed.

Lemma reassignOrder_length (p : string) (ms u : list Message) :
  List.length (reassignOrder p ms u) = List.length u.
Proof. unfold reassignOrder. case_bool_decide; [|done]. apply length_imap. Qed.

Lemma reassignOrder_forget_order (p : string) (ms u : list Message) :
  map (set_order None) (reassignOrder p ms u) = map (set_order None) u.
Proof.
  apply list_eq. intros i. rewrite !list_lookup_fmap, reassignOrder_lookup.
  case_bool_decide; [|done]. by destruct (u !! i).
Qed.

Lemma elem_of_reassignOrder (p : string) (ms u : list Message) (x : Message) :
  x ∈ reassignOrder p ms u →
  ∃ i c, u !! i = Some c ∧ c ∈ u
         ∧ x = (if bool_decide (p = "DeepSeek")
                then set_order (Some (maxExistingOrder ms + 1 + Z.of_nat i)) c
                else c).
Proof.
  intros [i Hi]%list_elem_of_lookup. rewrite reassignOrder_lookup in Hi.
  case_bool_decide.
  - destruct (u !! i) as [c|] eqn:Hc; [|done]. simpl in Hi. injection Hi as <-.
    exists i, c. split; [done|]. split; [|done]. by eapply list_elem_of_lookup_2.
  - exists i, x. split; [done|]. split; [|done]. by eapply list_elem_of_lookup_2.
Qed.

Lemma accepted_sublist (p : string) (ms cs : list Message) :
  sublist (acceptedCandidates doc p ms cs) (reassignOrder p ms (dropKnownIds ms cs)).
Proof.
  unfold acceptedCandidates.
  generalize (reassignOrder p ms (dropKnownIds ms cs)). intros l.
  induction l as [|x l IH]; simpl; [constructor|].
  destruct (keepCandidate doc ms x); by constructor.
Qed.

Lemma accepted_id_fresh (p : string) (ms cs : list Message) (a : Message) :
  a ∈ acceptedCandidates doc p ms cs → (id a ∉ map id ms) ∧ ∃ c, c ∈ cs ∧ id c = id a.
Proof.
  intros Ha. eapply elem_of_sublist in Ha; [|apply accepted_sublist].
  apply elem_of_reassignOrder in Ha as (i & c & _ & Hc & ->).
  apply elem_of_dropKnownIds in Hc as [Hc Hid].
  case_bool_decide; simpl; eauto.
Qed.

Lemma nextMessages_Permutation (p : string) (ms cs : list Message) :
  nextMessages doc p ms cs ≡ₚ ms ++ acceptedCandidates doc p ms cs.
Proof.
  unfold nextMessages.
  destruct (0 <? List.length cs)%nat eqn:Hcs.
  - destruct (acceptedCandidates doc p ms cs) as [|a l] eqn:Ha; simpl.
    + by rewrite app_nil_r.
    + apply sortBy_Permutation.
  - apply Nat.ltb_ge in Hcs. destruct cs; simpl in Hcs; [|lia].
    unfold acceptedCandidates, dropKnownIds, reassignOrder.
    rewrite filter_nil. simpl. case_bool_decide; simpl; by rewrite app_nil_r.
Qed.

End PassFacts.

(** ** Adapter failure *)

(** C7. When the adapter's [detectMessages()] raises, the pass catches the
    exception at the call site and logs it: the pass returns normally, and
    apart from the two log entries (pass entered, console error) the state,
    in particular [messages] and the pending timers, is what it was. *)
Theorem detectMessages_adapter_failure
    (now : Z) (d : Document) (e : string) (streaming : bool) (url : string)
    (norm : string -> string) (s : State) :
  let h := mkHost d (Throw e) streaming url norm in
  detectMessages now h s =
    (match currentPlatform s with
     | Some p => if hasDetectMessages p
                 then emit (EvConsoleError now) (emit (EvDetect now) s)
                 else emit (EvDetect now) s
     | None => emit (EvDetect now) s
     end)
  ∧ detectMessagesBody now h (emit (EvDetect now) s) =
    (match currentPlatform s with
     | Some p => if hasDetectMessages p
                 then Raised e (emit (EvDetect now) s)
                 else Done (emit (EvDetect now) s)
     | None => Done (emit (EvDetect now) s)
     end)
  ∧ messages (detectMessages now h s) = messages s
  ∧ timers (detectMessages now h s) = timers s
  ∧ observer (detectMessages now h s) = observer s.
Proof.
  intros h. unfold detectMessages, detectMessagesBody. simpl.
  destruct (currentPlatform s) as [p|]; [|done].
  by destruct (hasDetectMessages p).
Qed.

(** ** Existing messages are left alone *)

(** C3. A pass keeps every message that was in the sequence, field for
    field: the new sequence is the old one plus the accepted candidates, up
    to the order of the elements.  The accepted candidates are taken, in
    sequence, from the renumbered candidates; renumbering touches nothing but
    the [order] of candidates whose id is new, and on DeepSeek the [i]-th of
    them gets [maxExistingOrder + 1 + i], which is above the [order] of every
    existing message. *)
Theorem existing_messages_unchanged (now : Z) (h : Host) (s : State) :
  messages (detectMessages now h s) ≡ₚ messages s ++ passAccepted h s
  ∧ (∀ p cs,
       let fresh := dropKnownIds (messages s) cs in
       let renumbered := reassignOrder p (messages s) fresh in
       sublist (acceptedCandidates (document h) p (messages s) cs) renumbered
       ∧ map (set_order None) renumbered = map (set_order None) fresh
       ∧ Forall (fun c => id c ∉ map id (messages s)) fresh
       ∧ ∀ i, renumbered !! i =
              (if bool_decide (p = "DeepSeek")
               then set_order (Some (maxExistingOrder (messages s) + 1 + Z.of_nat i))
                      <$> fresh !! i
               else fresh !! i)
              ∧ Forall (fun m => orderOrMinusOne m
                                 < maxExistingOrder (messages s) + 1 + Z.of_nat i)
                       (messages s)).
Proof.
  split.
  - rewrite detectMessages_messages. unfold passAccepted.
    destruct (currentPlatform s) as [p|]; [|by rewrite app_nil_r].
    destruct (hasDetectMessages p), (adapterDetectMessages h) as [cs|e];
      try by rewrite app_nil_r.
    apply nextMessages_Permutation.
  - intros p cs fresh renumbered. split; [apply accepted_sublist|].
    split; [apply reassignOrder_forget_order|]. split.
    + apply Forall_forall. intros c Hc. by apply elem_of_dropKnownIds in Hc as [_ ?].
    + intros i. split; [apply reassignOrder_lookup|].
      apply Forall_forall. intros m Hm. apply maxExistingOrder_ge in Hm. lia.
Qed.

(** ** De-duplication *)

Section DedupFacts.

Variable doc : Document.

Lemma climb_found (fuel : nat) (target : Node) (n : Node) (d d' : nat) :
  climb doc fuel target (Some n) d = (d', Some target) →
  ∃ k, d' = (d + k)%nat ∧ ancestor doc k n = Some target.
Proof.
  revert n d. induction fuel as [|fuel IH]; intros n d; simpl.
  - intros [= <- ->]. exists 0%nat. split; [lia|done].
  - case_bool_decide as Heq.
    + intros [= <- _]. subst. exists 0%nat. split; [lia|done].
    + destruct (d <? 5)%nat.
      * destruct (parentElement doc n) as [q|] eqn:Hq.
        -- intros Hc. apply IH in Hc as (k & -> & Hk).
           exists (S k). split; [lia|]. simpl. by rewrite Hq.
        -- destruct fuel; simpl; intros [= _ ?]; done.
      * intros [= <- ->]. exists 0%nat. split; [lia|done].
Qed.

Lemma closeInDom_far (e c : Message) (ee ce : Node) :
  element e = Some ee → element c = Some ce →
  (∀ k, (k <= 3)%nat → ancestor doc k ce ≠ Some ee) →
  closeInDom doc e c = false.
Proof.
  intros He Hc Hfar. unfold closeInDom. rewrite He, Hc.
  destruct (climb doc 6 ee (Some ce) 0) as [d cur] eqn:Hcl.
  apply andb_false_iff.
  destruct (d <? 3)%nat eqn:Hd; [right|by left].
  apply bool_decide_eq_false. intros ->.
  apply climb_found in Hcl as (k & -> & Hk).
  apply Nat.ltb_lt in Hd. apply (Hfar k); [lia|done].
Qed.

Lemma duplicateOf_far (e c : Message) (ee ce : Node) :
  element e = Some ee → element c = Some ce →
  (∀ k, (k <= 3)%nat → ancestor doc k ce ≠ Some ee) →
  (∀ o, order e = Some o → order c ≠ Some o) →
  duplicateOf doc e c = false.
Proof.
  intros He Hc Hfar Hord. unfold duplicateOf.
  destruct (negb _); [done|].
  assert (Hsame : sameElement e c = false).
  { unfold sameElement. rewrite He, Hc. apply bool_decide_eq_false.
    intros ->. by apply (Hfar 0%nat); [lia|]. }
  rewrite Hsame. simpl.
  assert (Hc1 : match order e, order c with
                | Some oe, Some on =>
                    bool_decide (oe = on)
                    && (truthy (normalizedContent e) && truthy (normalizedContent c)
                        && bool_decide (normalizedContent e = normalizedContent c))
                | _, _ => false
                end = false).
  { destruct (order e) as [oe|] eqn:Hoe; [|done].
    destruct (order c) as [oc|] eqn:Hoc; [|done].
    rewrite bool_decide_eq_false_2; [done|].
    intros ->. by apply (Hord oc). }
  rewrite Hc1. rewrite (closeInDom_far e c ee ce) by done.
  destruct (negb _ || negb _); [done|]. apply andb_false_r.
Qed.

Lemma accepted_elem_of (p : string) (ms cs : list Message) (a : Message) :
  a ∈ acceptedCandidates doc p ms cs ↔
  a ∈ reassignOrder p ms (dropKnownIds ms cs) ∧ keepCandidate doc ms a = true.
Proof.
  unfold acceptedCandidates. rewrite !list_elem_of_In, filter_In. tauto.
Qed.

Lemma reassignOrder_ids (p : string) (ms u : list Message) :
  map id (reassignOrder p ms u) = map id u.
Proof.
  apply list_eq. intros i. rewrite !list_lookup_fmap, reassignOrder_lookup.
  case_bool_decide; [|done]. by destruct (u !! i).
Qed.

Lemma nextMessages_NoDup_ids (p : string) (ms cs : list Message) :
  NoDup (map id ms) → NoDup (map id cs) →
  NoDup (map id (nextMessages doc p ms cs)).
Proof.
  intros Hms Hcs. rewrite (nextMessages_Permutation doc p ms cs).
  rewrite map_app. apply NoDup_app. split; [done|]. split.
  - intros x Hx [a [-> Ha]]%list_elem_of_fmap.
    by apply accepted_id_fresh in Ha as [Hfresh _].
  - eapply sublist_NoDup; [|apply (fmap_sublist id), accepted_sublist].
    change (NoDup (map id (reassignOrder p ms (dropKnownIds ms cs)))).
    rewrite reassignOrder_ids.
    eapply sublist_NoDup; [exact Hcs|]. apply (fmap_sublist id).
    unfold dropKnownIds. apply sublist_filter.
Qed.

End DedupFacts.

(** C1 (as the code has it).  (i) A candidate whose id is already in the
    sequence is never appended; when moreover the ids within the sequence and
    within the scan are pairwise distinct, so are the ids after the pass.
    (ii) An existing message whose element is more than three
    [parentElement] hops above the candidate's element (or not above it at
    all) does not make the candidate a duplicate, whatever the role and the
    content, unless both carry the same [order] value; and a candidate with a
    new id that no existing message makes a duplicate is appended (with its
    renumbered [order] on DeepSeek). *)
Theorem dedup_correctness (doc : Document) (p : string) (ms cs : list Message) :
  Forall (fun a => id a ∉ map id ms) (acceptedCandidates doc p ms cs)
  ∧ (NoDup (map id ms) → NoDup (map id cs) → NoDup (map id (nextMessages doc p ms cs)))
  ∧ (∀ e c ee ce,
       element e = Some ee → element c = Some ce →
       (∀ k, (k <= 3)%nat → ancestor doc k ce ≠ Some ee) →
       (∀ o, order e = Some o → order c ≠ Some o) →
       duplicateOf doc e c = false)
  ∧ (∀ a, a ∈ reassignOrder p ms (dropKnownIds ms cs) →
          Forall (fun e => duplicateOf doc e a = false) ms →
          a ∈ nextMessages doc p ms cs).
Proof.
  split; [|split; [|split]].
  - apply Forall_forall. intros a Ha. by apply accepted_id_fresh in Ha as [? _].
  - apply nextMessages_NoDup_ids.
  - apply duplicateOf_far.
  - intros a Ha Hkeep. rewrite nextMessages_Permutation, elem_of_app. right.
    apply accepted_elem_of. split; [done|]. unfold keepCandidate.
    apply forallb_forall. intros e He%list_elem_of_In.
    rewrite Forall_forall in Hkeep. by rewrite Hkeep.
Qed.

Lemma dedup_correctness_witness :
  NoDup (map id [helloAt0]) ∧ NoDup (map id [helloAt10'])
  ∧ NoDup (map id (nextMessages chainDoc "Kimi" [helloAt0] [helloAt10']))
  ∧ duplicateOf chainDoc helloAt0 helloAt10' = false
  ∧ helloAt10' ∈ nextMessages chainDoc "Kimi" [helloAt0] [helloAt10'].
Proof.
  destruct (dedup_correctness chainDoc "Kimi" [helloAt0] [helloAt10'])
    as (_ & Hnodup & Hfar & Happ).
  assert (H1 : NoDup (map id [helloAt0])) by (decide_by_compute).
  assert (H2 : NoDup (map id [helloAt10'])) by (decide_by_compute).
  assert (H3 : duplicateOf chainDoc helloAt0 helloAt10' = false).
  { apply (Hfar helloAt0 helloAt10' 0%nat 10%nat); [reflexivity|reflexivity| |].
    - intros k Hk. do 4 (destruct k as [|k]; [vm_compute; discriminate|]). lia.
    - intros o [= <-]. vm_compute. discriminate. }
  split; [exact H1|]. split; [exact H2|]. split; [exact (Hnodup H1 H2)|].
  split; [exact H3|].
  apply Happ.
  - decide_by_compute.
  - constructor; [exact H3|constructor].
Defined.

(** C1 as stated fails in both parts.  With the same [order] value, a
    candidate that has a new id, the same role and the same text as an
    existing message, ten hops away from it, is dropped; and two candidates
    of one scan that share an id are both appended. *)
Lemma dedup_counterexample :
  ((id helloAt10 ∉ map id [helloAt0])
   ∧ role helloAt10 = role helloAt0
   ∧ fullContent helloAt10 = fullContent helloAt0
   ∧ content helloAt10 = content helloAt0
   ∧ (∀ k, (k <= 3)%nat → ancestor chainDoc k 10%nat ≠ Some 0%nat)
   ∧ nextMessages chainDoc "Kimi" [helloAt0] [helloAt10] = [helloAt0])
  ∧ nextMessages chainDoc "Gemini" [] [twinA; twinB] = [twinA; twinB]
  ∧ ¬ NoDup (map id (nextMessages chainDoc "Gemini" [] [twinA; twinB])).
Proof.
  split; [|split].
  - split; [decide_by_compute|].
    do 3 (split; [reflexivity|]). split; [|vm_compute; reflexivity].
    intros k Hk. do 4 (destruct k as [|k]; [vm_compute; discriminate|]). lia.
  - vm_compute. reflexivity.
  - decide_by_compute.
Qed.

(** ** Idempotence *)

Section IdempotenceFacts.

Variable doc : Document.

Lemma keepCandidate_false (ms : list Message) (a : Message) :
  keepCandidate doc ms a = false ↔ ∃ e, e ∈ ms ∧ duplicateOf doc e a = true.
Proof.
  unfold keepCandidate. induction ms as [|m ms IH]; simpl.
  - split; [done|]. intros (e & He & _). by apply elem_of_nil in He.
  - rewrite andb_false_iff, IH, negb_false_iff. split.
    + intros [Hd|(e & He & Hd)].
      * exists m. split; [left|done].
      * exists e. split; [by right|done].
    + intros (e & [->|He]%elem_of_cons & Hd); [by left|right; eauto].
Qed.

Lemma duplicateOf_timestamp (e c : Message) (t : Z) :
  duplicateOf doc e (set_timestamp t c) = duplicateOf doc e c.
Proof. reflexivity. Qed.

(** A verdict that does not come from equal [order] values does not depend
    on the candidate's [order]. *)
Lemma duplicateOf_reorder (e c : Message) (k : Z) (o' : option Z) :
  order e ≠ Some k →
  duplicateOf doc e (set_order (Some k) c) = true →
  duplicateOf doc e (set_order o' c) = true.
Proof.
  intros Hk. unfold duplicateOf.
  change (role (set_order (Some k) c)) with (role c).
  change (role (set_order o' c)) with (role c).
  change (normalizedContent (set_order (Some k) c)) with (normalizedContent c).
  change (normalizedContent (set_order o' c)) with (normalizedContent c).
  change (sameElement e (set_order (Some k) c)) with (sameElement e c).
  change (sameElement e (set_order o' c)) with (sameElement e c).
  change (closeInDom doc e (set_order (Some k) c)) with (closeInDom doc e c).
  change (closeInDom doc e (set_order o' c)) with (closeInDom doc e c).
  change (order (set_order (Some k) c)) with (Some k).
  change (order (set_order o' c)) with o'.
  destruct (negb (bool_decide (role e = role c))); [done|].
  assert (Hc1 : match order e with
                | Some oe =>
                    bool_decide (oe = k)
                    && (sameElement e c
                        || truthy (normalizedContent e) && truthy (normalizedContent c)
                           && bool_decide (normalizedContent e = normalizedContent c))
                | None => false
                end = false).
  { destruct (order e) as [oe|]; [|done].
    rewrite bool_decide_eq_false_2; [done|]. congruence. }
  rewrite Hc1. intros Hrest. rewrite Hrest.
  destruct (order e) as [oe|]; [|done]. destruct o' as [on|]; [|done].
  by destruct (bool_decide (oe = on) && _).
Qed.

Lemma nextMessages_ids_mono (p : string) (ms cs : list Message) (i : string) :
  i ∈ map id ms → i ∈ map id (nextMessages doc p ms cs).
Proof.
  intros Hi. rewrite (nextMessages_Permutation doc p ms cs), map_app, elem_of_app.
  by left.
Qed.

Lemma second_scan_accepts_nothing (p : string) (ms cs cs' : list Message) :
  sameScan cs cs' →
  acceptedCandidates doc p (nextMessages doc p ms cs) cs' = [].
Proof.
  intros Hscan. set (ms1 := nextMessages doc p ms cs).
  destruct (acceptedCandidates doc p ms1 cs') as [|x l] eqn:Hacc; [done|exfalso].
  assert (Hx : x ∈ acceptedCandidates doc p ms1 cs') by (rewrite Hacc; left).
  clear Hacc l.
  apply accepted_elem_of in Hx as [Hx Hkeep].
  apply elem_of_reassignOrder in Hx as (j & c2 & _ & Hc2 & ->).
  apply elem_of_dropKnownIds in Hc2 as [Hc2 Hid2].
  apply list_elem_of_lookup in Hc2 as [n Hn].
  destruct (Forall2_lookup_r _ _ _ _ _ Hscan Hn) as (c & Hc & Hcc).
  assert (Hidc : id c = id c2) by (by rewrite Hcc).
  assert (Hfresh : c ∈ dropKnownIds ms cs).
  { apply elem_of_dropKnownIds. split; [by eapply list_elem_of_lookup_2|].
    intros Hin. apply Hid2. rewrite <- Hidc. by apply nextMessages_ids_mono. }
  apply list_elem_of_lookup in Hfresh as [i Hi].
  set (c1 := if bool_decide (p = "DeepSeek")
             then set_order (Some (maxExistingOrder ms + 1 + Z.of_nat i)) c else c).
  assert (Hc1 : c1 ∈ reassignOrder p ms (dropKnownIds ms cs)).
  { apply list_elem_of_lookup. exists i. rewrite reassignOrder_lookup, Hi.
    unfold c1. by case_bool_decide. }
  assert (Hrej : keepCandidate doc ms c1 = false).
  { destruct (keepCandidate doc ms c1) eqn:Hk; [exfalso|done].
    apply Hid2. rewrite <- Hidc.
    replace (id c) with (id c1) by (unfold c1; by case_bool_decide).
    unfold ms1. rewrite (nextMessages_Permutation doc p ms cs), map_app, elem_of_app.
    right. apply list_elem_of_fmap. exists c1. split; [done|].
    by apply accepted_elem_of. }
  apply keepCandidate_false in Hrej as (e & He & Hdup).
  assert (Hkeep' : keepCandidate doc ms1 (if bool_decide (p = "DeepSeek")
                     then set_order (Some (maxExistingOrder ms1 + 1 + Z.of_nat j)) c2
                     else c2) = false); [|congruence].
  apply keepCandidate_false. exists e. split.
  { unfold ms1. rewrite (nextMessages_Permutation doc p ms cs), elem_of_app. by left. }
  rewrite Hcc. unfold c1 in Hdup. case_bool_decide.
  - change (set_order ?o (set_timestamp ?t c)) with (set_timestamp t (set_order o c)).
    rewrite duplicateOf_timestamp.
    eapply duplicateOf_reorder; [|exact Hdup].
    apply maxExistingOrder_ge in He. unfold orderOrMinusOne in He.
    destruct (order e) as [oe|]; [|done]. intros [= ->]. lia.
  - by rewrite duplicateOf_timestamp.
Qed.

Lemma nextMessages_idempotent (p : string) (ms cs cs' : list Message) :
  sameScan cs cs' →
  nextMessages doc p (nextMessages doc p ms cs) cs' = nextMessages doc p ms cs.
Proof.
  intros Hscan. unfold nextMessages at 1.
  rewrite (second_scan_accepts_nothing p ms cs cs' Hscan). simpl.
  by destruct (0 <? List.length cs')%nat.
Qed.

End IdempotenceFacts.

Lemma detectMessages_currentPlatform (now : Z) (h : Host) (s : State) :
  currentPlatform (detectMessages now h s) = currentPlatform s.
Proof.
  unfold detectMessages, detectMessagesBody, updateUI. simpl.
  destruct (currentPlatform s) as [p|] eqn:Hp; [|done].
  destruct (hasDetectMessages p); [|done]. simpl.
  destruct (adapterDetectMessages h) as [c|e]; [|done].
  destruct (0 <? List.length c)%nat; [|done].
  destruct (0 <? List.length _)%nat; [|done].
  by destruct (sidebarInjected (document h)).
Qed.

(** C4. Two passes in a row over an unchanged page: when the second scan
    returns the candidates of the first (only their [Date.now()] may
    differ), the second pass accepts no candidate and leaves the sequence as
    the first pass left it.  The same holds when the adapter raises both
    times. *)
Theorem detection_idempotent (t1 t2 : Z) (h1 h2 : Host) (s : State) :
  document h2 = document h1 →
  match adapterDetectMessages h1, adapterDetectMessages h2 with
  | Ok cs, Ok cs' => sameScan cs cs'
  | Throw _, Throw _ => True
  | _, _ => False
  end →
  passAccepted h2 (detectMessages t1 h1 s) = []
  ∧ messages (detectMessages t2 h2 (detectMessages t1 h1 s))
    = messages (detectMessages t1 h1 s).
Proof.
  intros Hdoc Hscan.
  rewrite (detectMessages_messages t2). unfold passAccepted.
  rewrite detectMessages_currentPlatform, detectMessages_messages, Hdoc.
  destruct (currentPlatform s) as [p|]; [|done].
  destruct (hasDetectMessages p); [|by destruct (adapterDetectMessages h2)].
  destruct (adapterDetectMessages h1) as [cs|e1],
           (adapterDetectMessages h2) as [cs'|e2]; try done.
  split; [by apply second_scan_accepts_nothing|by apply nextMessages_idempotent].
Qed.

Lemma detection_idempotent_witness :
  let s1 := detectMessages 10 (hostWith chainDoc (Ok [helloAt0]) false "/chat/1")
                           (initialState kimi "/chat/1") in
  messages s1 = [helloAt0]
  ∧ messages (detectMessages 20
                (hostWith chainDoc (Ok [set_timestamp 5000 helloAt0]) false "/chat/1") s1)
    = messages s1.
Proof.
  split; [vm_compute; reflexivity|].
  apply detection_idempotent; [reflexivity|].
  simpl. constructor; [reflexivity|constructor].
Defined.

(** The Gemini adapter marks the elements it returns: once [getStableId] has
    answered for an element, it gives the same id on every later call,
    whatever role and fallback hash it is called with. *)
Lemma getStableId_stable (attrs : gmap (Node * string) string) (el : Node)
    (role fallbackHash role' fallbackHash' : string) :
  let '(i, attrs') := Gemini.getStableId attrs (Some el) role fallbackHash in
  Gemini.getStableId attrs' (Some el) role' fallbackHash' = (i, attrs').
Proof.
  unfold Gemini.getStableId, Gemini.getAttribute.
  destruct (truthy (default "" (attrs !! (el, "data-hopper-id")))) eqn:Hex.
  - by rewrite Hex.
  - rewrite lookup_insert_eq. simpl.
    by destruct (truthy (orElse _ _)).
Qed.

(** ** Ordering *)

Section OrderFacts.

Variable doc : Document.

Lemma orderLe_trans (a b c : Message) : orderLe a b → orderLe b c → orderLe a c.
Proof.
  unfold orderLe. destruct (order a), (order b), (order c); try done. lia.
Qed.

Lemma compare_orderLe (a b : Message) :
  (compareMessages doc a b <= 0 → orderLe a b)
  ∧ (0 < compareMessages doc a b → orderLe b a).
Proof.
  unfold compareMessages, orderLe.
  destruct (order a), (order b); split; try done; lia.
Qed.

Lemma compare_equal_order (a b : Message) (k : Z) :
  order a = Some k → order b = Some k → compareMessages doc a b = 0.
Proof. unfold compareMessages. intros -> ->. lia. Qed.

Lemma insertBy_orderLe (x : Message) (l : list Message) :
  StronglySorted orderLe l → StronglySorted orderLe (insertBy (compareMessages doc) x l).
Proof.
  induction 1 as [|y l Hl IH Hy]; simpl.
  - repeat constructor.
  - destruct (compareMessages doc x y <=? 0) eqn:Hc.
    + apply Z.leb_le, compare_orderLe in Hc.
      constructor; [by constructor|].
      constructor; [done|].
      eapply Forall_impl; [exact Hy|]. intros z. by apply orderLe_trans.
    + apply Z.leb_gt, compare_orderLe in Hc.
      constructor; [done|].
      rewrite (insertBy_Permutation (compareMessages doc) x l). by constructor.
Qed.

Lemma sortBy_orderLe (l : list Message) :
  StronglySorted orderLe (sortBy (compareMessages doc) l).
Proof.
  induction l as [|x l IH]; simpl; [constructor|]. by apply insertBy_orderLe.
Qed.

(** Stability on a class of messages that compare equal. *)
Lemma insertBy_stable (k : Z) (x : Message) (l : list Message) :
  filter (fun m => order m = Some k) (insertBy (compareMessages doc) x l)
  = filter (fun m => order m = Some k) (x :: l).
Proof.
  induction l as [|y l IH]; simpl; [done|].
  destruct (compareMessages doc x y <=? 0) eqn:Hc; [done|].
  rewrite filter_cons, IH, !filter_cons.
  destruct (decide (order y = Some k)) as [Hy|Hy],
           (decide (order x = Some k)) as [Hx|Hx]; try done.
  apply Z.leb_gt in Hc. rewrite (compare_equal_order x y k) in Hc by done. lia.
Qed.

Lemma sortBy_stable (k : Z) (l : list Message) :
  filter (fun m => order m = Some k) (sortBy (compareMessages doc) l)
  = filter (fun m => order m = Some k) l.
Proof.
  induction l as [|x l IH]; simpl; [done|].
  by rewrite insertBy_stable, !filter_cons, IH.
Qed.

Lemma compare_antisym (a b : Message) :
  positionsConsistent doc →
  0 < compareMessages doc a b → compareMessages doc b a <= 0.
Proof.
  intros Hdoc. unfold compareMessages.
  destruct (order a), (order b); try lia.
  destruct (element a) as [ea|], (element b) as [eb|]; try lia.
  pose proof (Hdoc ea eb) as Hab. pose proof (Hdoc eb ea) as Hba.
  destruct (Z.eqb_spec (Z.land (compareDocumentPosition doc ea eb)
                               DOCUMENT_POSITION_FOLLOWING) 0) as [Hf|Hf];
    simpl; [|lia].
  destruct (Z.eqb_spec (Z.land (compareDocumentPosition doc ea eb)
                               DOCUMENT_POSITION_PRECEDING) 0) as [Hp|Hp]; simpl.
  - destruct (Z.eqb_spec (Z.land (compareDocumentPosition doc eb ea)
                                 DOCUMENT_POSITION_FOLLOWING) 0) as [Hf'|Hf'];
      simpl; [|lia].
    destruct (Z.eqb_spec (Z.land (compareDocumentPosition doc eb ea)
                                 DOCUMENT_POSITION_PRECEDING) 0) as [Hp'|Hp'];
      simpl; [|by apply Hba in Hp'].
    rewrite (Z.eqb_sym (offsetTop doc eb)).
    destruct (Z.eqb_spec (offsetTop doc ea) (offsetTop doc eb)); simpl; lia.
  - intros _. apply Hab in Hp; [|done].
    destruct (Z.eqb_spec (Z.land (compareDocumentPosition doc eb ea)
                                 DOCUMENT_POSITION_FOLLOWING) 0); simpl; [done|lia].
Qed.

Lemma insertBy_Sorted (x : Message) (l : list Message) :
  positionsConsistent doc →
  Sorted (fun a b => compareMessages doc a b <= 0) l →
  Sorted (fun a b => compareMessages doc a b <= 0) (insertBy (compareMessages doc) x l).
Proof.
  intros Hdoc. induction 1 as [|y l Hl IH Hy]; simpl.
  - repeat constructor.
  - destruct (compareMessages doc x y <=? 0) eqn:Hc.
    + apply Z.leb_le in Hc. constructor; [by constructor|by constructor].
    + apply Z.leb_gt in Hc. constructor; [done|].
      destruct l as [|z l]; simpl.
      * constructor. by apply compare_antisym.
      * destruct (compareMessages doc x z <=? 0).
        -- constructor. by apply compare_antisym.
        -- constructor. by inv Hy.
Qed.

Lemma sortBy_Sorted (l : list Message) :
  positionsConsistent doc →
  Sorted (fun a b => compareMessages doc a b <= 0) (sortBy (compareMessages doc) l).
Proof.
  intros Hdoc. induction l as [|x l IH]; simpl; [constructor|].
  by apply insertBy_Sorted.
Qed.

(** The comparator puts [a] no later than [b] exactly when the two stand in
    the order read off the specification. *)
Lemma compare_sequenceLe (a b : Message) :
  compareMessages doc a b <= 0 ↔ sequenceLe doc a b.
Proof.
  unfold compareMessages, sequenceLe.
  destruct (order a), (order b); try (split; [done|lia]); try lia.
  destruct (element a) as [ea|], (element b) as [eb|]; try lia.
  cbv zeta.
  destruct (Z.eqb_spec (Z.land (compareDocumentPosition doc ea eb)
                               DOCUMENT_POSITION_FOLLOWING) 0) as [Hf|Hf]; simpl.
  - destruct (Z.eqb_spec (Z.land (compareDocumentPosition doc ea eb)
                                 DOCUMENT_POSITION_PRECEDING) 0) as [Hp|Hp]; simpl.
    + destruct (Z.eqb_spec (offsetTop doc ea) (offsetTop doc eb)) as [Ho|Ho]; simpl.
      * split; [intros; right; repeat split; try done; right; split; [done|lia]|].
        intros [H|(_ & _ & [H|[_ H]])]; [done|lia|lia].
      * split; [intros; right; repeat split; try done; left; lia|].
        intros [H|(_ & _ & [H|[H _]])]; [done|lia|done].
    + split; [lia|]. intros [H|(_ & H & _)]; done.
  - split; [by left|lia].
Qed.

(** As soon as one of the two has an [order], the comparator looks at
    nothing but the two [order] fields. *)
Lemma compare_by_order_alone (doc' : Document) (a b a' b' : Message) :
  order a' = order a → order b' = order b →
  is_Some (order a) ∨ is_Some (order b) →
  compareMessages doc' a' b' = compareMessages doc a b.
Proof.
  unfold compareMessages. intros -> ->. intros [[x Hx]|[x Hx]]; rewrite Hx; [done|].
  by destruct (order a).
Qed.

Lemma Sorted_sequenceLe (l : list Message) :
  Sorted (fun a b => compareMessages doc a b <= 0) l → Sorted (sequenceLe doc) l.
Proof.
  induction 1 as [|x l Hl IH Hx]; constructor; [done|].
  destruct Hx; constructor. by apply compare_sequenceLe.
Qed.

End OrderFacts.

Lemma chainDoc_consistent : positionsConsistent chainDoc.
Proof.
  intros a b. unfold chainDoc; simpl.
  destruct (Nat.ltb_spec a b), (Nat.ltb_spec b a); simpl; try done; lia.
Qed.

(** C2 (as the code has it).  A pass that accepts nothing leaves the sequence
    as it is.  A pass that accepts a candidate leaves the sequence sorted by
    [order] ascending, the messages without [order] last; messages with the
    same [order] value compare equal, whatever their elements' document
    positions, and keep the relative position they have in the old sequence
    followed by the accepted candidates.  Between two messages that both
    lack an [order], and only between those, the comparator goes by document
    position (the message whose element comes first in the document first),
    then, when the document gives neither direction, by [offsetTop]
    ascending, then by [timestamp] ascending, and by [timestamp] alone when
    an element is missing; as soon as one of the two has an [order], the
    comparator looks at the two [order] fields and nothing else.  When
    [compareDocumentPosition] answers consistently, every message of the new
    sequence stands in this order to its successor. *)
Theorem sequence_sorted (doc : Document) (p : string) (ms cs : list Message) :
  let accepted := acceptedCandidates doc p ms cs in
  let ms' := nextMessages doc p ms cs in
  (accepted = [] → ms' = ms)
  ∧ (accepted ≠ [] →
     StronglySorted orderLe ms'
     ∧ (∀ k, filter (fun m => order m = Some k) ms'
             = filter (fun m => order m = Some k) (ms ++ accepted)%list)
     ∧ (positionsConsistent doc →
        Sorted (fun a b => compareMessages doc a b <= 0) ms'
        ∧ Sorted (sequenceLe doc) ms'))
  ∧ (∀ a b k, order a = Some k → order b = Some k → compareMessages doc a b = 0)
  ∧ (∀ a b, compareMessages doc a b <= 0 ↔ sequenceLe doc a b)
  ∧ (∀ doc' a b a' b', order a' = order a → order b' = order b →
                       is_Some (order a) ∨ is_Some (order b) →
                       compareMessages doc' a' b' = compareMessages doc a b).
Proof.
  intros accepted ms'. split; [|split; [|split; [|split]]].
  - intros Hacc. unfold ms', nextMessages. fold accepted. rewrite Hacc.
    by destruct (0 <? List.length cs)%nat.
  - intros Hacc.
    assert (Hms' : ms' = sortBy (compareMessages doc) (ms ++ accepted)%list).
    { unfold ms', nextMessages. fold accepted.
      destruct (0 <? List.length cs)%nat eqn:Hcs.
      - destruct accepted; [done|reflexivity].
      - exfalso. apply Hacc. apply Nat.ltb_ge in Hcs.
        destruct cs; simpl in Hcs; [|lia].
        unfold accepted, acceptedCandidates, dropKnownIds, reassignOrder.
        rewrite filter_nil. by case_bool_decide. }
    rewrite Hms'. split; [apply sortBy_orderLe|].
    split; [intros k; apply sortBy_stable|].
    intros Hdoc. split; [by apply sortBy_Sorted|].
    by apply Sorted_sequenceLe, sortBy_Sorted.
  - apply compare_equal_order.
  - apply compare_sequenceLe.
  - intros doc'. apply compare_by_order_alone.
Qed.

Lemma sequence_sorted_witness :
  let ms' := nextMessages chainDoc "ChatGPT" [unorderedLow] [unorderedHigh] in
  ms' = [unorderedHigh; unorderedLow]
  ∧ timestamp unorderedLow < timestamp unorderedHigh
  ∧ StronglySorted orderLe ms'
  ∧ Sorted (sequenceLe chainDoc) ms'
  ∧ nextMessages chainDoc "Kimi" [helloAt0] [helloAt10'] = [helloAt0; helloAt10'].
Proof.
  destruct (sequence_sorted chainDoc "ChatGPT" [unorderedLow] [unorderedHigh])
    as (_ & H & _).
  destruct H as (H1 & _ & H3); [vm_compute; discriminate|].
  split; [vm_compute; reflexivity|]. split; [reflexivity|].
  split; [exact H1|]. split; [exact (proj2 (H3 chainDoc_consistent))|].
  vm_compute. reflexivity.
Defined.

(** C2 as stated fails on a tie.  The host loads an older message above one
    that is already in the sequence, and the scan numbers it 0 as well: it is
    appended behind the message it precedes in the document. *)
Lemma sequence_sorted_counterexample :
  order seenFirst = Some 0 ∧ order loadedLater = Some 0
  ∧ element seenFirst = Some 5%nat ∧ element loadedLater = Some 2%nat
  ∧ Z.land (compareDocumentPosition chainDoc 5%nat 2%nat) DOCUMENT_POSITION_PRECEDING ≠ 0
  ∧ Z.land (compareDocumentPosition chainDoc 2%nat 5%nat) DOCUMENT_POSITION_FOLLOWING ≠ 0
  ∧ nextMessages chainDoc "Kimi" [seenFirst] [loadedLater] = [seenFirst; loadedLater].
Proof.
  do 4 (split; [reflexivity|]).
  split; [vm_compute; discriminate|]. split; [vm_compute; discriminate|].
  vm_compute. reflexivity.
Qed.

(** ** Scheduling *)

Lemma detectTimes_app (l k : list Event) :
  detectTimes (l ++ k) = (detectTimes l ++ detectTimes k)%list.
Proof. apply omap_app. Qed.

Lemma streamingChecks_app (l k : list Event) :
  streamingChecks (l ++ k) = (streamingChecks l ++ streamingChecks k)%list.
Proof. apply omap_app. Qed.

(** A pass touches [messages] and the log, nothing else; it adds itself to
    the passes logged and no streaming check. *)
Lemma detectMessages_frame (now : Z) (h : Host) (s : State) :
  ∃ ms evs,
    detectMessages now h s =
      mkState ms (currentUrl s) (currentPlatform s) (observer s) (isResetting s)
              (observerTimeout s) (streamingTimeout s) (hopperDeepSeekInterval s)
              (hopperQwenInterval s) (timers s) (nextTimerId s)
              (log s ++ EvDetect now :: evs)
    ∧ detectTimes evs = [] ∧ streamingChecks evs = [].
Proof.
  destruct s as [ms url pf ob rs ot st di qi tm nx lg].
  unfold detectMessages, detectMessagesBody, updateUI, emit, set_log, set_messages. simpl.
  destruct pf as [p|]; [|by exists ms, []].
  destruct (hasDetectMessages p); [|by exists ms, []]. simpl.
  destruct (adapterDetectMessages h) as [c|e].
  - destruct (0 <? List.length c)%nat; [|by exists ms, []].
    destruct (0 <? List.length _)%nat; [|by exists ms, []].
    destruct (sidebarInjected (document h)); simpl; rewrite <- app_assoc; simpl.
    + eexists _, [_]. split; [reflexivity|done].
    + eexists _, [_]. split; [reflexivity|done].
  - simpl. rewrite <- app_assoc. simpl. eexists _, [_]. split; [reflexivity|done].
Qed.

Lemma runUntil_step (w : World) (limit : Z) (fuel : nat) (s : State) (t : Timer) :
  nextTimer (timers s) = Some t → due t < limit →
  runUntil w limit (S fuel) s
  = runUntil w limit fuel (fire (callback t) (due t) (w (due t)) (consume t s)).
Proof. intros Ht Hdue. simpl. rewrite Ht. by apply Z.ltb_lt in Hdue as ->. Qed.

Lemma runUntil_idle (w : World) (limit : Z) (fuel : nat) (s : State) :
  timers s = [] → runUntil w limit fuel s = s.
Proof. intros Ht. destruct fuel; simpl; [done|]. by rewrite Ht. Qed.

(** Cancelling the timer whose id the script holds empties a queue that
    holds nothing else. *)
Lemma tracked_timers_removed (i : nat) (tm : list Timer) :
  (∀ t, t ∈ tm → i = tid t) →
  List.filter (fun t => negb (bool_decide (tid t = i))) tm = [].
Proof.
  induction tm as [|t tm IH]; simpl; [done|]. intros Hall.
  rewrite (bool_decide_eq_true_2 (tid t = i)) by (symmetry; apply Hall; left).
  simpl. apply IH. intros x Hx. apply Hall. by right.
Qed.

(** C5 (as the code has it).  On a platform other than DeepSeek and Qwen
    (which keep a fallback poll running), with the observer connected, an
    empty sequence and nothing pending but a debounce timer: a mutation
    batch whose debounced callback finds the adapter streaming waits the
    streaming-wait time and asks once more.  If the adapter has stopped
    streaming, one pass runs at once; otherwise the callback waits the
    streaming-wait time a second time and then runs one pass without asking
    again.  So [isStreaming()] is called exactly twice and exactly one pass
    runs, no earlier than the second check, and nothing is left pending. *)
Theorem streaming_backoff (w : World) (p : Platform) (s : State) (mu : Mutations)
    (t0 limit : Z) (fuel : nat) :
  let debounceTime := default 300 (getDebounceTime p) in
  let streamingWaitTime := default 2000 (getStreamingWaitTime p) in
  let t1 := t0 + debounceTime in
  let t2 := t1 + streamingWaitTime in
  let t3 := t2 + streamingWaitTime in
  currentPlatform s = Some p → observer s = true →
  messages s = [] → (∀ x, x ∈ timers s → observerTimeout s = Some (tid x)) →
  hasIsStreaming p = true →
  isDeepSeek p = false → isQwen p = false →
  0 <= streamingWaitTime → t3 < limit → (3 <= fuel)%nat →
  adapterIsStreaming (w t1) = true →
  let s' := runUntil w limit fuel (onMutations t0 mu s) in
  streamingChecks (log s')
  = (streamingChecks (log s) ++ [(t1, true); (t2, adapterIsStreaming (w t2))])%list
  ∧ detectTimes (log s')
    = (detectTimes (log s) ++ [if adapterIsStreaming (w t2) then t3 else t2])%list
  ∧ timers s' = [].
Proof.
  intros d wt t1 t2 t3 Hp Hob Hms Htm Hstr Hds Hqw Hwt Hlim Hfuel Hs1.
  destruct s as [ms url pf ob rs ot st di qi tm nx lg]. simpl in *. subst.
  destruct fuel as [|[|[|fuel]]]; try lia. clear Hfuel.
  assert (Hon : onMutations t0 mu
                  (mkState [] url (Some p) true rs ot st di qi tm nx lg)
               = mkState [] url (Some p) true rs (Some nx) st di qi
                         [mkTimer nx t1 CbDebounce None] (S nx) lg).
  { unfold onMutations. destruct ot as [i|]; simpl.
    - rewrite (tracked_timers_removed i tm)
        by (intros t Ht; by injection (Htm t Ht)).
      rewrite Hds, Hqw, !andb_false_r. simpl. by destruct st.
    - assert (Hnil : tm = []).
      { destruct tm as [|t tm']; [done|]. by specialize (Htm t (list_elem_of_here _ _)). }
      subst tm. rewrite Hds, Hqw, !andb_false_r. simpl. by destruct st. }
  rewrite Hon. clear Hon.
  rewrite (runUntil_step w limit _ _ (mkTimer nx t1 CbDebounce None));
    [|reflexivity|simpl; lia].
  match goal with |- context [fire ?a ?b ?c ?d] =>
    replace (fire a b c d)
      with (mkState [] url (Some p) true rs (Some nx) (Some (S nx)) di qi
                    [mkTimer (S nx) t2 (CbStreamingRecheck wt) None] (S (S nx))
                    (lg ++ [EvStreamingCheck t1 true]))
  end.
  2: { simpl. rewrite Hstr. simpl. rewrite Hs1. fold wt. simpl.
       by rewrite bool_decide_eq_true_2. }
  rewrite (runUntil_step w limit _ _ (mkTimer (S nx) t2 (CbStreamingRecheck wt) None));
    [|reflexivity|simpl; lia].
  destruct (adapterIsStreaming (w t2)) eqn:Hs2.
  - match goal with |- context [fire ?a ?b ?c ?d] =>
      replace (fire a b c d)
        with (mkState [] url (Some p) true rs (Some nx) (Some (S (S nx))) di qi
                      [mkTimer (S (S nx)) t3 CbForcedDetect None] (S (S (S nx)))
                      ((lg ++ [EvStreamingCheck t1 true]) ++ [EvStreamingCheck t2 true]))
    end.
    2: { simpl. rewrite Hstr. simpl. rewrite Hs2. simpl.
         by rewrite bool_decide_eq_true_2. }
    rewrite (runUntil_step w limit _ _ (mkTimer (S (S nx)) t3 CbForcedDetect None));
      [|reflexivity|simpl; lia].
    match goal with |- context [fire ?a ?b ?c ?d] =>
      change (fire a b c d) with (detectMessages t3 (w t3) d);
      destruct (detectMessages_frame t3 (w t3) d) as (ms' & evs & -> & Hd & Hc)
    end.
    rewrite runUntil_idle by (simpl; by rewrite bool_decide_eq_true_2).
    simpl. rewrite !streamingChecks_app, !detectTimes_app. simpl. rewrite Hd, Hc.
    split; [by rewrite <- !app_assoc, !app_nil_r|].
    split; [by rewrite !app_nil_r|]. by rewrite bool_decide_eq_true_2.
  - match goal with |- context [fire ?a ?b ?c ?d] =>
      replace (fire a b c d)
        with (detectMessages t2 (w t2)
                (emit (EvStreamingCheck t2 false) d))
    end.
    2: { simpl. rewrite Hstr. simpl. by rewrite Hs2. }
    match goal with |- context [detectMessages t2 (w t2) ?d] =>
      destruct (detectMessages_frame t2 (w t2) d) as (ms' & evs & -> & Hd & Hc)
    end.
    rewrite runUntil_idle by (simpl; by rewrite bool_decide_eq_true_2).
    simpl. rewrite !streamingChecks_app, !detectTimes_app. simpl. rewrite Hd, Hc.
    split; [by rewrite <- !app_assoc, !app_nil_r|].
    split; [by rewrite !app_nil_r|]. by rewrite bool_decide_eq_true_2.
Qed.


Lemma streaming_backoff_witness :
  let w := streamingUntil 6000 [helloAt0] in
  let s := observeDOM 0 (initialState kimi "/chat/1") in
  let s' := runUntil w 100000 10 (onMutations 0 childListChange s) in
  streamingChecks (log s') = [(800, true); (2800, true)]
  ∧ detectTimes (log s') = [4800]
  ∧ timers s' = [].
Proof.
  intros w s s'.
  apply (streaming_backoff w kimi s childListChange 0 100000 10);
    try reflexivity; try (simpl; lia).
  intros x Hx. by apply elem_of_nil in Hx.
Defined.

(** C5 as stated fails.  The adapter streams at the instants 800, 2800 and
    4800 at which a re-checking loop would ask, and has stopped at 6800.  The
    script asks twice only and runs its pass at 4800, while the adapter is
    still streaming; no pass runs at or after the end of streaming, and none
    is pending. *)
Lemma streaming_backoff_counterexample :
  let w := streamingUntil 6000 [helloAt0] in
  let s' := runUntil w 100000 10
              (onMutations 0 childListChange (observeDOM 0 (initialState kimi "/chat/1"))) in
  messages (observeDOM 0 (initialState kimi "/chat/1")) = []
  ∧ adapterIsStreaming (w 800) = true
  ∧ adapterIsStreaming (w 2800) = true
  ∧ adapterIsStreaming (w 4800) = true
  ∧ adapterIsStreaming (w 6800) = false
  ∧ streamingChecks (log s') = [(800, true); (2800, true)]
  ∧ detectTimes (log s') = [4800]
  ∧ timers s' = [].
Proof. vm_compute. repeat split; reflexivity. Qed.

(** ** Context teardown *)

(** The teardown empties the sequence, disconnects the observer and cancels
    the debounce timer. *)
Lemma checkUrlChange_teardown (now : Z) (h : Host) (s : State) (p : Platform) :
  currentPlatform s = Some p → isResetting s = false →
  normalizeUrl h (currentUrl s) ≠ normalizeUrl h (href h) →
  let s' := checkUrlChange now h s in
  messages s' = [] ∧ observer s' = false ∧ observerTimeout s' = None.
Proof.
  intros Hp Hr Hurl. unfold checkUrlChange. rewrite Hp, Hr.
  rewrite bool_decide_eq_false_2 by done. simpl.
  destruct s as [ms url pf ob rs ot st di qi tm nx lg]. simpl in *.
  unfold updateUI. simpl.
  by destruct ob, ot as [i|], (sidebarInjected (document h)).
Qed.

(** Every other pending timer survives the teardown: the streaming timers,
    the Qwen follow-ups and the fallback polls stay in the queue. *)
Lemma checkUrlChange_keeps_timers (now : Z) (h : Host) (s : State) (t : Timer) :
  t ∈ timers s → Some (tid t) ≠ observerTimeout s →
  t ∈ timers (checkUrlChange now h s).
Proof.
  intros Ht Hne. unfold checkUrlChange.
  destruct (currentPlatform s) as [p|]; [|done].
  destruct (negb _ && negb _); [|done].
  destruct s as [ms url pf ob rs ot st di qi tm nx lg]. simpl in *.
  unfold updateUI. simpl.
  assert (Hfilter : ∀ i, Some (tid t) ≠ Some i →
                         t ∈ List.filter (fun t => negb (bool_decide (tid t = i))) tm).
  { intros i Hi. apply list_elem_of_In, filter_In. split; [by apply list_elem_of_In|].
    rewrite bool_decide_eq_false_2; [done|]. congruence. }
  destruct ob, ot as [i|], (sidebarInjected (document h)); simpl;
    rewrite ?elem_of_app; auto.
Qed.

(** C6 fails on the code.  A confirmatory re-scan scheduled in conversation 1
    (at 900, for 2900) is still pending when the URL poll tears the context
    down at 2000.  The teardown empties the sequence but leaves that timer in
    the queue; it fires at 2900, before the new context's first pass at 3000
    and while [isResetting] is still set, and puts a message of the old
    conversation into the sequence, where it stays next to the new one. *)
Theorem teardown_stale_timer_fires :
  let torn := simulate navigation 50 navigationInputs
                       (observeDOM 0 (initialState kimi "/chat/1")) in
  let before := runUntil navigation 3000 50 torn in
  let after := runUntil navigation 100000 50 torn in
  messages torn = [] ∧ currentUrl torn = "/chat/2" ∧ isResetting torn = true
  ∧ map callback (timers torn) = [CbConfirm; CbReset]
  ∧ map due (timers torn) = [2900; 3000]
  ∧ detectTimes (log before) = [900; 2900]
  ∧ isResetting before = true
  ∧ messages before = [oldChatMessage]
  ∧ detectTimes (log after) = [900; 2900; 3000]
  ∧ messages after = [oldChatMessage; newChatMessage].
Proof. vm_compute. repeat split; reflexivity. Qed.

(** ** Scroll resolution *)

Section ScrollFacts.

Variable doc : Document.
Variable platformName : option string.







End ScrollFacts.


Lemma rerenderedDoc_parses (mid : string) : selectorsParse rerenderedDoc mid.
Proof.
  intros sel _. unfold rerenderedDoc; simpl. destruct (bool_decide _); eauto.
Qed.







(** ** Scroll animation *)

Lemma easeOutQuart_ends : (easeOutQuart 0 == 0)%Q ∧ (easeOutQuart 1 == 1)%Q.
Proof. split; reflexivity. Qed.

(** The first attempt lasts between 320ms and 900ms, a retry 300ms. *)
Lemma animationDuration_bounds (attempt : nat) (absDelta : Q) :
  (0 <= absDelta)%Q →
  if (attempt =? 0)%nat
  then (320 <= animationDuration attempt absDelta)%Q
       ∧ (animationDuration attempt absDelta <= 900)%Q
       ∧ (animationDuration attempt absDelta == 320 + Qmin (absDelta * (4 # 10)) 580)%Q
  else animationDuration attempt absDelta = 300%Q.
Proof.
  intros Hd. unfold animationDuration, baseDuration.
  destruct (attempt =? 0)%nat; [|done].
  assert (H0 : (0 <= absDelta * (4 # 10))%Q) by (apply Qmult_le_0_compat; [done|by compute]).
  assert (H1 : (0 <= Qmin (absDelta * (4 # 10)) 580)%Q)
    by (apply Q.min_glb; [done|by compute]).
  assert (H2 : (Qmin (absDelta * (4 # 10)) 580 <= 580)%Q) by apply Q.le_min_r.
  clear H0. revert H1 H2. generalize (Qmin (absDelta * (4 # 10)) 580). intros m Hlo Hhi.
  split; [lra|]. split; [lra|reflexivity].
Qed.

(** Attempts are numbered 0, 1 and 2: a call runs at most three animations,
    and three units of fuel follow every chain of retries to its end. *)
Lemma smoothScrollToTarget_attempts (layoutAt : nat -> Layout) (fuel : nat) :
  (List.length (smoothScrollToTarget layoutAt fuel 0) <= 3)%nat
  ∧ smoothScrollToTarget layoutAt (3 + fuel) 0 = smoothScrollToTarget layoutAt 3 0.
Proof.
  split.
  - destruct fuel as [|[|[|fuel]]]; simpl; unfold maxAttempts;
      repeat (match goal with |- context [if ?b then _ else _] => destruct b end;
              simpl); lia.
  - simpl. unfold maxAttempts. simpl.
    repeat (match goal with |- context [if ?b then _ else _] => destruct b end;
            simpl; try reflexivity).
Qed.

(** The curve runs from 0 to 1 and stays above the linear one: the scroll
    starts fast and slows down. *)
Lemma easeOutQuart_above_linear (t : Q) :
  (0 <= t)%Q → (t <= 1)%Q → (t <= easeOutQuart t)%Q ∧ (easeOutQuart t <= 1)%Q.
Proof.
  intros H0 H1. unfold easeOutQuart.
  assert (Hu : (0 <= 1 - t)%Q) by lra.
  assert (Hu1 : (1 - t <= 1)%Q) by lra.
  assert (Ht : (t == 1 - (1 - t))%Q) by lra.
  revert Hu Hu1 Ht. generalize (1 - t)%Q. intros u Hu Hu1 Ht.
  assert (H2 : (0 <= u * u)%Q) by nra.
  assert (H3 : (u * u <= u)%Q) by nra.
  assert (H4 : (u * u * (u * u) <= u * u)%Q) by nra.
  assert (H5 : (0 <= u * u * (u * u))%Q) by nra.
  assert (Hp : (u ^ 4 == u * u * (u * u))%Q) by (simpl; ring).
  split; lra.
Qed.

Lemma Qltb_lt (a b : Q) : Qltb a b = true ↔ (a < b)%Q.
Proof.
  unfold Qltb. rewrite negb_true_iff. split.
  - intros Hle. apply Qnot_le_lt. intros Hba. apply Qle_bool_iff in Hba. congruence.
  - intros Hlt. destruct (Qle_bool b a) eqn:Hle; [|done].
    apply Qle_bool_iff in Hle. exfalso. by apply (Qlt_not_le a b).
Qed.

(** C9 (as the code has it).  The frames follow the ease-out quartic curve
    and the last one lands on the desired offset.  The first attempt lasts
    320ms plus 0.4ms per pixel of distance, that extra being capped at 580ms;
    an attempt that finds less than 1px to scroll does nothing.  After an
    animation whose target is not within 90px of the viewport's vertical
    centre the scroll is tried again, in 300ms, and this up to twice:
    attempts 0, 1 and 2 may all run. *)
Theorem smooth_scroll_animation (layoutAt : nat -> Layout) (fuel : nat) :
  let absDelta n := Qabs (scrollDelta (layoutAt n)) in
  let offTarget n := negb (isTargetCentered (layoutAt n)) in
  smoothScrollToTarget layoutAt (3 + fuel) 0
  = (if Qltb (absDelta 0%nat) 1 then []
     else (0%nat, (320 + Qmin (absDelta 0%nat * (4 # 10)) 580)%Q)
          :: if offTarget 0%nat
             then if Qltb (absDelta 1%nat) 1 then []
                  else (1%nat, 300%Q)
                       :: if offTarget 1%nat
                          then if Qltb (absDelta 2%nat) 1 then [] else [(2%nat, 300%Q)]
                          else []
             else [])
  ∧ (320 <= 320 + Qmin (absDelta 0%nat * (4 # 10)) 580)%Q
  ∧ (320 + Qmin (absDelta 0%nat * (4 # 10)) 580 <= 900)%Q
  ∧ (∀ start delta duration elapsed,
       (0 < duration)%Q → (duration <= elapsed)%Q →
       (frameOffset start delta duration elapsed == start + delta)%Q)
  ∧ (∀ start delta duration elapsed,
       (frameOffset start delta duration elapsed
        == start + delta * (1 - (1 - Qmin 1 (elapsed / duration)) ^ 4))%Q)
  ∧ (∀ l, isTargetCentered l = true ↔
          (Qabs (rectTop l + Qmin (rectHeight l) 140 / 2 - innerHeight l / 2) < 90)%Q).
Proof.
  intros absDelta offTarget. split; [|split; [|split; [|split; [|split]]]].
  - unfold absDelta, offTarget. simpl. unfold maxAttempts, animationDuration, baseDuration.
    simpl.
    repeat (match goal with |- context [if ?b then _ else _] => destruct b end;
            simpl; try reflexivity).
  - pose proof (animationDuration_bounds 0 (absDelta 0%nat) (Qabs_nonneg _)) as H.
    simpl in H. unfold animationDuration, baseDuration in H. simpl in H. tauto.
  - pose proof (animationDuration_bounds 0 (absDelta 0%nat) (Qabs_nonneg _)) as H.
    simpl in H. unfold animationDuration, baseDuration in H. simpl in H. tauto.
  - intros start delta duration elapsed Hpos Hle. unfold frameOffset, easeOutQuart.
    assert (Hone : (1 <= elapsed / duration)%Q).
    { apply Qle_shift_div_l; [done|]. lra. }
    rewrite (Q.min_l _ _ Hone). simpl. ring.
  - intros. reflexivity.
  - intros l. unfold isTargetCentered. apply Qltb_lt.
Qed.

Lemma smooth_scroll_animation_witness :
  map fst (smoothScrollToTarget shiftingLayout 3 0) = [0%nat; 1%nat; 2%nat]
  ∧ (frameOffset 100 1000 720 720 == 1100)%Q
  ∧ isTargetCentered (shiftingLayout 0) = false.
Proof.
  destruct (smooth_scroll_animation shiftingLayout 0) as (Hrun & _ & _ & Hend & _ & Hc).
  split; [|split].
  - change (3 + 0)%nat with 3%nat in Hrun. rewrite Hrun. reflexivity.
  - rewrite (Hend 100 1000 720 720)%Q; [reflexivity|reflexivity|].
    apply Qle_refl.
  - destruct (isTargetCentered (shiftingLayout 0)) eqn:Hcentered; [|reflexivity].
    apply Hc in Hcentered. vm_compute in Hcentered. discriminate.
Defined.

(** C9 as stated fails in its last part.  The guard [attempt < maxAttempts]
    with [maxAttempts = 2] lets attempts 0, 1 and 2 run: on a page that keeps
    shifting, the first animation (720ms for 1000px) is followed by two
    retries of 300ms each, not by a single one. *)
Lemma smooth_scroll_counterexample :
  isTargetCentered (shiftingLayout 0) = false
  ∧ Forall2 sameAnimation (smoothScrollToTarget shiftingLayout 3 0)
            [(0%nat, 720%Q); (1%nat, 300%Q); (2%nat, 300%Q)]
  ∧ map fst (smoothScrollToTarget shiftingLayout 3 0) = [0%nat; 1%nat; 2%nat]
  ∧ maxAttempts = 2%nat.
Proof.
  split; [reflexivity|]. split; [|split; reflexivity].
  repeat constructor; simpl; reflexivity.
Qed.

(** * Further properties of the adapters and of the router *)

(** ** Text helpers *)

Lemma string_app_inv_head (p a b : string) : p ++ a = p ++ b → a = b.
Proof. induction p as [|c p IH]; simpl; [done|]. intros [= H]. by apply IH. Qed.

Lemma pretty_N_go_noDash (x : N) (s : string) :
  noDash s = true → noDash (pretty_N_go x s) = true.
Proof.
  revert s. induction (N.lt_wf_0 x) as [x _ IH]; intros s Hs.
  destruct (decide (0 < x)%N) as [Hx|Hx].
  - rewrite pretty_N_go_step by done. apply IH.
    + apply N.div_lt; lia.
    + simpl. rewrite Hs, andb_true_r. apply negb_true_iff, bool_decide_eq_false.
      unfold pretty_N_char. by repeat case_match.
  - assert (x = 0%N) as -> by lia. by rewrite pretty_N_go_0.
Qed.

Lemma pretty_nat_noDash (n : nat) : noDash (pretty n) = true.
Proof.
  unfold pretty, pretty_nat, pretty, pretty_N.
  case_decide; [done|]. by apply pretty_N_go_noDash.
Qed.

(** Two texts that agree up to and including their first dash agree on what
    precedes it. *)
Lemma dash_split (a b r1 r2 : string) :
  noDash a = true → noDash b = true →
  a ++ "-" ++ r1 = b ++ "-" ++ r2 → a = b.
Proof.
  revert b. induction a as [|c a IH]; intros [|d b]; simpl; try done.
  - intros _ [Hd _]%andb_true_iff [= <- _].
    by rewrite bool_decide_eq_true_2 in Hd.
  - intros [Hc _]%andb_true_iff _ [= -> _].
    by rewrite bool_decide_eq_true_2 in Hc.
  - intros [_ Ha]%andb_true_iff [_ Hb]%andb_true_iff [= -> H].
    f_equal. by apply IH.
Qed.

Lemma indexedId_index (platform : string) (r1 r2 : Role) (i1 i2 : nat) (h1 h2 : string) :
  indexedId platform r1 i1 h1 = indexedId platform r2 i2 h2 → i1 = i2.
Proof.
  unfold indexedId. intros H.
  apply (string_app_inv_head "msg-") in H.
  apply string_app_inv_head in H.
  apply (string_app_inv_head "-") in H.
  assert (Hr : r1 = r2) by (destruct r1, r2; cbv in H; first [done|discriminate H]).
  subst r2. apply string_app_inv_head in H.
  apply (string_app_inv_head "-") in H.
  apply (inj pretty).
  eapply dash_split; [apply pretty_nat_noDash..|exact H].
Qed.

(** ** Scans that number their items (Kimi, Grok) *)

Lemma indexedFrom_weaken (platform : string) (lo lo' : nat) (out : list Message) :
  (lo' <= lo)%nat → indexedFrom platform lo out → indexedFrom platform lo' out.
Proof.
  intros Hle H. destruct H as [|lo i r h m out Hi Hid Hout]; [constructor|].
  econstructor; [|exact Hid|exact Hout]. lia.
Qed.

Lemma indexedFrom_elem_of (platform : string) (lo : nat) (out : list Message) (m : Message) :
  indexedFrom platform lo out → m ∈ out →
  ∃ i r h, (lo <= i)%nat ∧ id m = indexedId platform r i h.
Proof.
  induction 1 as [|lo i r h m' out Hi Hid Hout IH]; intros Hm.
  - by apply elem_of_nil in Hm.
  - apply elem_of_cons in Hm as [->|Hm]; [by eauto|].
    destruct (IH Hm) as (j & r' & h' & Hj & Hidj). exists j, r', h'. split; [lia|done].
Qed.

Lemma indexedFrom_NoDup (platform : string) (lo : nat) (out : list Message) :
  indexedFrom platform lo out → NoDup (map id out).
Proof.
  induction 1 as [|lo i r h m out Hi Hid Hout IH]; simpl; constructor; [|done].
  intros [m' [Heq Hm']]%list_elem_of_fmap.
  destruct (indexedFrom_elem_of _ _ _ _ Hout Hm') as (j & r' & h' & Hj & Hidj).
  rewrite Hid, Hidj in Heq. apply indexedId_index in Heq. lia.
Qed.

Lemma kimi_scanFrom_indexed (doc : Document) (now : Z) (index k : nat)
    (items : list Kimi.Item) :
  indexedFrom "kimi" index (Kimi.scanFrom doc now index k items).
Proof.
  revert index k. induction items as [|it items IH]; intros index k; simpl; [constructor|].
  destruct (Kimi.itemMessage doc now index k it) as [m|] eqn:Hm.
  - unfold Kimi.itemMessage in Hm.
    destruct (Kimi.itemRole it) as [r|]; [|done].
    destruct (negb _); [done|].
    destruct (Kimi.scrollElement doc index it); [|done].
    injection Hm as <-. econstructor; [reflexivity|reflexivity|apply IH].
  - eapply indexedFrom_weaken; [|apply IH]. lia.
Qed.

Lemma grok_scanFrom_indexed (now : Z) (index k : nat) (nodes : list Grok.MsgNode) :
  indexedFrom "grok" index (Grok.scanFrom now index k nodes).
Proof.
  revert index k. induction nodes as [|n nodes IH]; intros index k; simpl; [constructor|].
  destruct (Grok.nodeMessage now index k n) as [m|] eqn:Hm.
  - unfold Grok.nodeMessage in Hm.
    destruct (Grok.bubble n) as [b|]; [|done].
    destruct (negb _); [done|].
    injection Hm as <-. econstructor; [reflexivity|reflexivity|apply IH].
  - eapply indexedFrom_weaken; [|apply IH]. lia.
Qed.

(** X1. The Kimi and the Grok adapter never return two candidates with the
    same id in one scan: the item index is part of the id. *)
Theorem scan_ids_distinct (doc : Document) (now : Z)
    (items : list Kimi.Item) (nodes : list Grok.MsgNode) :
  NoDup (map id (Kimi.detectMessages doc now items))
  ∧ NoDup (map id (Grok.detectMessages now nodes)).
Proof.
  split.
  - eapply indexedFrom_NoDup, kimi_scanFrom_indexed.
  - eapply indexedFrom_NoDup, grok_scanFrom_indexed.
Qed.

Lemma afterScans_NoDup (doc : Document) (p : string) (scans : list (list Message)) :
  Forall (fun cs => NoDup (map id cs)) scans →
  NoDup (map id (afterScans doc p scans)).
Proof.
  unfold afterScans. intros Hscans.
  assert (Hgen : ∀ ms, NoDup (map id ms) →
                       NoDup (map id (foldl (nextMessages doc p) ms scans))).
  { induction Hscans as [|cs scans Hcs _ IH]; intros ms Hms; simpl; [done|].
    apply IH. by apply nextMessages_NoDup_ids. }
  apply Hgen. constructor.
Qed.

(** X2. On Kimi and on Grok the message sequence never holds two messages
    with the same id, whatever the pages scanned and however many passes
    run. *)
Theorem sequence_ids_unique (doc : Document)
    (kimiPages : list (Document * Z * list Kimi.Item))
    (grokPages : list (Z * list Grok.MsgNode)) :
  NoDup (map id (afterScans doc "Kimi"
                   (map (fun '(d, now, items) => Kimi.detectMessages d now items) kimiPages)))
  ∧ NoDup (map id (afterScans doc "Grok"
                     (map (fun '(now, nodes) => Grok.detectMessages now nodes) grokPages))).
Proof.
  split; apply afterScans_NoDup, Forall_forall; intros cs Hcs;
    apply list_elem_of_fmap in Hcs.
  - destruct Hcs as ([[d now] items] & -> & _).
    eapply indexedFrom_NoDup, kimi_scanFrom_indexed.
  - destruct Hcs as ([now nodes] & -> & _).
    eapply indexedFrom_NoDup, grok_scanFrom_indexed.
Qed.

Lemma ordersFrom_cons (k n : nat) :
  ordersFrom k (S n) = Some (Z.of_nat k) :: ordersFrom (S k) n.
Proof. reflexivity. Qed.

Lemma kimi_scanFrom_orders (doc : Document) (now : Z) (index k : nat)
    (items : list Kimi.Item) :
  map order (Kimi.scanFrom doc now index k items)
  = ordersFrom k (List.length (Kimi.scanFrom doc now index k items)).
Proof.
  revert index k. induction items as [|it items IH]; intros index k; simpl; [done|].
  destruct (Kimi.itemMessage doc now index k it) as [m|] eqn:Hm; [|apply IH].
  simpl. rewrite ordersFrom_cons, IH. f_equal.
  unfold Kimi.itemMessage in Hm.
  destruct (Kimi.itemRole it) as [r|]; [|done].
  destruct (negb _); [done|].
  destruct (Kimi.scrollElement doc index it); [|done]. by injection Hm as <-.
Qed.

Lemma grok_scanFrom_orders (now : Z) (index k : nat) (nodes : list Grok.MsgNode) :
  map order (Grok.scanFrom now index k nodes)
  = ordersFrom k (List.length (Grok.scanFrom now index k nodes)).
Proof.
  revert index k. induction nodes as [|n nodes IH]; intros index k; simpl; [done|].
  destruct (Grok.nodeMessage now index k n) as [m|] eqn:Hm; [|apply IH].
  simpl. rewrite ordersFrom_cons, IH. f_equal.
  unfold Grok.nodeMessage in Hm.
  destruct (Grok.bubble n) as [b|]; [|done].
  destruct (negb _); [done|]. by injection Hm as <-.
Qed.

Lemma kimi_scanFrom_messages (doc : Document) (now : Z) (index k : nat)
    (items : list Kimi.Item) :
  (List.length (Kimi.scanFrom doc now index k items) <= List.length items)%nat
  ∧ Forall (fun m => truthy (fullContent m) = true
                     ∧ content m = substring0 200 (fullContent m)
                     ∧ timestamp m = now
                     ∧ is_Some (element m))
           (Kimi.scanFrom doc now index k items).
Proof.
  revert index k. induction items as [|it items IH]; intros index k; simpl.
  - split; [lia|constructor].
  - destruct (Kimi.itemMessage doc now index k it) as [m|] eqn:Hm.
    + destruct (IH (S index) (S k)) as [Hlen Hall]. split; [simpl; lia|].
      constructor; [|done].
      unfold Kimi.itemMessage in Hm.
      destruct (Kimi.itemRole it) as [r|]; [|done].
      destruct (negb (truthy _)) eqn:Ht; [done|].
      destruct (Kimi.scrollElement doc index it); [|done]. injection Hm as <-. simpl.
      apply negb_false_iff in Ht. by eauto.
    + destruct (IH (S index) k) as [Hlen Hall]. split; [lia|done].
Qed.

Lemma grok_scanFrom_messages (now : Z) (index k : nat) (nodes : list Grok.MsgNode) :
  (List.length (Grok.scanFrom now index k nodes) <= List.length nodes)%nat
  ∧ Forall (fun m => truthy (fullContent m) = true
                     ∧ content m = substring0 200 (fullContent m)
                     ∧ timestamp m = now
                     ∧ is_Some (element m)
                     ∧ is_Some (originalId m))
           (Grok.scanFrom now index k nodes).
Proof.
  revert index k. induction nodes as [|n nodes IH]; intros index k; simpl.
  - split; [lia|constructor].
  - destruct (Grok.nodeMessage now index k n) as [m|] eqn:Hm.
    + destruct (IH (S index) (S k)) as [Hlen Hall]. split; [simpl; lia|].
      constructor; [|done].
      unfold Grok.nodeMessage in Hm.
      destruct (Grok.bubble n) as [b|]; [|done].
      destruct (negb (truthy _)) eqn:Ht; [done|]. injection Hm as <-. simpl.
      apply negb_false_iff in Ht. by eauto.
    + destruct (IH (S index) k) as [Hlen Hall]. split; [lia|done].
Qed.

(** X3. A Kimi or Grok scan numbers the messages it returns 0, 1, 2, ...
    in sequence, skipped items leaving no gap; it returns at most one message
    per item, and every message has a non-empty full text, of which
    [content] is the first 200 characters, and an element. *)
Theorem scan_numbering (doc : Document) (now : Z)
    (items : list Kimi.Item) (nodes : list Grok.MsgNode) :
  let k := Kimi.detectMessages doc now items in
  let g := Grok.detectMessages now nodes in
  map order k = ordersFrom 0 (List.length k)
  ∧ map order g = ordersFrom 0 (List.length g)
  ∧ (List.length k <= List.length items)%nat
  ∧ (List.length g <= List.length nodes)%nat
  ∧ Forall (fun m => truthy (fullContent m) = true
                     ∧ content m = substring0 200 (fullContent m)
                     ∧ is_Some (element m)) (k ++ g).
Proof.
  intros k g. split; [apply kimi_scanFrom_orders|]. split; [apply grok_scanFrom_orders|].
  destruct (kimi_scanFrom_messages doc now 0 0 items) as [Hk1 Hk2].
  destruct (grok_scanFrom_messages now 0 0 nodes) as [Hg1 Hg2].
  split; [done|]. split; [done|].
  apply Forall_app. split.
  - eapply Forall_impl; [exact Hk2|]. simpl. tauto.
  - eapply Forall_impl; [exact Hg2|]. simpl. tauto.
Qed.

Lemma sortBy_in_order (doc : Document) (k : nat) (l : list Message) :
  map order l = ordersFrom k (List.length l) → sortBy (compareMessages doc) l = l.
Proof.
  revert k. induction l as [|x l IH]; intros k; simpl; [done|].
  rewrite ordersFrom_cons. intros [= Hx Hl]. rewrite (IH (S k) Hl).
  destruct l as [|y l]; simpl; [done|].
  simpl in Hl. rewrite ordersFrom_cons in Hl. injection Hl as Hy _.
  unfold compareMessages. rewrite Hx, Hy.
  destruct (Z.leb_spec (Z.of_nat k - Z.of_nat (S k)) 0); [done|lia].
Qed.

Lemma first_pass_accepts_all (doc : Document) (p : string) (cs : list Message) :
  p ≠ "DeepSeek" → acceptedCandidates doc p [] cs = cs.
Proof.
  intros Hp.
  assert (Hall : dropKnownIds [] cs = cs).
  { unfold dropKnownIds. induction cs as [|c cs IH]; [done|].
    rewrite filter_cons_True by (unfold existingIds; simpl; set_solver).
    by rewrite IH. }
  unfold acceptedCandidates, reassignOrder. rewrite Hall.
  rewrite bool_decide_eq_false_2 by done.
  clear Hall. induction cs as [|c cs IH]; simpl; [done|]. by rewrite IH.
Qed.

(** X4. The first pass of a conversation shows the messages in the order
    in which the Kimi or Grok adapter found them on the page. *)
Theorem first_pass_keeps_scan_order (doc d : Document) (now : Z)
    (items : list Kimi.Item) (nodes : list Grok.MsgNode) :
  nextMessages doc "Kimi" [] (Kimi.detectMessages d now items)
  = Kimi.detectMessages d now items
  ∧ nextMessages doc "Grok" [] (Grok.detectMessages now nodes)
    = Grok.detectMessages now nodes.
Proof.
  split; unfold nextMessages; rewrite first_pass_accepts_all by done; simpl.
  - rewrite (sortBy_in_order doc 0 (Kimi.detectMessages d now items))
      by apply kimi_scanFrom_orders.
    by destruct (Kimi.detectMessages d now items).
  - rewrite (sortBy_in_order doc 0 (Grok.detectMessages now nodes))
      by apply grok_scanFrom_orders.
    by destruct (Grok.detectMessages now nodes).
Qed.

(** ** The Gemini adapter's scan *)

Section GeminiFacts.

Import GeminiScan.

Lemma getStableId_marks (a : gmap (Node * string) string) (el : Node)
    (r fh : string) (i : string) (a' : gmap (Node * string) string) :
  Gemini.getStableId a (Some el) r fh = (i, a') →
  marker a' el = i ∧ truthy i = true
  ∧ (∀ el', truthy (marker a el') = true → marker a' el' = marker a el').
Proof.
  unfold Gemini.getStableId, marker, Gemini.getAttribute.
  destruct (truthy (default "" (a !! (el, "data-hopper-id")))) eqn:Hex.
  - intros [= <- <-]. by repeat split.
  - intros [= <- <-]. rewrite lookup_insert_eq. simpl. split; [done|]. split.
    + by destruct (truthy (orElse _ _)).
    + intros el' Hel'. destruct (decide (el' = el)) as [->|Hne]; [congruence|].
      rewrite lookup_insert_ne by congruence. done.
Qed.

Lemma getStableId_marked (a : gmap (Node * string) string) (el : Node) (r fh : string) :
  truthy (marker a el) = true →
  Gemini.getStableId a (Some el) r fh = (marker a el, a).
Proof.
  unfold Gemini.getStableId, marker, Gemini.getAttribute. by intros ->.
Qed.

Lemma handleNode_keeps_markers (now : Z) (sc : Scan) (b : Block) (el : Node) :
  truthy (marker (attrs sc) el) = true →
  marker (attrs (handleNode now sc b)) el = marker (attrs sc) el.
Proof.
  intros Hel. unfold handleNode.
  repeat (match goal with |- context [if ?c then _ else _] => destruct c end; [done|]).
  destruct (Gemini.getStableId _ _ _ _) as [i a'] eqn:Hid. simpl.
  by apply getStableId_marks in Hid as (_ & _ & Hkeep); apply Hkeep.
Qed.

Lemma scan_keeps_markers (now : Z) (blocks : list Block) (sc : Scan) (el : Node) :
  truthy (marker (attrs sc) el) = true →
  marker (attrs (foldl (handleNode now) sc blocks)) el = marker (attrs sc) el.
Proof.
  revert sc. induction blocks as [|b blocks IH]; intros sc Hel; simpl; [done|].
  rewrite IH; [by apply handleNode_keeps_markers|].
  by rewrite handleNode_keeps_markers.
Qed.

Lemma rescan_from (now1 now2 : Z) (blocks : list Block) (sc : Scan)
    (B : gmap (Node * string) string) :
  let sc' := foldl (handleNode now1) sc blocks in
  (∀ el, truthy (marker (attrs sc') el) = true → marker B el = marker (attrs sc') el) →
  foldl (handleNode now2)
        (mkScan B (seen sc) (nextOrder sc) (map (set_timestamp now2) (found sc))) blocks
  = mkScan B (seen sc') (nextOrder sc') (map (set_timestamp now2) (found sc')).
Proof.
  revert sc. induction blocks as [|b blocks IH]; intros sc; simpl; [done|].
  intros HB. specialize (IH (handleNode now1 sc b) HB).
  rewrite <- IH. f_equal. clear IH.
  remember (handleNode now1 sc b) as sc1 eqn:Hsc1.
  unfold handleNode in Hsc1 |- *. cbn [attrs seen nextOrder found] in Hsc1 |- *.
  destruct (bool_decide (blockEl b ∈ seen sc)); [by subst|].
  destruct (blockHidden b); [by subst|].
  destruct (bool_decide (blockRole b = assistant) && blockStreaming b); [by subst|].
  destruct (negb (truthy (normalizeText (blockText b)))); [by subst|].
  destruct (Gemini.getStableId (attrs sc) _ _ _) as [i a'] eqn:Hid.
  pose proof (getStableId_marks _ _ _ _ _ _ Hid) as (Hi & Hti & _).
  assert (HBi : marker B (blockEl b) = i).
  { rewrite HB; rewrite scan_keeps_markers; subst sc1;
      cbn [attrs seen nextOrder found]; congruence. }
  rewrite getStableId_marked by congruence. rewrite HBi. subst sc1.
  cbn [attrs seen nextOrder found]. by rewrite map_app.
Qed.

(** X5. Scanning an unchanged Gemini page a second time returns the
    candidates of the first scan, with the same ids, roles, texts, elements
    and order values; only their timestamps are those of the second scan.
    The second scan writes no attribute.  The engine therefore accepts
    nothing from it. *)
Theorem gemini_rescan_stable (doc : Document) (pageAttrs : gmap (Node * string) string)
    (now1 now2 : Z) (blocks : list Block) (ms : list Message) :
  let first := detectMessages pageAttrs now1 blocks in
  let second := detectMessages (attrs first) now2 blocks in
  found second = map (set_timestamp now2) (found first)
  ∧ attrs second = attrs first
  ∧ nextMessages doc "Gemini" (nextMessages doc "Gemini" ms (found first)) (found second)
    = nextMessages doc "Gemini" ms (found first).
Proof.
  intros first second.
  assert (Hsecond : second = mkScan (attrs first) (seen first) (nextOrder first)
                                    (map (set_timestamp now2) (found first))).
  { unfold second, first, detectMessages.
    apply (rescan_from now1 now2 blocks (mkScan pageAttrs [] 0 [])). done. }
  rewrite Hsecond. simpl. split; [done|]. split; [done|].
  apply nextMessages_idempotent. unfold sameScan.
  clear Hsecond. generalize (found first). intros l.
  induction l as [|m l IH]; simpl; constructor; [done|exact IH].
Qed.

(** X6. Every candidate a Gemini scan returns has a non-empty id, and its
    element carries that id in [data-hopper-id] when the scan ends; an
    element is returned at most once. *)
Theorem gemini_scan_marks (pageAttrs : gmap (Node * string) string) (now : Z)
    (blocks : list Block) :
  let sc := detectMessages pageAttrs now blocks in
  Forall (fun m => truthy (id m) = true
                   ∧ ∃ el, element m = Some el ∧ marker (attrs sc) el = id m)
         (found sc)
  ∧ NoDup (omap element (found sc))
  ∧ map order (found sc) = ordersFrom 0 (List.length (found sc)).
Proof.
  intros sc. unfold sc, detectMessages.
  assert (Hgen : ∀ blocks sc0,
    Forall (fun m => truthy (id m) = true
                     ∧ ∃ el, element m = Some el ∧ marker (attrs sc0) el = id m)
           (found sc0) →
    NoDup (omap element (found sc0)) →
    (∀ el, el ∈ omap element (found sc0) → el ∈ seen sc0) →
    map order (found sc0) = ordersFrom 0 (List.length (found sc0)) →
    nextOrder sc0 = List.length (found sc0) →
    let sc1 := foldl (handleNode now) sc0 blocks in
    Forall (fun m => truthy (id m) = true
                     ∧ ∃ el, element m = Some el ∧ marker (attrs sc1) el = id m)
           (found sc1)
    ∧ NoDup (omap element (found sc1))
    ∧ map order (found sc1) = ordersFrom 0 (List.length (found sc1))).
  { clear blocks sc. induction blocks as [|b blocks IH]; intros sc0 Hall Hnd Hseen Hord Hlen;
      simpl; [done|].
    apply IH; clear IH; unfold handleNode;
      destruct (bool_decide (blockEl b ∈ seen sc0)) eqn:Hin; try done;
      destruct (blockHidden b); try done;
      destruct (bool_decide (blockRole b = assistant) && blockStreaming b); try done;
      destruct (negb (truthy (normalizeText (blockText b)))); try done;
      destruct (Gemini.getStableId (attrs sc0) _ _ _) as [i a'] eqn:Hid;
      pose proof (getStableId_marks _ _ _ _ _ _ Hid) as (Hi & Hti & Hkeep);
      apply bool_decide_eq_false in Hin; simpl.
    - apply Forall_app. split.
      + eapply Forall_impl; [exact Hall|]. simpl.
        intros m (Htm & el & Hel & Hm). split; [done|]. exists el. split; [done|].
        rewrite Hkeep; [done|]. by rewrite Hm.
      + constructor; [|constructor]. simpl. eauto.
    - rewrite omap_app. simpl. apply NoDup_app. split; [done|]. split.
      + intros el Hel [->|[]%elem_of_nil]%elem_of_cons. by apply Hin, Hseen.
      + apply NoDup_singleton.
    - intros el. rewrite omap_app. simpl.
      intros [Hel|[->|[]%elem_of_nil]%elem_of_cons]%elem_of_app; [right|left]; auto.
    - rewrite map_app, length_app, Hord, Hlen. simpl.
      unfold ordersFrom. rewrite seq_app, map_app. done.
    - rewrite length_app. simpl. lia. }
  apply (Hgen blocks (mkScan pageAttrs [] 0 [])); simpl; try done; constructor.
Qed.

End GeminiFacts.

(** ** Debouncing *)

Lemma onMutations_debounced (t : Z) (mu : Mutations) (p : Platform) (s : State) :
  currentPlatform s = Some p → observer s = true → debouncedBatch p mu →
  onMutations t mu s
  = set_observerTimeout (Some (nextTimerId s))
      (addTimer t (default 300 (getDebounceTime p)) CbDebounce false
                (clearTimer (streamingTimeout s) (clearTimer (observerTimeout s) s))).2.
Proof.
  intros Hp Hob [Hds Hqw]. unfold onMutations. rewrite Hob. simpl.
  destruct s as [ms url pf ob rs ot st di qi tm nx lg]. simpl in *. subst.
  destruct ot as [i|]; simpl; rewrite Hds, Hqw; by destruct st.
Qed.

Lemma runUntil_not_due (w : World) (limit : Z) (fuel : nat) (s : State) (t : Timer) :
  timers s = [t] → limit <= due t → runUntil w limit fuel s = s.
Proof.
  intros Ht Hdue. destruct fuel; simpl; [done|]. rewrite Ht. simpl.
  by destruct (Z.ltb_spec (due t) limit); [lia|].
Qed.

Lemma onMutations_single (t : Z) (mu : Mutations) (p : Platform) (s : State) :
  currentPlatform s = Some p → observer s = true → debouncedBatch p mu →
  (∀ x, x ∈ timers s → observerTimeout s = Some (tid x)) →
  let s' := onMutations t mu s in
  timers s' = [mkTimer (nextTimerId s) (t + default 300 (getDebounceTime p))
                       CbDebounce None]
  ∧ observerTimeout s' = Some (nextTimerId s)
  ∧ observer s' = true ∧ currentPlatform s' = Some p
  ∧ log s' = log s ∧ messages s' = messages s.
Proof.
  intros Hp Hob Hmu Hall. simpl. rewrite (onMutations_debounced t mu p s) by done.
  destruct s as [ms url pf ob rs ot st di qi tm nx lg]. simpl in *. subst.
  assert (Hnil : timers (clearTimer st (clearTimer ot
                   (mkState ms url (Some p) true rs ot st di qi tm nx lg))) = []).
  { assert (H1 : timers (clearTimer ot
                   (mkState ms url (Some p) true rs ot st di qi tm nx lg)) = []).
    { destruct ot as [i|]; simpl.
      - induction tm as [|x tm IH]; simpl; [done|].
        assert (Hx : Some i = Some (tid x)) by (apply Hall; left).
        injection Hx as ->. rewrite bool_decide_eq_true_2 by done. simpl.
        apply IH. intros y Hy. apply Hall. by right.
      - destruct tm as [|x tm]; [done|]. by specialize (Hall x (list_elem_of_here _ _)). }
    destruct st as [j|]; simpl; [|done]. simpl in H1. by rewrite H1. }
  unfold addTimer. simpl. rewrite Hnil. simpl.
  repeat split; by destruct ot, st.
Qed.

(** X7. Trailing-edge debounce.  With the observer connected and no timer
    pending when the burst begins (which leaves out DeepSeek and Qwen once
    [observeDOM] has queued their fallback poll): a burst of mutation batches
    on the general, debounced path, each no later than the debounce time
    after the one before, runs no pass while it lasts and leaves exactly one
    debounce timer, due the debounce time after the last batch; in a
    conversation that already has messages (not on Qwen) that timer then
    runs exactly one pass, asks [isStreaming()] not at all, and nothing
    stays pending. *)
Theorem debounce_coalesces (w : World) (p : Platform) (s : State) (fuel : nat)
    (t0 : Z) (mu0 : Mutations) (batches : list (Z * Mutations)) (limit : Z) :
  let d := default 300 (getDebounceTime p) in
  let tn := lastBatchTime t0 batches in
  currentPlatform s = Some p → observer s = true → timers s = [] →
  Forall (fun b => debouncedBatch p b.2) ((t0, mu0) :: batches) →
  spacedWithin d t0 batches →
  let burst := simulate w fuel (batchInputs ((t0, mu0) :: batches)) s in
  (log burst = log s ∧ messages burst = messages s
   ∧ map due (timers burst) = [tn + d] ∧ map callback (timers burst) = [CbDebounce])
  ∧ (messages s ≠ [] → isQwen p = false → tn + d < limit →
     let done := runUntil w limit (S fuel) burst in
     detectTimes (log done) = (detectTimes (log s) ++ [tn + d])%list
     ∧ streamingChecks (log done) = streamingChecks (log s)
     ∧ timers done = []).
Proof.
  intros d tn Hp Hob Htm Hall Hsp burst.
  assert (Hinv : ∃ i,
            timers burst = [mkTimer i (tn + d) CbDebounce None]
            ∧ observerTimeout burst = Some i ∧ observer burst = true
            ∧ currentPlatform burst = Some p
            ∧ log burst = log s ∧ messages burst = messages s).
  { unfold burst, tn, lastBatchTime, simulate. simpl.
    apply Forall_cons in Hall as [Hmu0 Hall]. simpl in Hmu0.
    rewrite runUntil_idle by done.
    destruct (onMutations_single t0 mu0 p s Hp Hob Hmu0) as (H1 & H2 & H3 & H4 & H5 & H6).
    { rewrite Htm. intros x []%elem_of_nil. }
    fold d in H1.
    revert H1 H2 H3 H4 H5 H6. generalize (onMutations t0 mu0 s). generalize (nextTimerId s).
    clear Htm Hob Hmu0. revert Hsp Hall. generalize t0. clear tn burst.
    induction batches as [|[t mu] batches IH]; intros tp Hsp Hall i s1 H1 H2 H3 H4 H5 H6;
      simpl.
    - exists i. by repeat split.
    - destruct Hsp as (Hle & Hgap & Hsp).
      apply Forall_cons in Hall as [Hmu Hall]. simpl in Hmu.
      rewrite (runUntil_not_due w t fuel s1 _ H1) by (simpl; lia).
      destruct (onMutations_single t mu p s1 H4 H3 Hmu) as (K1 & K2 & K3 & K4 & K5 & K6).
      { rewrite H1. intros x ->%list_elem_of_singleton. done. }
      fold d in K1.
      destruct (IH t Hsp Hall _ _ K1 K2 K3 K4 ltac:(congruence) ltac:(congruence))
        as (j & Hj). exists j.
      replace (List.last (map fst batches) t)
        with (List.last (t :: map fst batches) tp) in Hj; [exact Hj|].
      clear. destruct (map fst batches) as [|x l]; [done|].
      change (List.last (t :: x :: l) tp) with (List.last (x :: l) tp).
      revert x. induction l as [|y l IHl]; intros x; [done|].
      change (List.last (x :: y :: l) tp) with (List.last (y :: l) tp).
      change (List.last (x :: y :: l) t) with (List.last (y :: l) t). apply IHl. }
  destruct Hinv as (i & H1 & H2 & H3 & H4 & H5 & H6).
  split; [by rewrite H1|].
  intros Hms Hq Hlim done.
  unfold done.
  rewrite (runUntil_step w limit fuel burst (mkTimer i (tn + d) CbDebounce None));
    [|by rewrite H1|simpl; lia].
  set (c := consume (mkTimer i (tn + d) CbDebounce None) burst).
  assert (Hcp : currentPlatform c = Some p) by (by rewrite <- H4).
  assert (Hcm : messages c = messages s) by (by rewrite <- H6).
  assert (Hcl : log c = log s) by (by rewrite <- H5).
  assert (Hct : timers c = []).
  { unfold c. simpl. rewrite H1. simpl. by rewrite bool_decide_eq_true_2. }
  assert (Hfire : fire CbDebounce (tn + d) (w (tn + d)) c
                  = detectMessages (tn + d) (w (tn + d)) c).
  { unfold fire. rewrite Hcp. cbv zeta. rewrite !Hcm.
    destruct (messages s) as [|m ms] eqn:Hm; [done|]. simpl.
    rewrite Hq. by destruct (getStreamingWaitTime p). }
  simpl callback. simpl due. rewrite Hfire.
  destruct (detectMessages_frame (tn + d) (w (tn + d)) c) as (ms' & evs & -> & Hd & Hc).
  rewrite runUntil_idle by (simpl; exact Hct).
  simpl. rewrite detectTimes_app, streamingChecks_app. simpl. rewrite Hd, Hc.
  rewrite app_nil_r. rewrite H5. split; [done|]. split; [done|]. exact Hct.
Qed.

Lemma debounce_coalesces_witness :
  let w := streamingUntil 0 [helloAt0] in
  let s := observeDOM 0 (set_messages [helloAt0] (initialState kimi "/chat/1")) in
  let batches := [(300, childListChange); (900, childListChange)] in
  let burst := simulate w 5 (batchInputs ((0, childListChange) :: batches)) s in
  spacedWithin 800 0 batches
  ∧ map due (timers burst) = [1700]
  ∧ detectTimes (log (runUntil w 10000 6 burst)) = [1700]
  ∧ timers (runUntil w 10000 6 burst) = [].
Proof.
  intros w s batches burst.
  assert (Hsp : spacedWithin 800 0 batches) by (simpl; lia).
  split; [exact Hsp|].
  destruct (debounce_coalesces w kimi s 5 0 childListChange batches 10000
              eq_refl eq_refl eq_refl) as [(_ & _ & Hdue & _) Hrun].
  - repeat constructor.
  - exact Hsp.
  - split; [exact Hdue|].
    destruct Hrun as (Hd & _ & Ht); [discriminate|reflexivity|reflexivity|].
    split; [exact Hd|exact Ht].
Defined.

(** ** The fallback polls *)

Create HintDb pollframe.

Lemma pollFrame_refl (s : State) : pollFrame s s.
Proof. by repeat split. Qed.

Lemma pollFrame_clearTimer (s s' : State) (i : option nat) :
  pollFrame s s' → pollFrame s (clearTimer i s').
Proof.
  intros (H1 & H2 & H3 & H4). destruct i as [i|]; [|by repeat split].
  repeat split; try done. etransitivity; [|exact H4].
  unfold pollTimers. simpl. generalize (timers s'). intros tm.
  induction tm as [|t tm IH]; simpl; [done|].
  destruct (negb (bool_decide (tid t = i))); simpl;
    destruct (bool_decide (callback t = CbPoll));
    first [exact IH | by apply sublist_skip | by apply sublist_cons].
Qed.

Lemma pollFrame_addTimer (s s' : State) (now delay : Z) (cb : Callback) :
  cb ≠ CbPoll → pollFrame s s' → pollFrame s (addTimer now delay cb false s').2.
Proof.
  intros Hcb (H1 & H2 & H3 & H4). repeat split; try done.
  unfold pollTimers in *. simpl. rewrite List.filter_app. simpl.
  rewrite bool_decide_eq_false_2 by done. by rewrite app_nil_r.
Qed.

Lemma pollFrame_emit (s s' : State) (e : Event) : pollFrame s s' → pollFrame s (emit e s').
Proof. by intros (H1 & H2 & H3 & H4). Qed.

Lemma pollFrame_set_messages (s s' : State) (v : list Message) :
  pollFrame s s' → pollFrame s (set_messages v s').
Proof. by intros (H1 & H2 & H3 & H4). Qed.

Lemma pollFrame_set_observerTimeout (s s' : State) (v : option nat) :
  pollFrame s s' → pollFrame s (set_observerTimeout v s').
Proof. by intros (H1 & H2 & H3 & H4). Qed.

Lemma pollFrame_set_streamingTimeout (s s' : State) (v : option nat) :
  pollFrame s s' → pollFrame s (set_streamingTimeout v s').
Proof. by intros (H1 & H2 & H3 & H4). Qed.

Lemma pollFrame_set_isResetting (s s' : State) (v : bool) :
  pollFrame s s' → pollFrame s (set_isResetting v s').
Proof. by intros (H1 & H2 & H3 & H4). Qed.

Lemma pollFrame_set_observer (s s' : State) (v : bool) :
  pollFrame s s' → pollFrame s (set_observer v s').
Proof. by intros (H1 & H2 & H3 & H4). Qed.

Lemma pollFrame_set_currentUrl (s s' : State) (v : string) :
  pollFrame s s' → pollFrame s (set_currentUrl v s').
Proof. by intros (H1 & H2 & H3 & H4). Qed.

Lemma pollFrame_detectMessages (s s' : State) (now : Z) (h : Host) :
  pollFrame s s' → pollFrame s (detectMessages now h s').
Proof.
  intros (H1 & H2 & H3 & H4).
  destruct (detectMessages_frame now h s') as (ms & evs & -> & _). by repeat split.
Qed.

Lemma pollFrame_queue (s s' : State) (i n : nat) (d : Z) (cb : Callback) (per : option Z) :
  cb ≠ CbPoll → pollFrame s s' →
  pollFrame s (set_nextTimerId n (set_timers (timers s' ++ [mkTimer i d cb per]) s')).
Proof.
  intros Hcb (H1 & H2 & H3 & H4). repeat split; try done.
  unfold pollTimers in *. simpl. rewrite List.filter_app. simpl.
  rewrite bool_decide_eq_false_2 by done. by rewrite app_nil_r.
Qed.

Lemma pollFrame_unqueue (s s' : State) (i : nat) :
  pollFrame s s' →
  pollFrame s (set_timers (List.filter (fun t => negb (bool_decide (tid t = i)))
                                       (timers s')) s').
Proof. apply (pollFrame_clearTimer s s' (Some i)). Qed.

(** Follow the setters of a state expression down to the state it starts from. *)
Ltac poll_frame :=
  repeat first
    [ apply pollFrame_refl
    | assumption
    | apply pollFrame_set_observerTimeout
    | apply pollFrame_set_streamingTimeout
    | apply pollFrame_set_isResetting
    | apply pollFrame_set_observer
    | apply pollFrame_set_currentUrl
    | apply pollFrame_set_messages
    | apply pollFrame_emit
    | apply pollFrame_detectMessages
    | apply pollFrame_clearTimer
    | apply pollFrame_unqueue
    | apply pollFrame_queue; [discriminate|] ].

(** The same after exposing the timers a branch queues, without computing
    inside the states. *)
Ltac poll_branch := unfold addTimer; cbv beta iota zeta; poll_frame.

Lemma pollFrame_onMutations (s : State) (t : Z) (mu : Mutations) :
  pollFrame s (onMutations t mu s).
Proof.
  unfold onMutations. destruct (observer s); simpl; [|poll_frame].
  destruct (currentPlatform (clearTimer (observerTimeout s) s)) as [p|].
  - destruct (hasRelevantChanges mu && isDeepSeek p && hasMessageNodes mu);
      [simpl; poll_frame|].
    destruct (hasRelevantChanges mu && isQwen p && hasQwenMessages mu);
      [simpl; poll_frame|].
    destruct (streamingTimeout (clearTimer (observerTimeout s) s)); simpl; poll_frame.
  - destruct (streamingTimeout (clearTimer (observerTimeout s) s)); simpl; poll_frame.
Qed.

Lemma onePoll_frame (p : Platform) (s s' : State) :
  pollFrame s s' → onePoll p s → onePoll p s'.
Proof.
  intros (H1 & H2 & H3 & H4) (K1 & K2 & K3). split; [congruence|]. split.
  - apply sublist_length in H4. lia.
  - intros t Ht. rewrite H2, H3. apply K3. by eapply elem_of_sublist.
Qed.

Lemma pollFrame_checkUrlChange (s : State) (now : Z) (h : Host) :
  pollFrame s (checkUrlChange now h s).
Proof.
  unfold checkUrlChange, updateUI.
  destruct (currentPlatform s) as [p|]; [|poll_frame].
  destruct (negb _ && negb _); [|poll_frame]. cbv zeta.
  destruct (sidebarInjected (document h));
    match goal with |- context [if observer ?x then _ else _] => destruct (observer x) end;
    match goal with |- context [match observerTimeout ?x with _ => _ end] =>
      destruct (observerTimeout x) end;
    poll_branch.
Qed.

Lemma tracked_polls_removed (i : nat) (tm : list Timer) :
  (∀ t, t ∈ List.filter (fun t => bool_decide (callback t = CbPoll)) tm → i = tid t) →
  List.filter (fun t => bool_decide (callback t = CbPoll))
              (List.filter (fun t => negb (bool_decide (tid t = i))) tm) = [].
Proof.
  induction tm as [|t tm IH]; simpl; [done|]. intros Hall.
  destruct (bool_decide (callback t = CbPoll)) eqn:Hpoll.
  - rewrite (bool_decide_eq_true_2 (tid t = i)) by (symmetry; apply Hall; left).
    simpl. apply IH. intros x Hx. apply Hall. by right.
  - destruct (negb (bool_decide (tid t = i))); simpl; rewrite ?Hpoll; by apply IH.
Qed.

Lemma untracked_polls_none (tm : list Timer) :
  (∀ t, t ∈ List.filter (fun t => bool_decide (callback t = CbPoll)) tm →
        (None : option nat) = Some (tid t)) →
  List.filter (fun t => bool_decide (callback t = CbPoll)) tm = [].
Proof.
  destruct (List.filter _ tm) as [|t l]; [done|].
  intros Hall. by specialize (Hall t (list_elem_of_here _ _)).
Qed.

Lemma deepseek_not_qwen (p : Platform) : isDeepSeek p = true → isQwen p = false.
Proof.
  unfold isDeepSeek, isQwen. intros H%bool_decide_eq_true.
  apply bool_decide_eq_false. by rewrite H.
Qed.

Lemma onePoll_observeDOM (p : Platform) (s : State) (now : Z) :
  onePoll p s → onePoll p (observeDOM now s).
Proof.
  intros (Hp & Hlen & Htr). unfold observeDOM. rewrite Hp.
  destruct s as [ms url pf ob rs ot st di qi tm nx lg].
  unfold onePoll, pollTimers in *. simpl in *. subst pf.
  destruct (isDeepSeek p) eqn:Hds.
  - rewrite (deepseek_not_qwen p Hds) in *.
    unfold clearDeepSeekInterval. simpl.
    destruct di as [i|]; simpl.
    + rewrite List.filter_app, tracked_polls_removed by (intros t Ht; by injection (Htr t Ht)).
      simpl. split; [done|]. split; [lia|].
      intros t ->%list_elem_of_singleton. done.
    + rewrite List.filter_app, untracked_polls_none by done.
      simpl. split; [done|]. split; [lia|].
      intros t ->%list_elem_of_singleton. done.
  - destruct (isQwen p) eqn:Hq.
    + assert (Hpolls : ∀ tm', sublist tm' tm →
                List.filter (fun t => bool_decide (callback t = CbPoll))
                  (match qi with
                   | Some i => List.filter (fun t => negb (bool_decide (tid t = i))) tm'
                   | None => tm'
                   end) = []).
      { intros tm' Hsub.
        assert (Htr' : ∀ t, t ∈ List.filter (fun t => bool_decide (callback t = CbPoll)) tm' →
                            qi = Some (tid t)).
        { intros t [Ht1 Ht2]%list_elem_of_In%filter_In. apply Htr.
          apply list_elem_of_In, filter_In. split; [|done].
          apply list_elem_of_In. eapply elem_of_sublist; [|exact Hsub].
          by apply list_elem_of_In. }
        destruct qi as [i|].
        - apply tracked_polls_removed. intros t Ht. by injection (Htr' t Ht).
        - by apply untracked_polls_none. }
      unfold clearDeepSeekInterval. simpl.
      destruct di as [j|]; simpl.
      * specialize (Hpolls (List.filter (fun t => negb (bool_decide (tid t = j))) tm)).
        destruct qi as [i|]; simpl; rewrite List.filter_app, Hpolls;
          try (apply list_filter_sublist_aux); simpl;
          try (split; [done|]; split; [lia|];
               intros t ->%list_elem_of_singleton; done).
        all: clear; induction tm as [|t tm IH]; simpl; [constructor|];
          destruct (negb _); by constructor.
      * specialize (Hpolls tm (reflexivity _)).
        destruct qi as [i|]; simpl; rewrite List.filter_app, Hpolls; simpl;
          (split; [done|]; split; [lia|]; intros t ->%list_elem_of_singleton; done).
    + unfold clearDeepSeekInterval. simpl.
      destruct di as [i|]; simpl.
      * rewrite tracked_polls_removed by (intros t Ht; by injection (Htr t Ht)).
        split; [done|]. split; [simpl; lia|]. intros t []%elem_of_nil.
      * done.
Qed.

Ltac poll_cases :=
  repeat match goal with
         | |- context [if ?b then _ else _] => destruct b
         | |- context [match getStreamingWaitTime ?p with _ => _ end] =>
             destruct (getStreamingWaitTime p)
         end.

Lemma pollFrame_fire (cb : Callback) (now : Z) (h : Host) (s : State) :
  cb ≠ CbReset → pollFrame s (fire cb now h s).
Proof.
  intros Hcb. destruct cb; try done; unfold fire;
    try (destruct (currentPlatform s) as [p|]; [|poll_frame]);
    cbv zeta; poll_cases; poll_branch.
Qed.

Lemma polls_map (f : Timer → Timer) (tm : list Timer) :
  (∀ u, callback (f u) = callback u) →
  List.filter (fun t => bool_decide (callback t = CbPoll)) (map f tm)
  = map f (List.filter (fun t => bool_decide (callback t = CbPoll)) tm).
Proof.
  intros Hf. induction tm as [|t tm IH]; simpl; [done|].
  rewrite Hf. destruct (bool_decide (callback t = CbPoll)); simpl; by rewrite IH.
Qed.

Lemma onePoll_consume (p : Platform) (t : Timer) (s : State) :
  onePoll p s → onePoll p (consume t s).
Proof.
  intros Hs. unfold consume. destruct (period t) as [per|].
  - destruct Hs as (H1 & H2 & H3). split; [done|].
    unfold pollTimers in *. simpl.
    rewrite polls_map by (intros u; by destruct (bool_decide _)).
    split; [by rewrite length_map|].
    intros x (u & -> & Hu)%list_elem_of_fmap.
    rewrite (H3 u Hu). by destruct (bool_decide _).
  - eapply onePoll_frame; [apply pollFrame_clearTimer, pollFrame_refl|exact Hs].
Qed.

(** Whatever holds of the polls across a frame step, across [observeDOM]
    and across the re-arming of an interval, holds in every state the event
    loop reaches. *)
Section Reachable.
Variable I : State → Prop.
Hypothesis I_frame : ∀ s s', pollFrame s s' → I s → I s'.
Hypothesis I_observeDOM : ∀ now s, I s → I (observeDOM now s).
Hypothesis I_consume : ∀ t s, I s → I (consume t s).

Lemma reach_fire (cb : Callback) (now : Z) (h : Host) (s : State) :
  I s → I (fire cb now h s).
Proof.
  intros Hs. destruct (decide (cb = CbReset)) as [->|Hcb].
  - unfold fire. cbv zeta.
    eapply I_frame; [apply pollFrame_set_isResetting, pollFrame_refl|].
    apply I_observeDOM.
    eapply I_frame; [apply pollFrame_detectMessages, pollFrame_refl|exact Hs].
  - eapply I_frame; [apply pollFrame_fire; exact Hcb|exact Hs].
Qed.

Lemma reach_runUntil (w : World) (limit : Z) (fuel : nat) (s : State) :
  I s → I (runUntil w limit fuel s).
Proof.
  revert s. induction fuel as [|fuel IH]; intros s Hs; simpl; [done|].
  destruct (nextTimer (timers s)) as [t|]; [|done].
  destruct (due t <? limit); [|done].
  by apply IH, reach_fire, I_consume.
Qed.

Lemma reach_deliver (w : World) (fuel : nat) (i : Input) (s : State) :
  I s → I (deliver w fuel i s).
Proof.
  intros Hs. destruct i as [t mu|t]; simpl.
  - eapply I_frame; [apply pollFrame_onMutations|by apply reach_runUntil].
  - eapply I_frame; [apply pollFrame_checkUrlChange|by apply reach_runUntil].
Qed.

Lemma reach_simulate (w : World) (fuel : nat) (inputs : list Input) (s : State) :
  I s → I (simulate w fuel inputs s).
Proof.
  unfold simulate. revert s. induction inputs as [|i inputs IH]; intros s Hs; simpl; [done|].
  by apply IH, reach_deliver.
Qed.
End Reachable.

Lemma noPoll_frame (s s' : State) : pollFrame s s' → pollTimers s = [] → pollTimers s' = [].
Proof. intros (_ & _ & _ & H) Hs. rewrite Hs in H. by apply sublist_nil_r. Qed.

Lemma noPoll_consume (t : Timer) (s : State) :
  pollTimers s = [] → pollTimers (consume t s) = [].
Proof.
  intros Hs. unfold consume. destruct (period t) as [per|].
  - unfold pollTimers in *. simpl.
    rewrite polls_map by (intros u; by destruct (bool_decide _)). by rewrite Hs.
  - eapply noPoll_frame; [apply pollFrame_clearTimer, pollFrame_refl|exact Hs].
Qed.

Lemma noPoll_observeDOM (p : Platform) (now : Z) (s : State) :
  isDeepSeek p = false → isQwen p = false → currentPlatform s = Some p →
  pollTimers s = [] → pollTimers (observeDOM now s) = [].
Proof.
  intros Hds Hq Hp Hs. unfold observeDOM. rewrite Hp, Hds, Hq. cbv zeta.
  unfold clearDeepSeekInterval.
  destruct (hopperDeepSeekInterval (set_observer true s)) as [i|]; [|done].
  change (pollTimers (clearTimer (Some i) s) = []).
  eapply noPoll_frame; [apply pollFrame_clearTimer, pollFrame_refl|exact Hs].
Qed.

Lemma observeDOM_platform (now : Z) (s : State) :
  currentPlatform (observeDOM now s) = currentPlatform s.
Proof.
  unfold observeDOM. destruct (currentPlatform s) as [p|] eqn:Hp; [|done].
  unfold clearDeepSeekInterval, addTimer. cbv zeta.
  destruct (isDeepSeek p), (isQwen p), (hopperDeepSeekInterval (set_observer true s));
    simpl; try done;
    repeat match goal with |- context [match ?x with _ => _ end] => destruct x; simpl end;
    done.
Qed.

(** X8.  The fallback polls never pile up.  From the script's start, after
    [observeDOM] and whatever mutation batches, URL checks (teardowns and
    rebuilds included) and timer callbacks follow, at most one fallback poll
    ([setInterval] of DeepSeek or Qwen) is in the queue, and it is the one
    whose id the script holds in [__hopperDeepSeekInterval] (or
    [__hopperQwenInterval] on Qwen); on the other platforms there is none. *)
Theorem fallback_poll_single (p : Platform) (url : string) (w : World) (fuel : nat)
    (t0 limit : Z) (inputs : list Input) :
  let s := runUntil w limit fuel
             (simulate w fuel inputs (observeDOM t0 (initialState p url))) in
  (List.length (pollTimers s) <= 1)%nat
  ∧ (∀ t, t ∈ pollTimers s →
          (if isQwen p then hopperQwenInterval s else hopperDeepSeekInterval s)
          = Some (tid t))
  ∧ (isDeepSeek p = false → isQwen p = false → pollTimers s = []).
Proof.
  intros s.
  assert (Hinit : onePoll p (initialState p url)).
  { split; [done|]. split; [simpl; lia|]. intros t []%elem_of_nil. }
  assert (Hs : onePoll p s).
  { assert (HF := onePoll_frame p). assert (HO := fun now => onePoll_observeDOM p now).
    assert (HC := onePoll_consume p).
    apply (reach_runUntil _ HF), (reach_simulate _ HF), HO; try done.
    all: try (intros; by apply onePoll_observeDOM). }
  destruct Hs as (_ & H2 & H3). split; [done|]. split; [done|].
  intros Hds Hq.
  set (I := fun s => currentPlatform s = Some p ∧ pollTimers s = []).
  assert (HI : ∀ s1 s2, pollFrame s1 s2 → I s1 → I s2).
  { intros s1 s2 Hf [K1 K2]. split; [|by eapply noPoll_frame].
    destruct Hf as (-> & _). done. }
  assert (HO : ∀ now s1, I s1 → I (observeDOM now s1)).
  { intros now s1 [K1 K2]. split; [by rewrite observeDOM_platform|].
    by apply (noPoll_observeDOM p). }
  assert (HC : ∀ t s1, I s1 → I (consume t s1)).
  { intros t s1 [K1 K2]. split; [|by apply noPoll_consume].
    unfold consume. by destruct (period t). }
  apply (reach_runUntil I HI HO HC), (reach_simulate I HI HO HC), HO. by split.
Qed.

Lemma nextTimer_elem_of (l : list Timer) (t : Timer) : nextTimer l = Some t → t ∈ l.
Proof.
  revert t. induction l as [|x l IH]; intros t; simpl; [done|].
  destruct (nextTimer l) as [u|].
  - destruct (earlier u x); intros [= <-]; [right; by apply IH|left].
  - intros [= <-]. left.
Qed.

Lemma runUntil_none_due (w : World) (limit : Z) (fuel : nat) (s : State) :
  (∀ t, t ∈ timers s → limit <= due t) → runUntil w limit fuel s = s.
Proof.
  intros Hall. destruct fuel; simpl; [done|].
  destruct (nextTimer (timers s)) as [t|] eqn:Ht; [|done].
  apply nextTimer_elem_of, Hall in Ht. by destruct (Z.ltb_spec (due t) limit); [lia|].
Qed.


(** A teardown that finds only the debounce timer pending leaves the reset
    callback alone in the queue. *)
Lemma checkUrlChange_tornDown (now : Z) (h : Host) (s : State) (p : Platform) :
  currentPlatform s = Some p → isResetting s = false →
  normalizeUrl h (currentUrl s) ≠ normalizeUrl h (href h) →
  sidebarInjected (document h) = true →
  (∀ x, x ∈ timers s → observerTimeout s = Some (tid x)) →
  checkUrlChange now h s = tornDown now (href h) s.
Proof.
  intros Hp Hr Hurl Hside Hquiet. unfold checkUrlChange, tornDown. rewrite Hp, Hr.
  rewrite bool_decide_eq_false_2 by done.
  destruct s as [ms url pf ob rs ot st di qi tm nx lg]. simpl in *. subst pf.
  unfold updateUI. simpl. rewrite Hside.
  destruct ot as [i|].
  - assert (Hnil : List.filter (fun t => negb (bool_decide (tid t = i))) tm = []).
    { apply tracked_timers_removed. intros t Ht. by injection (Hquiet t Ht). }
    destruct ob; simpl; by rewrite Hnil.
  - assert (Hnil : tm = []).
    { destruct tm as [|t tm]; [done|]. by specialize (Hquiet t (list_elem_of_here _ _)). }
    subst tm. by destruct ob.
Qed.

Lemma tornDown_deaf (w : World) (fuel : nat) (now : Z) (url : string) (s : State)
    (inputs : list Input) :
  currentPlatform s ≠ None →
  Forall (fun i => inputTime i <= now + 1000) inputs →
  simulate w fuel inputs (tornDown now url s) = tornDown now url s.
Proof.
  intros Hp Hall. unfold simulate.
  induction Hall as [|i inputs Hi Hall IH]; simpl; [done|].
  assert (Hrun : runUntil w (inputTime i) fuel (tornDown now url s) = tornDown now url s).
  { apply runUntil_none_due. simpl. intros t ->%list_elem_of_singleton. simpl. lia. }
  destruct i as [t mu|t]; simpl in *; rewrite Hrun.
  - exact IH.
  - unfold checkUrlChange at 1. simpl.
    destruct (currentPlatform s); [|done]. by rewrite andb_false_r.
Qed.

(** Where a timer of a queue built by appending and cancelling comes from. *)
Ltac timer_origin H :=
  first
    [ apply list_elem_of_singleton in H as ->; right; simpl; split; [reflexivity|lia]
    | apply elem_of_app in H as [H|H]; timer_origin H
    | apply list_elem_of_In, filter_In in H as [H _]; apply list_elem_of_In in H;
      timer_origin H
    | left; exact H ].

Lemma observeDOM_frame (now : Z) (p : Platform) (s : State) :
  currentPlatform s = Some p →
  let s' := observeDOM now s in
  observer s' = true ∧ messages s' = messages s ∧ log s' = log s
  ∧ currentUrl s' = currentUrl s ∧ isResetting s' = isResetting s
  ∧ ∀ t, t ∈ timers s' → t ∈ timers s ∨ (callback t = CbPoll ∧ now + 1200 <= due t).
Proof.
  intros Hp. unfold observeDOM. rewrite Hp.
  destruct s as [ms url pf ob rs ot st di qi tm nx lg]. simpl in *.
  unfold clearDeepSeekInterval. simpl.
  destruct (isDeepSeek p), (isQwen p), di as [i|], qi as [j|]; simpl;
    repeat split; try done; intros t Ht; timer_origin Ht.
Qed.

(** X9.  A conversation switch that goes through.  When the URL has changed,
    no reset is in progress, the sidebar is there and nothing but the debounce
    timer is pending, [checkUrlChange] empties the sequence and disconnects
    the observer; for the next 1000 ms every mutation batch and every further
    URL check is ignored; then the reset callback runs exactly one pass over
    the page as it is at that instant, starting from the empty sequence,
    reconnects the observer and ends the reset. *)
Theorem teardown_rebuilds (w : World) (p : Platform) (s : State) (now limit : Z)
    (fuel : nat) (inputs : list Input) :
  currentPlatform s = Some p → isResetting s = false →
  normalizeUrl (w now) (currentUrl s) ≠ normalizeUrl (w now) (href (w now)) →
  sidebarInjected (document (w now)) = true →
  (∀ x, x ∈ timers s → observerTimeout s = Some (tid x)) →
  Forall (fun i => inputTime i <= now + 1000) inputs →
  now + 1000 < limit <= now + 2200 →
  let torn := checkUrlChange now (w now) s in
  let h' := w (now + 1000) in
  let rebuilt := runUntil w limit (S fuel) (simulate w fuel inputs torn) in
  (messages torn = [] ∧ observer torn = false ∧ isResetting torn = true
   ∧ simulate w fuel inputs torn = torn)
  ∧ isResetting rebuilt = false ∧ observer rebuilt = true
  ∧ currentUrl rebuilt = href (w now)
  ∧ messages rebuilt =
      (if hasDetectMessages p then
         match adapterDetectMessages h' with
         | Ok scan => nextMessages (document h') (name p) [] scan
         | Throw _ => []
         end
       else [])
  ∧ detectTimes (log rebuilt) = (detectTimes (log s) ++ [now + 1000])%list.
Proof.
  intros Hp Hr Hurl Hside Hquiet Hin Hlim torn h' rebuilt.
  assert (Htorn : torn = tornDown now (href (w now)) s) by by apply (checkUrlChange_tornDown _ _ _ p).
  assert (Hdeaf : simulate w fuel inputs torn = torn).
  { rewrite Htorn. apply tornDown_deaf; [by rewrite Hp|done]. }
  split; [rewrite Hdeaf, Htorn; by repeat split|].
  unfold rebuilt. rewrite Hdeaf, Htorn.
  set (t := mkTimer (nextTimerId s) (now + 1000) CbReset None).
  rewrite (runUntil_step _ _ _ _ t) by (simpl; first [done|lia]).
  assert (Hcons : consume t (tornDown now (href (w now)) s)
                  = set_timers [] (tornDown now (href (w now)) s)).
  { unfold consume, clearTimer, tornDown. simpl. by rewrite bool_decide_eq_true_2. }
  rewrite Hcons. simpl due. simpl callback. unfold fire. cbv zeta. fold h'.
  set (s0 := set_timers [] (tornDown now (href (w now)) s)).
  destruct (detectMessages_frame (now + 1000) h' s0) as (ms & evs & Hdet & Hevs & _).
  pose proof (detectMessages_messages (now + 1000) h' s0) as Hms.
  rewrite Hdet in Hms. simpl in Hms. rewrite Hp in Hms.
  set (s1 := detectMessages (now + 1000) h' s0) in *.
  assert (Hp1 : currentPlatform s1 = Some p) by (rewrite Hdet; simpl; done).
  destruct (observeDOM_frame (now + 1000) p s1 Hp1) as (Ho & Hm & Hl & Hu & _ & Ht).
  rewrite runUntil_none_due.
  - simpl. rewrite Ho, Hm, Hl, Hu. rewrite Hdet. simpl.
    repeat split; try done.
    rewrite !detectTimes_app. simpl. by rewrite Hevs, app_nil_r.
  - simpl. intros x [Hx|[_ Hx]]%Ht; [|lia].
    rewrite Hdet in Hx. simpl in Hx. by apply elem_of_nil in Hx.
Qed.

Lemma teardown_rebuilds_witness :
  let s := set_messages [oldChatMessage] (observeDOM 0 (initialState kimi "/chat/1")) in
  let inputs := [InMutations 2500 childListChange; InUrlCheck 2999] in
  let torn := checkUrlChange 2000 (navigation 2000) s in
  let rebuilt := runUntil navigation 3500 6 (simulate navigation 5 inputs torn) in
  messages torn = [] ∧ observer rebuilt = true ∧ isResetting rebuilt = false
  ∧ messages rebuilt = [newChatMessage] ∧ detectTimes (log rebuilt) = [3000].
Proof.
  intros s inputs torn rebuilt.
  destruct (teardown_rebuilds navigation kimi s 2000 3500 5 inputs)
    as ((Hm & _) & Hr & Ho & _ & Hms & Hd).
  - reflexivity.
  - reflexivity.
  - discriminate.
  - reflexivity.
  - intros x Hx. by apply elem_of_nil in Hx.
  - repeat constructor; simpl; lia.
  - lia.
  - split; [exact Hm|]. split; [exact Ho|]. split; [exact Hr|]. split; [exact Hms|exact Hd].
Defined.

Lemma resetFrame_refl (s : State) : resetFrame s s.
Proof. by repeat split. Qed.

Lemma resetFrame_clearTimer (s s' : State) (i : option nat) :
  resetFrame s s' → resetFrame s (clearTimer i s').
Proof.
  intros (H1 & H2 & H3 & H4). destruct i as [i|]; [|by repeat split].
  repeat split; try done. simpl.
  intros t [Ht _]%list_elem_of_In%filter_In. by apply H4, list_elem_of_In.
Qed.

Lemma resetFrame_queue (s s' : State) (i n : nat) (d : Z) (cb : Callback) (per : option Z) :
  cb ≠ CbReset → resetFrame s s' →
  resetFrame s (set_nextTimerId n (set_timers (timers s' ++ [mkTimer i d cb per]) s')).
Proof.
  intros Hcb (H1 & H2 & H3 & H4). repeat split; try done. simpl.
  intros t [Ht| ->%list_elem_of_singleton]%elem_of_app; [by apply H4|done].
Qed.

Lemma resetFrame_emit (s s' : State) (e : Event) : resetFrame s s' → resetFrame s (emit e s').
Proof. by intros (H1 & H2 & H3 & H4). Qed.

Lemma resetFrame_set_observerTimeout (s s' : State) (v : option nat) :
  resetFrame s s' → resetFrame s (set_observerTimeout v s').
Proof. by intros (H1 & H2 & H3 & H4). Qed.

Lemma resetFrame_set_streamingTimeout (s s' : State) (v : option nat) :
  resetFrame s s' → resetFrame s (set_streamingTimeout v s').
Proof. by intros (H1 & H2 & H3 & H4). Qed.

Lemma resetFrame_detectMessages (s s' : State) (now : Z) (h : Host) :
  resetFrame s s' → resetFrame s (detectMessages now h s').
Proof.
  intros (H1 & H2 & H3 & H4).
  destruct (detectMessages_frame now h s') as (ms & evs & -> & _). by repeat split.
Qed.

Lemma resetFrame_unqueue (s s' : State) (i : nat) :
  resetFrame s s' →
  resetFrame s (set_timers (List.filter (fun t => negb (bool_decide (tid t = i)))
                                        (timers s')) s').
Proof. apply (resetFrame_clearTimer s s' (Some i)). Qed.

Ltac reset_frame :=
  unfold addTimer; cbv beta iota zeta;
  repeat first
    [ apply resetFrame_refl
    | assumption
    | apply resetFrame_set_observerTimeout
    | apply resetFrame_set_streamingTimeout
    | apply resetFrame_emit
    | apply resetFrame_detectMessages
    | apply resetFrame_clearTimer
    | apply resetFrame_unqueue
    | apply resetFrame_queue; [discriminate|] ].

Lemma resetFrame_onMutations (s : State) (t : Z) (mu : Mutations) :
  resetFrame s (onMutations t mu s).
Proof.
  unfold onMutations. destruct (observer s); simpl; [|reset_frame].
  destruct (currentPlatform (clearTimer (observerTimeout s) s)) as [p|].
  - destruct (hasRelevantChanges mu && isDeepSeek p && hasMessageNodes mu);
      [simpl; reset_frame|].
    destruct (hasRelevantChanges mu && isQwen p && hasQwenMessages mu);
      [simpl; reset_frame|].
    destruct (streamingTimeout (clearTimer (observerTimeout s) s)); simpl; reset_frame.
  - destruct (streamingTimeout (clearTimer (observerTimeout s) s)); simpl; reset_frame.
Qed.

Lemma resetFrame_fire (cb : Callback) (now : Z) (h : Host) (s : State) :
  cb ≠ CbReset → resetFrame s (fire cb now h s).
Proof.
  intros Hcb. destruct cb; try done; unfold fire;
    try (destruct (currentPlatform s) as [p|]; [|reset_frame]);
    cbv zeta; poll_cases; reset_frame.
Qed.

Lemma stuckInReset_frame (s s' : State) :
  resetFrame s s' → stuckInReset s → stuckInReset s'.
Proof.
  intros (H1 & _ & _ & H4) [K1 K2]. split; [congruence|].
  intros t Ht Hcb. by apply (K2 t); [apply H4|].
Qed.

Lemma stuckInReset_consume (t : Timer) (s : State) :
  stuckInReset s → stuckInReset (consume t s).
Proof.
  intros [K1 K2]. unfold consume. destruct (period t) as [per|].
  - split; [done|]. simpl. intros x (u & -> & Hu)%list_elem_of_fmap.
    specialize (K2 u Hu). by destruct (bool_decide _).
  - eapply stuckInReset_frame; [apply resetFrame_clearTimer, resetFrame_refl|done].
Qed.

Lemma consume_other_timers (t x : Timer) (s : State) :
  x ∈ timers (consume t s) → ∃ u, u ∈ timers s ∧ callback x = callback u.
Proof.
  unfold consume. destruct (period t) as [per|]; simpl.
  - intros (u & -> & Hu)%list_elem_of_fmap. exists u. split; [done|].
    by destruct (bool_decide _).
  - intros [Hx _]%list_elem_of_In%filter_In. exists x. by split; [apply list_elem_of_In|].
Qed.

Lemma stuckAt_frame (url : string) (s s' : State) :
  resetFrame s s' → stuckAt url s → stuckAt url s'.
Proof.
  intros Hf [Hs Hu]. split; [by eapply stuckInReset_frame|].
  destruct Hf as (_ & -> & _). done.
Qed.

Lemma checkUrlChange_resetting (now : Z) (h : Host) (s : State) :
  isResetting s = true → checkUrlChange now h s = s.
Proof.
  intros Hr. unfold checkUrlChange. destruct (currentPlatform s); [|done].
  by rewrite Hr, andb_false_r.
Qed.

Lemma stuckAt_runUntil (url : string) (w : World) (limit : Z) (fuel : nat) (s : State) :
  stuckAt url s → stuckAt url (runUntil w limit fuel s).
Proof.
  revert s. induction fuel as [|fuel IH]; intros s Hs; simpl; [done|].
  destruct (nextTimer (timers s)) as [t|] eqn:Ht; [|done].
  destruct (due t <? limit); [|done].
  apply IH. apply nextTimer_elem_of in Ht.
  eapply stuckAt_frame.
  - apply resetFrame_fire. destruct Hs as [[_ Hs] _]. by apply Hs.
  - destruct Hs as [Hs Hu]. split; [by apply stuckInReset_consume|].
    unfold consume. by destruct (period t).
Qed.

Lemma stuckAt_simulate (url : string) (w : World) (fuel : nat) (inputs : list Input)
    (s : State) :
  stuckAt url s → stuckAt url (simulate w fuel inputs s).
Proof.
  unfold simulate. revert s. induction inputs as [|i inputs IH]; intros s Hs; simpl; [done|].
  apply IH. destruct i as [t mu|t]; simpl.
  - eapply stuckAt_frame; [apply resetFrame_onMutations|by apply stuckAt_runUntil].
  - pose proof (stuckAt_runUntil url w t fuel s Hs) as Hr.
    rewrite checkUrlChange_resetting; [done|]. by destruct Hr as [[Hr _] _].
Qed.

(** X10.  A teardown that fails half way is never repaired.  When the sidebar
    badge is missing at the moment [checkUrlChange] notices a URL change,
    [updateUI] raises before the reset callback is scheduled: the sequence
    has been emptied and the observer disconnected, and [isResetting] stays
    true through every later mutation batch, URL check and timer callback,
    so no later URL change is ever noticed ([currentUrl] stays what it was
    set to) and no reset callback is ever pending. *)
Theorem failed_teardown_sticks (w : World) (p : Platform) (s : State) (now limit : Z)
    (fuel : nat) (inputs : list Input) :
  currentPlatform s = Some p → isResetting s = false →
  normalizeUrl (w now) (currentUrl s) ≠ normalizeUrl (w now) (href (w now)) →
  sidebarInjected (document (w now)) = false →
  (∀ t, t ∈ timers s → callback t ≠ CbReset) →
  let stuck := checkUrlChange now (w now) s in
  let s' := runUntil w limit fuel (simulate w fuel inputs stuck) in
  (messages stuck = [] ∧ observer stuck = false)
  ∧ isResetting s' = true ∧ currentUrl s' = href (w now)
  ∧ ∀ t, t ∈ timers s' → callback t ≠ CbReset.
Proof.
  intros Hp Hr Hurl Hside Hno stuck s'.
  split.
  { by destruct (checkUrlChange_teardown now (w now) s p Hp Hr Hurl) as (H1 & H2 & _). }
  assert (Hstuck : stuckAt (href (w now)) stuck).
  { unfold stuck, checkUrlChange. rewrite Hp, Hr.
    rewrite bool_decide_eq_false_2 by done.
    destruct s as [ms url pf ob rs ot st di qi tm nx lg]. simpl in *.
    unfold updateUI. simpl. rewrite Hside.
    destruct ob, ot as [i|]; simpl; (split; [split|]; try done); simpl;
      try (intros t [Ht _]%list_elem_of_In%filter_In; by apply Hno, list_elem_of_In). }
  destruct (stuckAt_runUntil _ w limit fuel _ (stuckAt_simulate _ w fuel inputs _ Hstuck))
    as [[H1 H2] H3].
  done.
Qed.

Lemma failed_teardown_sticks_witness :
  let s := set_messages [oldChatMessage] (observeDOM 0 (initialState kimi "/chat/1")) in
  let inputs := [InMutations 2500 childListChange; InUrlCheck 3000; InUrlCheck 6000] in
  let stuck := checkUrlChange 2000 (navigationWithoutSidebar 2000) s in
  let s' := runUntil navigationWithoutSidebar 9000 6
              (simulate navigationWithoutSidebar 6 inputs stuck) in
  href (navigationWithoutSidebar 6000) = "/chat/3"
  ∧ isResetting s' = true ∧ currentUrl s' = "/chat/2".
Proof.
  intros s inputs stuck s'. split; [reflexivity|].
  destruct (failed_teardown_sticks navigationWithoutSidebar kimi s 2000 9000 6 inputs)
    as (_ & Hr & Hu & _).
  - reflexivity.
  - reflexivity.
  - discriminate.
  - reflexivity.
  - intros x Hx. by apply elem_of_nil in Hx.
  - split; [exact Hr|exact Hu].
Defined.

Section PrimingFacts.
Import Priming.

Lemma maxAttempts_ge (p : Platform) : (10 <= maxAttempts p)%nat.
Proof. unfold maxAttempts. destruct (isKimi p); lia. Qed.

(** Every call counts, and a follow-up is scheduled only below [maxAttempts]. *)
Lemma tryDetect_counts (p : Platform) (ready : bool) (now : Z) (h : Host) (n : nat)
    (s : State) :
  let '(n', _, next) := tryDetect p ready now h n s in
  n' = S n ∧ (is_Some next → (S n < maxAttempts p)%nat).
Proof.
  unfold tryDetect. cbv zeta.
  repeat match goal with
         | |- context [if ?b then _ else _] => destruct b eqn:?
         end;
    (split; [reflexivity|]); intros [x Hx]; try discriminate;
    repeat match goal with
           | H : (_ <? _)%nat = true |- _ => apply Nat.ltb_lt in H
           | H : _ && _ = true |- _ => apply andb_true_iff in H as [? ?]
           end; lia.
Qed.

Lemma prime_bound (w : World) (fuel : nat) (p : Platform) (calls : list Call)
    (pending n : nat) (s : State) :
  (pending <= 3)%nat → (n + pending <= maxAttempts p + 2)%nat →
  let '(n', k, _) := prime w fuel p calls pending n s in
  (k <= 3)%nat ∧ (n' + k <= maxAttempts p + 2)%nat.
Proof.
  revert pending n s. induction calls as [|c calls IH]; intros pending n s Hk Hn; simpl.
  - done.
  - destruct pending as [|k]; [done|].
    pose proof (tryDetect_counts p (containerReady c) (callTime c) (w (callTime c)) n
                  (runUntil w (callTime c) fuel (simulate w fuel (since c) s))) as Hc.
    destruct (tryDetect _ _ _ _ _ _) as [[n' s'] next]. destruct Hc as [-> Hnext].
    apply IH; destruct next as [d|]; try lia.
    specialize (Hnext (mk_is_Some _ _ eq_refl)). lia.
Qed.

End PrimingFacts.

(** X11.  The priming of [init] ends, two calls later than [maxAttempts]
    says.  Whatever the page shows and whatever else runs in between,
    [tryDetect] is called at most [maxAttempts + 2] times (12 times, 17 on
    Kimi): the counter is shared by the three calls [init] starts, and each
    of them stops rescheduling only when the counter has reached
    [maxAttempts]. *)
Theorem priming_attempts_bounded (w : World) (fuel : nat) (p : Platform)
    (calls : list Priming.Call) (s : State) :
  let '(attempts, pending, _) := Priming.init w fuel p calls s in
  (attempts + pending <= Priming.maxAttempts p + 2)%nat
  ∧ (Priming.maxAttempts p + 2 <= 17)%nat.
Proof.
  unfold Priming.init.
  pose proof (prime_bound w fuel p calls 3 0 s) as H.
  destruct (Priming.prime _ _ _ _ _ _ _) as [[n k] s'].
  pose proof (maxAttempts_ge p). split; [apply H; lia|].
  unfold Priming.maxAttempts. destruct (Priming.isKimi p); lia.
Qed.

Section PrimingEmptyPage.
Import Priming.
Variable w : World.
Variable p : Platform.
Hypothesis w_empty : ∀ t, adapterDetectMessages (w t) = Ok [].
Hypothesis p_no_poll : isDeepSeek p = false ∧ isQwen p = false.

Lemma detectMessages_blank (now : Z) (s : State) :
  blank p s → blank p (detectMessages now (w now) s).
Proof.
  intros (Hp & Hm & Ht).
  pose proof (detectMessages_messages now (w now) s) as Hms.
  rewrite Hp, w_empty, Hm in Hms.
  destruct (detectMessages_frame now (w now) s) as (ms & evs & Heq & _).
  rewrite Heq in *. simpl in *. repeat split; try done.
  by destruct (hasDetectMessages p).
Qed.

Lemma observeDOM_blank (now : Z) (s : State) :
  blank p s → blank p (observeDOM now s) ∧ observer (observeDOM now s) = true.
Proof.
  intros (Hp & Hm & Ht). destruct p_no_poll as [Hds Hq].
  destruct (observeDOM_frame now p s Hp) as (Ho & Hm' & _ & _ & _ & Htm).
  split; [|done]. repeat split.
  - by rewrite observeDOM_platform.
  - by rewrite Hm'.
  - pose proof (noPoll_observeDOM p now s Hds Hq Hp) as Hnp.
    unfold pollTimers in Hnp. rewrite Ht in Hnp. specialize (Hnp eq_refl).
    destruct (timers (observeDOM now s)) as [|t tm] eqn:Htimers; [done|exfalso].
    destruct (Htm t (list_elem_of_here _ _)) as [Hin|[Hcb _]].
    + rewrite Ht in Hin. by apply elem_of_nil in Hin.
    + simpl in Hnp. by rewrite bool_decide_eq_true_2 in Hnp.
Qed.

Lemma tryDetect_blank (ready : bool) (now : Z) (n : nat) (s : State) :
  blank p s →
  let '(n', s', next) := tryDetect p ready now (w now) n s in
  n' = S n ∧ blank p s'
  ∧ ((S n < maxAttempts p)%nat → is_Some next)
  ∧ ((maxAttempts p <= S n)%nat → next = None ∧ observer s' = true).
Proof.
  intros Hs. unfold tryDetect. cbv zeta.
  pose proof (maxAttempts_ge p) as Hmax.
  destruct (isKimi p && (S n <=? 3)%nat && negb ready) eqn:Hearly.
  - apply andb_true_iff in Hearly as [[_ Hn%Nat.leb_le]%andb_true_iff _].
    rewrite (proj2 (Nat.ltb_lt _ _)) by lia.
    split; [done|]. split; [done|]. split; [intros _; by eexists|intros ?; lia].
  - pose proof (detectMessages_blank now s Hs) as Hd.
    destruct Hs as (_ & Hm & _). rewrite Hm.
    destruct Hd as (Hp' & Hm' & Ht'). rewrite Hm'. simpl.
    destruct (Nat.ltb_spec (S n) (maxAttempts p)) as [Hlt|Hge].
    + split; [done|]. split; [done|]. split; [intros _; by eexists|intros ?; lia].
    + rewrite (proj2 (Nat.leb_le _ _)) by lia. simpl.
      destruct (observeDOM_blank now (detectMessages now (w now) s)) as [Hb Ho]; [done|].
      split; [done|]. split; [done|]. split; [intros ?; lia|done].
Qed.

Lemma prime_blank (fuel : nat) (calls : list Call) (n k : nat) (s : State) :
  blank p s → Forall (fun c => since c = []) calls →
  (maxAttempts p - 1 - n + k <= List.length calls)%nat →
  (1 <= k)%nat →
  let '(n', k', s') := prime w fuel p calls k n s in
  n' = (n + (maxAttempts p - 1 - n) + k)%nat ∧ k' = 0%nat
  ∧ observer s' = true ∧ messages s' = [].
Proof.
  revert n k s. induction calls as [|c calls IH]; intros n k s Hs Hall Hlen Hk; simpl.
  - simpl in Hlen. lia.
  - destruct k as [|k]; [lia|].
    apply Forall_cons in Hall as [Hc Hall]. rewrite Hc.
    unfold simulate at 1. simpl.
    rewrite runUntil_idle by apply Hs.
    pose proof (tryDetect_blank (containerReady c) (callTime c) n s Hs) as Htry.
    destruct (tryDetect _ _ _ _ _ _) as [[n' s'] next].
    destruct Htry as (-> & Hs' & Hsome & Hnone).
    destruct (Nat.ltb_spec (S n) (maxAttempts p)) as [Hlt|Hge].
    + destruct (Hsome Hlt) as [d ->]. simpl in Hlen.
      specialize (IH (S n) (k + 1)%nat s' Hs' Hall).
      destruct (prime _ _ _ _ _ _ _) as [[n2 k2] s2].
      destruct IH as (-> & -> & Ho & Hm); try lia. repeat split; try done. lia.
    + destruct (Hnone Hge) as [-> Ho]. simpl in Hlen.
      destruct k as [|k].
      * simpl. destruct calls; simpl;
          (split; [lia|]; split; [done|]; split; [done|apply Hs']).
      * specialize (IH (S n) (S k + 0)%nat s' Hs' Hall).
        destruct (prime _ _ _ _ _ _ _) as [[n2 k2] s2].
        destruct IH as (-> & -> & Ho2 & Hm); try lia. repeat split; try done. lia.
Qed.

End PrimingEmptyPage.

(** X12.  On a page where the adapter never finds a message, with nothing
    else going on, the priming runs exactly [maxAttempts + 2] calls of
    [tryDetect]: every call below [maxAttempts] reschedules itself, and the
    three chains [init] started each run once more at or above it.  The
    observer is connected by then, and the sequence is still empty. *)
Theorem priming_empty_page (w : World) (p : Platform) (fuel : nat)
    (calls : list Priming.Call) (s : State) :
  (∀ t, adapterDetectMessages (w t) = Ok []) →
  isDeepSeek p = false → isQwen p = false →
  blank p s → Forall (fun c => Priming.since c = []) calls →
  (Priming.maxAttempts p + 2 <= List.length calls)%nat →
  let '(attempts, pending, s') := Priming.init w fuel p calls s in
  attempts = (Priming.maxAttempts p + 2)%nat ∧ pending = 0%nat
  ∧ observer s' = true ∧ messages s' = [].
Proof.
  intros Hw Hds Hq Hs Hall Hlen. unfold Priming.init.
  pose proof (maxAttempts_ge p) as Hmax.
  pose proof (prime_blank w p Hw (conj Hds Hq) fuel calls 0 3 s Hs Hall) as H.
  destruct (Priming.prime _ _ _ _ _ _ _) as [[n k] s'].
  destruct H as (-> & -> & Ho & Hm); try lia. repeat split; try done. lia.
Qed.

Lemma priming_empty_page_witness :
  let '(attempts, pending, s') :=
    Priming.init emptyPage 3 kimi (quietCalls 20) (initialState kimi "/chat/1") in
  attempts = 17%nat ∧ pending = 0%nat ∧ observer s' = true ∧ messages s' = [].
Proof.
  apply (priming_empty_page emptyPage kimi 3 (quietCalls 20) (initialState kimi "/chat/1")).
  - reflexivity.
  - reflexivity.
  - reflexivity.
  - repeat split.
  - repeat constructor.
  - simpl. lia.
Defined.

Lemma currentPlatform_reached (p : Platform) (w : World) (fuel : nat) (t : Z)
    (inputs : list Input) (s : State) :
  currentPlatform s = Some p →
  currentPlatform (runUntil w t fuel (simulate w fuel inputs s)) = Some p.
Proof.
  intros Hp.
  set (I := fun s => currentPlatform s = Some p).
  assert (HF : ∀ s1 s2, pollFrame s1 s2 → I s1 → I s2).
  { intros s1 s2 (H1 & _) Hs1. unfold I. by rewrite H1. }
  assert (HO : ∀ now s1, I s1 → I (observeDOM now s1)).
  { intros now s1 Hs1. unfold I. by rewrite observeDOM_platform. }
  assert (HC : ∀ x s1, I s1 → I (consume x s1)).
  { intros x s1 Hs1. unfold I, consume. by destruct (period x). }
  by apply (reach_runUntil I HF HO HC), (reach_simulate I HF HO HC).
Qed.

Section PrimingObserver.
Import Priming.

(** A call that schedules no follow-up has connected the observer. *)
Lemma tryDetect_observes (p : Platform) (ready : bool) (now : Z) (h : Host) (n : nat)
    (s : State) :
  currentPlatform s = Some p →
  let '(_, s', next) := tryDetect p ready now h n s in
  currentPlatform s' = Some p ∧ (next = None → observer s' = true).
Proof.
  intros Hp. unfold tryDetect. cbv zeta.
  pose proof (maxAttempts_ge p) as Hmax.
  assert (Hp1 : currentPlatform (detectMessages now h s) = Some p)
    by by rewrite detectMessages_currentPlatform.
  destruct (observeDOM_frame now p _ Hp1) as (Ho & _).
  assert (Hp2 : currentPlatform (observeDOM now (detectMessages now h s)) = Some p)
    by by rewrite observeDOM_platform.
  destruct (isKimi p && (S n <=? 3)%nat && negb ready) eqn:Hearly.
  - apply andb_true_iff in Hearly as [[_ Hn%Nat.leb_le]%andb_true_iff _].
    rewrite (proj2 (Nat.ltb_lt _ _)) by lia. done.
  - destruct (_ <? List.length (messages (detectMessages now h s)))%nat; [done|].
    destruct (Nat.eqb_spec (List.length (messages (detectMessages now h s))) 0) as [H0|H0];
      simpl.
    + destruct (Nat.ltb_spec (S n) (maxAttempts p)); [done|].
      rewrite H0. simpl. by rewrite (proj2 (Nat.leb_le _ _)) by lia.
    + by rewrite (proj2 (Nat.ltb_lt 0 _)) by lia.
Qed.

Lemma prime_observes (w : World) (fuel : nat) (p : Platform) (calls : list Call)
    (k n : nat) (s : State) :
  currentPlatform s = Some p → calls ≠ [] → (1 <= k)%nat →
  let '(_, pending, s') := prime w fuel p calls k n s in
  pending = 0%nat → observer s' = true.
Proof.
  revert k n s. induction calls as [|c calls IH]; intros k n s Hp Hne Hk; [done|].
  simpl. destruct k as [|k]; [lia|].
  pose proof (currentPlatform_reached p w fuel (callTime c) (since c) s Hp) as Hp1.
  pose proof (tryDetect_observes p (containerReady c) (callTime c) (w (callTime c)) n
                _ Hp1) as Htry.
  destruct (tryDetect _ _ _ _ _ _) as [[n' s'] next]. destruct Htry as [Hp' Hnext].
  destruct (decide (k + match next with Some _ => 1 | None => 0 end = 0)%nat) as [H0|H0].
  - rewrite H0. destruct next; [lia|].
    destruct calls; simpl; intros _; by apply Hnext.
  - destruct calls as [|c' calls'].
    + simpl. intros. lia.
    + apply IH; [done|done|lia].
Qed.

End PrimingObserver.

(** X13.  The priming never ends without an observer.  Whatever the page
    shows and whatever runs in between, when the last pending call of
    [tryDetect] has run, [observeDOM] has been called by it: a call either
    schedules a follow-up or connects the observer. *)
Theorem priming_ends_observing (w : World) (fuel : nat) (p : Platform)
    (calls : list Priming.Call) (s : State) :
  currentPlatform s = Some p → calls ≠ [] →
  let '(_, pending, s') := Priming.init w fuel p calls s in
  pending = 0%nat → observer s' = true.
Proof.
  intros Hp Hne. unfold Priming.init.
  apply (prime_observes w fuel p calls 3 0 s Hp Hne). lia.
Qed.

Lemma priming_ends_observing_witness :
  let '(_, pending, s') :=
    Priming.init (streamingUntil 0 [helloAt0]) 3 kimi (quietCalls 5)
                 (initialState kimi "/chat/1") in
  pending = 0%nat ∧ observer s' = true.
Proof.
  pose proof (priming_ends_observing (streamingUntil 0 [helloAt0]) 3 kimi (quietCalls 5)
                (initialState kimi "/chat/1") eq_refl) as H.
  destruct (Priming.init _ _ _ _ _) as [[n k] s'] eqn:Hinit.
  assert (Hk : k = 0%nat).
  { apply (f_equal (fun x => x.1.2)) in Hinit. simpl in Hinit. rewrite <- Hinit.
    vm_compute. reflexivity. }
  split; [exact Hk|]. apply H; [discriminate|exact Hk].
Defined.

Section ContainerFacts.
Import Container.
Variable doc : Document.
Variable bx : Boxes.
Variable platformName : option string.

Lemma scrollableHere_test (q : Node) :
  (hasOverflow bx q && (50 <? scrollSpace bx q))
  || (bool_decide (platformName = Some "Kimi") && (50 <? scrollSpace bx q)) = true
  ↔ scrollableHere bx platformName q.
Proof.
  unfold scrollableHere.
  rewrite orb_true_iff, !andb_true_iff, Z.ltb_lt, bool_decide_eq_true. tauto.
Qed.

Lemma climbScrollable_nearest (depth : nat) (parent : option Node) :
  match climbScrollable doc bx platformName depth parent with
  | Some a =>
      ∃ k, (k < depth)%nat ∧ parent ≫= ancestor doc k = Some a
           ∧ scrollableHere bx platformName a
           ∧ ∀ j q, (j < k)%nat → parent ≫= ancestor doc j = Some q →
                    ¬ scrollableHere bx platformName q
  | None =>
      ∀ j q, (j < depth)%nat → parent ≫= ancestor doc j = Some q →
             ¬ scrollableHere bx platformName q
  end.
Proof.
  revert parent. induction depth as [|depth IH]; intros parent; simpl.
  - intros j q Hj. lia.
  - destruct parent as [q0|]; [|by intros j q _ Hq].
    destruct (_ || _) eqn:Htest.
    + apply scrollableHere_test in Htest. exists 0%nat.
      split; [lia|]. split; [done|]. split; [done|]. intros j q Hj. lia.
    + assert (Hq0 : ¬ scrollableHere bx platformName q0).
      { intros H%scrollableHere_test. congruence. }
      specialize (IH (parentElement doc q0)).
      destruct (climbScrollable _ _ _ depth (parentElement doc q0)) as [a|].
      * destruct IH as (k & Hk & Ha & Hsa & Hnear). exists (S k).
        split; [lia|]. split; [exact Ha|]. split; [done|].
        intros j q Hj Hq. destruct j as [|j].
        -- simpl in Hq. by injection Hq as <-.
        -- apply (Hnear j q); [lia|exact Hq].
      * intros j q Hj Hq. destruct j as [|j].
        -- simpl in Hq. by injection Hq as <-.
        -- apply (IH j q); [lia|exact Hq].
Qed.

End ContainerFacts.

(** X14.  [findScrollableAncestor] returns the nearest proper ancestor of the
    node, at most 15 levels up, whose content exceeds its box by more than
    50px and which either declares a scrolling overflow or sits on Kimi; it
    returns null exactly when none of the first 15 ancestors is such an
    element.  The node itself is never returned. *)
Theorem findScrollableAncestor_nearest (doc : Document) (bx : Container.Boxes)
    (platformName : option string) (node : Node) :
  match Container.findScrollableAncestor doc bx platformName node with
  | Some a =>
      ∃ k, (1 <= k <= 15)%nat ∧ ancestor doc k node = Some a
           ∧ scrollableHere bx platformName a
           ∧ ∀ j q, (1 <= j < k)%nat → ancestor doc j node = Some q →
                    ¬ scrollableHere bx platformName q
  | None =>
      ∀ j q, (1 <= j <= 15)%nat → ancestor doc j node = Some q →
             ¬ scrollableHere bx platformName q
  end.
Proof.
  unfold Container.findScrollableAncestor.
  pose proof (climbScrollable_nearest doc bx platformName 15 (parentElement doc node)) as H.
  destruct (Container.climbScrollable _ _ _ _ _) as [a|].
  - destruct H as (k & Hk & Ha & Hsa & Hnear). exists (S k).
    split; [lia|]. split; [exact Ha|]. split; [done|].
    intros j q Hj Hq. destruct j as [|j]; [lia|]. apply (Hnear j q); [lia|exact Hq].
  - intros j q Hj Hq. destruct j as [|j]; [lia|]. apply (H j q); [lia|exact Hq].
Qed.

Section ResolveFacts.
Import Container.
Variable doc : Document.
Variable bx : Boxes.
Variable platformName : option string.

Lemma firstMatch_parses (selectors : list string) :
  Forall (fun sel => ∃ r, querySelector doc sel = Ok r) selectors →
  ∃ r, firstMatch doc selectors = Ok r.
Proof.
  induction 1 as [|sel rest [r Hr] _ IH]; simpl; [by eexists|].
  rewrite Hr. destruct r; [by eexists|exact IH].
Qed.

(** Invariant of the selection loop. *)
Lemma pickBest_invariant (candidates : list Node) :
  let '(best, bestDelta) := pickBest doc bx candidates in
  match best with
  | Some b =>
      b ∈ candidates ∧ isScrollableCandidate doc bx (Some b) 80 = true
      ∧ bestDelta = scrollSpace bx b
      ∧ ∀ x, x ∈ candidates → isScrollableCandidate doc bx (Some x) 80 = true →
             scrollSpace bx x <= scrollSpace bx b
  | None =>
      bestDelta = 0
      ∧ ∀ x, x ∈ candidates → isScrollableCandidate doc bx (Some x) 80 = false
  end.
Proof.
  unfold pickBest.
  induction candidates as [|c candidates IH] using rev_ind; cbn [foldl].
  - split; [done|]. intros x Hx. by apply elem_of_nil in Hx.
  - rewrite foldl_app. cbn [foldl].
    destruct (foldl _ (None, 0) candidates) as [best bestDelta].
    assert (Hroom : isScrollableCandidate doc bx (Some c) 80 = true → 10 < scrollSpace bx c).
    { unfold isScrollableCandidate. destruct (negb (isConnected doc c)); [done|].
      destruct (Z.ltb_spec 80 (scrollSpace bx c)); [lia|].
      intros [_ Hlt%Z.ltb_lt]%andb_true_iff. lia. }
    destruct (negb (isConnected doc c)) eqn:Hconn.
    + assert (Hc : isScrollableCandidate doc bx (Some c) 80 = false).
      { unfold isScrollableCandidate. by rewrite Hconn. }
      destruct best as [b|].
      * destruct IH as (Hb & Hsb & Hd & Hmax). split; [set_solver|]. split; [done|].
        split; [done|]. intros x [Hx| ->%list_elem_of_singleton]%elem_of_app Hsx;
          [by apply Hmax|congruence].
      * destruct IH as (Hd & Hnone). split; [done|].
        intros x [Hx| ->%list_elem_of_singleton]%elem_of_app; [by apply Hnone|done].
    + destruct (isScrollableCandidate doc bx (Some c) 80) eqn:Hsc; cbn [andb].
      * specialize (Hroom eq_refl).
        destruct (Z.leb_spec bestDelta (scrollSpace bx c)) as [Hle|Hgt].
        -- split; [set_solver|]. split; [done|]. split; [done|].
           intros x [Hx| ->%list_elem_of_singleton]%elem_of_app Hsx; [|lia].
           destruct best as [b|].
           ++ destruct IH as (_ & _ & Hd & Hmax). specialize (Hmax x Hx Hsx). lia.
           ++ destruct IH as (_ & Hnone). rewrite (Hnone x Hx) in Hsx. done.
        -- destruct best as [b|].
           ++ destruct IH as (Hb & Hsb & Hd & Hmax). split; [set_solver|].
              split; [done|]. split; [done|].
              intros x [Hx| ->%list_elem_of_singleton]%elem_of_app Hsx;
                [by apply Hmax|lia].
           ++ destruct IH as (Hd & _). lia.
      * destruct best as [b|].
        -- destruct IH as (Hb & Hsb & Hd & Hmax). split; [set_solver|]. split; [done|].
           split; [done|]. intros x [Hx| ->%list_elem_of_singleton]%elem_of_app Hsx;
             [by apply Hmax|congruence].
        -- destruct IH as (Hd & Hnone). split; [done|].
           intros x [Hx| ->%list_elem_of_singleton]%elem_of_app; [by apply Hnone|done].
Qed.

End ResolveFacts.

(** X15.  [getKimiScrollContainer].  A cached container that is still
    attached and scrollable is returned as it is, whatever the target.
    Otherwise the function looks at the candidates (the target, its
    ancestors, their closest matches and the page's matches of the Kimi
    selectors): if none is a scrollable candidate it returns the page's
    scrolling element; else it returns a scrollable candidate with the most
    scroll room among them.  The container returned is cached. *)
Theorem getKimiScrollContainer_best (doc : Document) (bx : Container.Boxes)
    (cache : option Node) (target : Node) :
  let '(c, cache') := Container.getKimiScrollContainer doc bx cache target in
  let scrollable x := Container.isScrollableCandidate doc bx (Some x) 80 = true in
  let candidates := Container.kimiCandidates doc target in
  (Container.isScrollableCandidate doc bx cache 80 = true → cache = Some c ∧ cache' = cache)
  ∧ (Container.isScrollableCandidate doc bx cache 80 = false →
     cache' = Some c
     ∧ ((∀ x, x ∈ candidates → ¬ scrollable x) → c = Container.scrollingElement bx)
     ∧ ∀ x, x ∈ candidates → scrollable x →
            c ∈ candidates ∧ scrollable c
            ∧ Container.scrollSpace bx x <= Container.scrollSpace bx c).
Proof.
  unfold Container.getKimiScrollContainer.
  destruct (Container.isScrollableCandidate doc bx cache 80) eqn:Hcache.
  - destruct cache as [c|]; [|done]. cbn [default from_option]. split; [done|]. intros ?. done.
  - pose proof (pickBest_invariant doc bx (Container.kimiCandidates doc target)) as H.
    destruct (Container.pickBest _ _ _) as [best bestDelta]. cbn [fst].
    destruct best as [b|]; cbv zeta.
    + destruct H as (Hb & Hsb & _ & Hmax). split; [done|]. intros _.
      split; [done|]. split.
      * intros Hnone. by destruct (Hnone b Hb).
      * intros x Hx Hsx. split; [done|]. split; [done|]. by apply Hmax.
    + destruct H as (_ & Hnone). split; [done|]. intros _.
      split; [done|]. split; [done|].
      intros x Hx Hsx. rewrite (Hnone x Hx) in Hsx. done.
Qed.

(** X16.  [resolveScrollContainer], when the page answers its selectors:
    the container returned is the page's scrolling element or an element
    whose content exceeds its box by more than 10px; a scrollable ancestor
    of the target other than [body] replaces the container the platform's
    selectors found (except on Grok) and is then the one returned; only the
    Kimi path touches the cache. *)
Theorem resolveScrollContainer_result (doc : Document) (bx : Container.Boxes)
    (platformName : option string) (cache : option Node) (target : Node) :
  Forall (fun sel => ∃ r, querySelector doc sel = Ok r)
         (Container.platformSelectors platformName) →
  ∃ c cache',
    Container.resolveScrollContainer doc bx platformName cache target = Ok (c, cache')
    ∧ (c = Container.scrollingElement bx ∨ 10 < Container.scrollSpace bx c)
    ∧ (platformName ≠ Some "Kimi" → cache' = cache)
    ∧ ∀ a, Container.findScrollableAncestor doc bx platformName target = Some a →
           a ≠ Container.body bx → platformName ≠ Some "Grok" → c = a.
Proof.
  intros Hparse. unfold Container.resolveScrollContainer.
  assert (Hfound : ∃ container cache',
            (if bool_decide (platformName = Some "Kimi")
             then let '(c, cache0) := Container.getKimiScrollContainer doc bx cache target in
                  Ok (Some c, cache0)
             else match Container.firstMatch doc (Container.platformSelectors platformName) with
                  | Throw e => Throw e
                  | Ok c => Ok (c, cache)
                  end) = Ok (container, cache')
            ∧ (platformName ≠ Some "Kimi" → cache' = cache)).
  { destruct (bool_decide (platformName = Some "Kimi")) eqn:Hk.
    - apply bool_decide_eq_true in Hk.
      destruct (Container.getKimiScrollContainer doc bx cache target) as [c cache0].
      exists (Some c), cache0. split; [done|]. intros ?. done.
    - destruct (firstMatch_parses doc _ Hparse) as [r ->]. by exists r, cache. }
  destruct Hfound as (container & cache' & -> & Hcache).
  pose proof (climbScrollable_nearest doc bx platformName 15 (parentElement doc target))
    as Hanc.
  fold (Container.findScrollableAncestor doc bx platformName target) in Hanc.
  destruct (Container.findScrollableAncestor doc bx platformName target) as [a|].
  - destruct Hanc as (_ & _ & _ & [Hroom _] & _).
    destruct (bool_decide (a ≠ Container.body bx)) eqn:Hbody.
    + destruct (bool_decide (platformName = Some "Grok")) eqn:Hgrok; simpl.
      * apply bool_decide_eq_true in Hgrok.
        destruct container as [c|]; simpl.
        -- destruct (bool_decide (Container.testId bx c = Some "drop-container")).
           ++ destruct (Z.ltb_spec 10 (Container.scrollSpace bx c));
                eexists _, _; (split; [reflexivity|]); (split; [by auto|]);
                (split; [done|]); intros ? _ _ ?; done.
           ++ rewrite (proj2 (Z.ltb_lt _ _)) by lia.
              eexists _, _. split; [reflexivity|]. split; [right; simpl; lia|].
              split; [done|]. by intros ? [= ->] _ _.
        -- rewrite (proj2 (Z.ltb_lt _ _)) by lia.
           eexists _, _. split; [reflexivity|]. split; [right; simpl; lia|].
           split; [done|]. by intros ? [= ->] _ _.
      * rewrite (proj2 (Z.ltb_lt _ _)) by lia.
        eexists _, _. split; [reflexivity|]. split; [right; simpl; lia|].
        split; [done|]. by intros ? [= ->] _ _.
    + apply bool_decide_eq_false in Hbody.
      destruct container as [c|]; simpl;
        try destruct (Z.ltb_spec 10 (Container.scrollSpace bx c));
        eexists _, _; (split; [reflexivity|]); (split; [by auto|]);
        (split; [done|]); intros ? [= ->] ? _; done.
  - destruct container as [c|]; simpl;
      try destruct (Z.ltb_spec 10 (Container.scrollSpace bx c));
      eexists _, _; (split; [reflexivity|]); (split; [by auto|]);
      (split; [done|]); intros ? [=].
Qed.

Lemma resolveScrollContainer_result_witness :
  Container.resolveScrollContainer chainDoc tallBoxes (Some "Gemini") None 5%nat
  = Ok (2%nat, None).
Proof.
  destruct (resolveScrollContainer_result chainDoc tallBoxes (Some "Gemini") None 5%nat)
    as (c & cache' & Heq & _ & Hcache & Hanc).
  - repeat constructor; by eexists.
  - rewrite Heq. rewrite (Hanc 2%nat), Hcache; [reflexivity|discriminate| | |];
      first [reflexivity|discriminate].
Defined.

(** X17.  [computeTargetScrollTop] never asks for an offset outside the
    container's scroll range: the result lies between 0 and
    [max(0, scrollHeight - containerHeight)], however the element's position
    was obtained; and when 15% of the container height above the element's
    top lies inside that range, this is the offset returned (the element is
    put 15% below the top edge, not in the centre). *)
Theorem computeTargetScrollTop_range (doc : Document) (bx : Container.Boxes) (fuel : nat)
    (target container : Node) (containerHeight : Q) :
  let r := Container.computeTargetScrollTop doc bx fuel target container containerHeight in
  let top := Container.elementTopInContent doc bx fuel target container in
  let room := (inject_Z (Container.scrollHeight bx container) - containerHeight)%Q in
  (0 <= r)%Q ∧ (r <= Qmax 0 room)%Q
  ∧ ((0 <= top - containerHeight * (15 # 100))%Q →
     (top - containerHeight * (15 # 100) <= room)%Q →
     (r == top - containerHeight * (15 # 100))%Q).
Proof.
  intros r top room. unfold r, Container.computeTargetScrollTop. fold top. fold room.
  generalize (top - containerHeight * (15 # 100))%Q. intros d.
  destruct (Q.max_spec 0 d) as [[H1 H2]|[H1 H2]];
    destruct (Q.max_spec 0 room) as [[H3 H4]|[H3 H4]];
    destruct (Q.min_spec (Qmax 0 d) (Qmax 0 room)) as [[H5 H6]|[H5 H6]];
    destruct (Q.max_spec 0 (Qmin (Qmax 0 d) (Qmax 0 room))) as [[H7 H8]|[H7 H8]];
    rewrite ?H8; rewrite ?H6; rewrite ?H2; rewrite ?H4;
    rewrite H2, H4 in *; rewrite ?H6 in *;
    (split; [lra|]); (split; [lra|]); intros; lra.
Qed.


Lemma firstActive_first (registry : gmap string Registry.Adapter) (names : list string)
    (p : Platform) :
  Registry.firstActive registry names = Ok (Some p)
  ↔ ∃ i name a,
      names !! i = Some name ∧ registry !! name = Some a
      ∧ Registry.isActive a = Some (Ok true) ∧ Registry.platform a = p
      ∧ ∀ j name', (j < i)%nat → names !! j = Some name' → passesOn registry name'.
Proof.
  induction names as [|n names IH]; simpl.
  - split; [done|]. by intros (i & name & a & Hi & _).
  - assert (Hskip : passesOn registry n →
              (Registry.firstActive registry names = Ok (Some p)
               ↔ ∃ i name a,
                   (n :: names) !! i = Some name ∧ registry !! name = Some a
                   ∧ Registry.isActive a = Some (Ok true) ∧ Registry.platform a = p
                   ∧ ∀ j name', (j < i)%nat → (n :: names) !! j = Some name' →
                                passesOn registry name')).
    { intros Hn. rewrite IH. split.
      - intros (i & name & a & Hi & Ha & Hact & Hp & Hbefore).
        exists (S i), name, a. repeat split; try done.
        intros [|j] name' Hj Hname; simpl in Hname.
        + by injection Hname as <-.
        + apply (Hbefore j); [lia|done].
      - intros (i & name & a & Hi & Ha & Hact & Hp & Hbefore).
        destruct i as [|i]; simpl in Hi.
        + injection Hi as <-. unfold passesOn in Hn. rewrite Ha, Hact in Hn.
          by destruct Hn.
        + exists i, name, a. repeat split; try done.
          intros j name' Hj Hname. apply (Hbefore (S j)); [lia|done]. }
    destruct (registry !! n) as [a|] eqn:Hreg.
    + destruct (Registry.isActive a) as [[[|]|e]|] eqn:Hact.
      * split.
        -- intros [= <-]. exists 0%nat, n, a. repeat split; try done.
           intros j name' Hj. lia.
        -- intros (i & name & a' & Hi & Ha & Hact' & Hp & Hbefore).
           destruct i as [|i]; simpl in Hi.
           ++ injection Hi as <-. rewrite Hreg in Ha. by injection Ha as <-; subst.
           ++ specialize (Hbefore 0%nat n ltac:(lia) eq_refl). unfold passesOn in Hbefore.
              rewrite Hreg, Hact in Hbefore. by destruct Hbefore.
      * apply Hskip. unfold passesOn. rewrite Hreg. by right.
      * split; [done|].
        intros (i & name & a' & Hi & Ha & Hact' & Hp & Hbefore).
        destruct i as [|i]; simpl in Hi.
        -- injection Hi as <-. rewrite Hreg in Ha. injection Ha as <-. congruence.
        -- specialize (Hbefore 0%nat n ltac:(lia) eq_refl). unfold passesOn in Hbefore.
           rewrite Hreg, Hact in Hbefore. by destruct Hbefore.
      * apply Hskip. unfold passesOn. rewrite Hreg. by left.
    + apply Hskip. unfold passesOn. by rewrite Hreg.
Qed.

(** X19.  [detectPlatform] returns the adapter registered under the first
    of the seven names, in the fixed order chatgpt, claude, gemini, kimi,
    deepseek, grok, qwen, whose [isActive()] answers true, provided every
    adapter before it is missing, lacks [isActive] or answers false.  It
    returns null in every other case; in particular an adapter whose
    [isActive()] raises hides every platform after it. *)
Theorem detectPlatform_first_match (registry : gmap string Registry.Adapter) (p : Platform) :
  (Registry.detectPlatform (Some registry) = Some p
   ↔ ∃ i name a,
       Registry.platforms !! i = Some name ∧ registry !! name = Some a
       ∧ Registry.isActive a = Some (Ok true) ∧ Registry.platform a = p
       ∧ ∀ j name', (j < i)%nat → Registry.platforms !! j = Some name' →
                    passesOn registry name')
  ∧ Registry.detectPlatform None = None.
Proof.
  split; [|done]. rewrite <- firstActive_first. unfold Registry.detectPlatform.
  destruct (Registry.firstActive registry Registry.platforms) as [[q|]|e];
    split; intros H; try done; congruence.
Qed.

Section SidebarFacts.
Import Sidebar.

Lemma filter_sublist_of (P : Message → bool) (l : list Message) :
  sublist (List.filter P l) l.
Proof.
  induction l as [|m l IH]; simpl; [done|].
  destruct (P m); by constructor.
Qed.

Lemma shown_sublist (filter searchQuery : string) (favorites : list string)
    (messages : list Message) :
  sublist (bySearch searchQuery (byTab filter favorites messages)) messages.
Proof.
  unfold bySearch, byTab.
  destruct (truthy searchQuery); [etransitivity; [apply filter_sublist_of|]|];
    destruct (bool_decide (filter = "favorites")); try apply filter_sublist_of;
    destruct (negb (bool_decide (filter = "all"))); try apply filter_sublist_of; done.
Qed.

Lemma findIndex_app_fresh (pre l : list Message) (msg : Message) :
  id msg ∉ map id pre →
  findIndex (fun m => bool_decide (id m = id msg)) (pre ++ msg :: l)%list
  = Some (List.length pre).
Proof.
  induction pre as [|x pre IH]; simpl; intros Hfresh.
  - by rewrite bool_decide_eq_true_2.
  - rewrite bool_decide_eq_false_2.
    + rewrite IH; [done|]. intros Hin. apply Hfresh. simpl. by right.
    + intros Heq. apply Hfresh. simpl. rewrite Heq. left.
Qed.

(** The numbers of a sub-list of [l], where the whole sequence is [pre ++ l]. *)
Lemma numbers_of_sublist (pre l sub : list Message) :
  NoDup (map id (pre ++ l)%list) → sublist sub l →
  Forall (fun msg => ∃ n, findIndex (fun m => bool_decide (id m = id msg)) (pre ++ l)%list
                          = Some n
                          ∧ (pre ++ l)%list !! n = Some msg ∧ (List.length pre <= n)%nat) sub
  ∧ StronglySorted lt
      (map (fun msg => default 0%nat
                         (findIndex (fun m => bool_decide (id m = id msg)) (pre ++ l)%list)) sub).
Proof.
  intros Hnd Hsub. revert pre Hnd.
  induction Hsub as [|x sub l Hsub IH|x sub l Hsub IH]; intros pre Hnd.
  - split; constructor.
  - specialize (IH (pre ++ [x])%list). rewrite <- app_assoc in IH. simpl in IH.
    specialize (IH Hnd). destruct IH as [IH1 IH2].
    assert (Hx : findIndex (fun m => bool_decide (id m = id x)) (pre ++ x :: l)%list
                 = Some (List.length pre)).
    { apply findIndex_app_fresh. rewrite map_app in Hnd.
      apply NoDup_app in Hnd as (_ & Hnd & _). intros Hin. apply (Hnd _ Hin).
      simpl. left. }
    split.
    + constructor.
      * exists (List.length pre). split; [done|]. split; [|lia].
        by rewrite list_lookup_middle.
      * eapply Forall_impl; [exact IH1|]. intros msg (n & Hn1 & Hn2 & Hn3).
        exists n. repeat split; try done. rewrite length_app in Hn3. simpl in Hn3. lia.
    + simpl. constructor; [exact IH2|]. rewrite Hx. simpl.
      apply Forall_map. eapply Forall_impl; [exact IH1|].
      intros msg (n & -> & _ & Hn3). simpl. rewrite length_app in Hn3. simpl in Hn3. lia.
  - specialize (IH (pre ++ [x])%list). rewrite <- app_assoc in IH. simpl in IH.
    specialize (IH Hnd). destruct IH as [IH1 IH2]. split; [|exact IH2].
    eapply Forall_impl; [exact IH1|]. intros msg (n & Hn1 & Hn2 & Hn3).
    exists n. repeat split; try done. rewrite length_app in Hn3. simpl in Hn3. lia.
Qed.

Lemma imap_numbers (messages filtered : list Message) (k : nat) :
  Forall (fun msg => is_Some (findIndex (fun m => bool_decide (id m = id msg)) messages))
         filtered →
  imap (fun index msg => (msg, messageNumber messages (k + index) msg)) filtered
  = map (fun msg => (msg, S (default 0%nat
                                (findIndex (fun m => bool_decide (id m = id msg)) messages))))
        filtered.
Proof.
  revert k. induction filtered as [|x filtered IH]; intros k Hall; simpl; [done|].
  apply Forall_cons in Hall as [[n Hx] Hall]. f_equal.
  - unfold messageNumber. rewrite Hx. simpl. f_equal. lia.
  - rewrite <- (IH (S k) Hall). apply imap_ext. intros i y _. simpl.
    f_equal. f_equal. lia.
Qed.

End SidebarFacts.

(** X20.  The cards of the sidebar.  With pairwise distinct ids in the
    sequence, whatever the tab and the search, the cards shown are messages
    of the sequence in sequence order, each card carries the position of its
    message in the whole sequence (counted from 1) and not its position in
    the filtered list, and the numbers increase strictly down the list. *)
Theorem sidebar_cards_numbered (filter searchQuery : string) (favorites : list string)
    (messages : list Message) (cards : list (Message * nat)) :
  NoDup (map id messages) →
  Sidebar.render filter searchQuery favorites messages = Sidebar.Cards cards →
  sublist (map fst cards) messages
  ∧ Forall (fun c => (1 <= c.2)%nat ∧ messages !! (c.2 - 1)%nat = Some c.1) cards
  ∧ StronglySorted lt (map snd cards).
Proof.
  intros Hnd. unfold Sidebar.render. cbv zeta.
  pose proof (shown_sublist filter searchQuery favorites messages) as Hsub.
  revert Hsub. generalize (Sidebar.bySearch searchQuery
                             (Sidebar.byTab filter favorites messages)).
  intros filtered Hsub.
  destruct (List.length filtered =? 0)%nat; [by destruct (_ =? _)%nat|].
  intros [= <-].
  destruct (numbers_of_sublist [] messages filtered Hnd Hsub) as [Hnum Hsorted].
  simpl in Hnum, Hsorted.
  rewrite (imap_ext _ (fun index msg => (msg, Sidebar.messageNumber messages (0 + index) msg)))
    by done.
  rewrite imap_numbers
    by (eapply Forall_impl; [exact Hnum|]; intros msg (n & -> & _); by eexists).
  rewrite !map_map. simpl. rewrite map_id. split; [done|]. split.
  - apply Forall_map. eapply Forall_impl; [exact Hnum|].
    intros msg (n & -> & Hn & _). simpl. split; [lia|]. by rewrite Nat.sub_0_r.
  - assert (Hgen : ∀ (f : Message → nat) l,
              StronglySorted lt (map f l) → StronglySorted lt (map (fun x => S (f x)) l)).
    { intros f l. induction l as [|x l IH]; simpl; [constructor|].
      intros Hs. apply StronglySorted_inv in Hs as [Hs Hx].
      constructor; [by apply IH|].
      apply Forall_map. pose proof (proj1 (Forall_map f (lt (f x)) l) Hx) as Hx'.
      eapply Forall_impl; [exact Hx'|].
      intros y Hy. simpl in *. lia. }
    apply (Hgen _ _ Hsorted).
Qed.

Lemma sidebar_cards_numbered_witness :
  Sidebar.render "assistant" "HEL" [] [helloAt0; scanB] = Sidebar.Cards [(scanB, 2%nat)]
  ∧ StronglySorted lt (map snd [(scanB, 2%nat)]).
Proof.
  split; [reflexivity|].
  apply (sidebar_cards_numbered "assistant" "HEL" [] [helloAt0; scanB]).
  - apply (bool_decide_unpack _). reflexivity.
  - reflexivity.
Defined.

(** X21.  The tab badges agree with the lists.  With an empty search box,
    each of the four tabs shows exactly as many cards as the count
    [updateTabCounts] writes on it; the user and assistant counts add up to
    the count of the All tab, and the favorites count never exceeds it. *)
Theorem tab_counts_match_cards (favorites : list string) (messages : list Message) :
  let counts := Sidebar.updateTabCounts favorites messages in
  let shown filter := cardCount (Sidebar.render filter "" favorites messages) in
  shown "all" = Sidebar.allCount counts
  ∧ shown "user" = Sidebar.userCount counts
  ∧ shown "assistant" = Sidebar.assistantCount counts
  ∧ shown "favorites" = Sidebar.favoritesCount counts
  ∧ (Sidebar.userCount counts + Sidebar.assistantCount counts)%nat = Sidebar.allCount counts
  ∧ (Sidebar.favoritesCount counts <= Sidebar.allCount counts)%nat.
Proof.
  intros counts shown.
  assert (Hshown : ∀ filter,
            shown filter = List.length (Sidebar.byTab filter favorites messages)).
  { intros filter. unfold shown, Sidebar.render, Sidebar.bySearch. simpl.
    generalize (Sidebar.byTab filter favorites messages). intros l.
    destruct l as [|x l]; simpl; [by destruct (_ =? _)%nat|].
    by rewrite length_imap. }
  rewrite !Hshown. unfold counts, Sidebar.updateTabCounts, Sidebar.byTab. simpl.
  do 4 (split; [reflexivity|]). split.
  - clear Hshown shown counts.
    induction messages as [|m messages IH]; simpl; [done|].
    destruct (role m); simpl roleName.
    + rewrite (bool_decide_eq_true_2 ("user" = "user")) by done.
      rewrite (bool_decide_eq_false_2 ("user" = "assistant")) by done. simpl. lia.
    + rewrite (bool_decide_eq_false_2 ("assistant" = "user")) by done.
      rewrite (bool_decide_eq_true_2 ("assistant" = "assistant")) by done. simpl. lia.
  - apply sublist_length, filter_sublist_of.
Qed.

Lemma acceptedCandidates_withSidebar (b : bool) (d : Document) (p : string)
    (ms cs : list Message) :
  acceptedCandidates (withSidebar b d) p ms cs = acceptedCandidates d p ms cs.
Proof. reflexivity. Qed.

(** X22.  A render that fails is not made up for.  When a pass accepts
    candidates while the sidebar badge is missing, the new sequence is
    stored, [updateUI] raises and the error is logged; a later pass over the
    same messages accepts nothing, so it does not call [updateUI], even
    though the sidebar is there by then: the stored messages stay
    unrendered until something else renders. *)
Theorem failed_render_not_retried (t1 t2 : Z) (h1 h2 : Host) (s : State) (p : Platform)
    (cs cs' : list Message) :
  currentPlatform s = Some p → hasDetectMessages p = true →
  adapterDetectMessages h1 = Ok cs → adapterDetectMessages h2 = Ok cs' →
  sameScan cs cs' →
  sidebarInjected (document h1) = false →
  document h2 = withSidebar true (document h1) →
  acceptedCandidates (document h1) (name p) (messages s) cs ≠ [] →
  let s1 := detectMessages t1 h1 s in
  let s2 := detectMessages t2 h2 s1 in
  messages s1 = sortBy (compareMessages (document h1))
                       (messages s ++ acceptedCandidates (document h1) (name p)
                                                         (messages s) cs)%list
  ∧ log s1 = (log s ++ [EvDetect t1; EvConsoleError t1])%list
  ∧ messages s2 = messages s1
  ∧ log s2 = (log s1 ++ [EvDetect t2])%list.
Proof.
  intros Hp Hdet Hcs Hcs' Hscan Hside Hdoc Hacc s1 s2.
  assert (Hlen : (0 <? List.length cs)%nat = true).
  { destruct cs; [exfalso; apply Hacc|done].
    unfold acceptedCandidates, reassignOrder. simpl. by destruct (bool_decide _). }
  assert (Hlen2 : (0 <? List.length (acceptedCandidates (document h1) (name p)
                                                         (messages s) cs))%nat = true).
  { destruct (acceptedCandidates _ _ _ _); [by destruct Hacc|done]. }
  assert (Hs1 : s1 = emit (EvConsoleError t1)
                       (set_messages
                          (sortBy (compareMessages (document h1))
                             (messages s ++ acceptedCandidates (document h1) (name p)
                                                               (messages s) cs)%list)
                          (emit (EvDetect t1) s))).
  { unfold s1, detectMessages, detectMessagesBody, updateUI. simpl.
    rewrite Hp, Hdet, Hcs. simpl. rewrite Hlen, Hlen2. simpl. by rewrite Hside. }
  assert (Hms1 : messages s1 = nextMessages (document h1) (name p) (messages s) cs).
  { rewrite Hs1. unfold nextMessages. by rewrite Hlen, Hlen2. }
  split; [by rewrite Hs1|]. split; [rewrite Hs1; simpl; by rewrite <- app_assoc|].
  assert (Hnone : acceptedCandidates (document h2) (name p) (messages s1) cs' = []).
  { rewrite Hdoc, acceptedCandidates_withSidebar, Hms1.
    by apply second_scan_accepts_nothing. }
  unfold s2, detectMessages, detectMessagesBody. simpl.
  assert (Hp1 : currentPlatform s1 = Some p) by (by rewrite Hs1).
  rewrite Hp1, Hdet, Hcs'. simpl. rewrite Hnone. simpl.
  by destruct (0 <? List.length cs')%nat.
Qed.

Lemma failed_render_not_retried_witness :
  let h1 := hostWith bareDoc (Ok [helloAt0]) false "/chat/1" in
  let h2 := hostWith chainDoc (Ok [set_timestamp 5000 helloAt0]) false "/chat/1" in
  let s1 := detectMessages 10 h1 (initialState kimi "/chat/1") in
  messages s1 = [helloAt0]
  ∧ log (detectMessages 20 h2 s1) = [EvDetect 10; EvConsoleError 10; EvDetect 20].
Proof.
  intros h1 h2 s1.
  destruct (failed_render_not_retried 10 20 h1 h2 (initialState kimi "/chat/1") kimi
              [helloAt0] [set_timestamp 5000 helloAt0])
    as (Hm & Hl & _ & Hl2); try reflexivity.
  - constructor; [reflexivity|constructor].
  - discriminate.
  - split; [exact Hm|]. fold s1 in Hl2. rewrite Hl2. fold s1 in Hl. rewrite Hl. reflexivity.
Defined.

Section ActiveFacts.
Import Active.

Lemma active_class_removed (st : SidebarState) :
  activeClass st = from_option singleton ∅ (activeSidebarElement st) →
  match activeSidebarElement st with
  | Some el => activeClass st ∖ {[el]}
  | None => activeClass st
  end = ∅.
Proof.
  intros ->. destruct (activeSidebarElement st); simpl; [|done].
  apply difference_diag_L.
Qed.

(** The class is on the active element and nowhere else. *)
Lemma highlightSidebarMessage_single (doc : Document) (mid : option string) (force : bool)
    (st : SidebarState) :
  activeClass st = from_option singleton ∅ (activeSidebarElement st) →
  let st' := (highlightSidebarMessage doc mid force st).1 in
  activeClass st' = from_option singleton ∅ (activeSidebarElement st').
Proof.
  intros Hinv. unfold highlightSidebarMessage.
  destruct (negb force && bool_decide (mid = activeSidebarMessageId st)); [done|].
  rewrite (active_class_removed st Hinv). cbv zeta.
  destruct mid as [i|]; [|done]. destruct (truthy i); [|done].
  destruct (querySelector doc (cardSelector i)) as [[el|]|e]; simpl; try done.
  apply union_empty_l_L.
Qed.

End ActiveFacts.

(** X23.  One active card at most.  After any series of calls of
    [highlightSidebarMessage], on whatever pages, with or without [force],
    raising or not, the class [hopper-message-active] is carried by
    [activeSidebarElement] and by no other element, and an active element
    is only held together with an active message id; [teardownScrollSpy]
    then leaves no element with the class and no active id. *)
Theorem single_active_card (calls : list Active.Call) (doc : Document) :
  let st := Active.run calls Active.initial in
  Active.activeClass st = from_option singleton ∅ (Active.activeSidebarElement st)
  ∧ (is_Some (Active.activeSidebarElement st) → is_Some (Active.activeSidebarMessageId st))
  ∧ Active.activeClass (Active.teardownScrollSpy doc st) = ∅
  ∧ Active.activeSidebarMessageId (Active.teardownScrollSpy doc st) = None.
Proof.
  intros st.
  assert (Hinv : Active.activeClass st
                 = from_option singleton ∅ (Active.activeSidebarElement st)
                 ∧ (is_Some (Active.activeSidebarElement st) →
                    is_Some (Active.activeSidebarMessageId st))).
  { unfold st, Active.run.
    induction calls as [|c calls IH] using rev_ind; [split; [done|by intros [? ?]]|].
    rewrite foldl_app. simpl. destruct IH as [IH1 IH2].
    split; [by apply highlightSidebarMessage_single|].
    unfold Active.highlightSidebarMessage.
    destruct (negb _ && _); [done|]. cbv zeta.
    destruct (Active.target c) as [i|]; [|by intros [? ?]].
    destruct (truthy i); [|by intros [? ?]].
    destruct (querySelector _ _) as [[el|]|e]; simpl; by intros [? ?]. }
  destruct Hinv as [H1 H2]. split; [done|]. split; [done|].
  unfold Active.teardownScrollSpy, Active.highlightSidebarMessage. simpl.
  by rewrite (active_class_removed st H1).
Qed.

Section SearchFacts.
Import Search.

Lemma last_cons_default (a b c : string) (l : list string) :
  List.last (c :: l) a = List.last (c :: l) b.
Proof.
  revert c. induction l as [|d l IH]; intros c; [done|].
  change (List.last (d :: l) a = List.last (d :: l) b). apply IH.
Qed.

Lemma noStutter_snoc (a x : string) (l : list string) :
  noStutter (a :: l) → List.last l a ≠ x → noStutter (a :: l ++ [x]).
Proof.
  revert a. induction l as [|b l IH]; intros a Hl Hx.
  - simpl in *. done.
  - destruct Hl as [Hab Hl]. split; [done|]. apply IH; [done|].
    destruct l as [|c l]; [done|].
    change (List.last (c :: l) b ≠ x). change (List.last (c :: l) a ≠ x) in Hx.
    by rewrite (last_cons_default b a).
Qed.

Lemma last_snoc (a x : string) (l : list string) : List.last (l ++ [x]) a = x.
Proof. apply last_last. Qed.

Lemma step_searchInv (st : SearchState) (a : Action) :
  searchInv st → searchInv (step st a).
Proof.
  unfold searchInv. intros (Hns & Hlast & Hpending).
  destruct a as [now value|inputValue]; simpl.
  - unfold handleSearch. cbv zeta. simpl.
    destruct (String.length (trim value) =? 0)%nat eqn:Hlen.
    + destruct (bool_decide (lastSearchQuery st = "")) eqn:Hempty; simpl.
      * split; [done|]. split; [done|]. intros due q [=].
      * apply bool_decide_eq_false in Hempty. split; [|split].
        -- apply noStutter_snoc; [done|]. by rewrite <- Hlast.
        -- by rewrite last_snoc.
        -- intros due q [=].
    + destruct (bool_decide (trim value = lastSearchQuery st)) eqn:Hsame; simpl.
      * split; [done|]. split; [done|]. intros due q [=].
      * apply bool_decide_eq_false in Hsame. split; [done|]. split; [done|].
        intros due q [= _ <-]. split; [|done].
        intros Hq. rewrite Hq in Hlen. done.
  - unfold onSearchTimeout. destruct (searchTimeout st) as [[due query]|] eqn:Ht;
      [|split; [done|]; split; [done|]; intros ? ? Hs; rewrite Hs in Ht; done].
    destruct (Hpending due query eq_refl) as [Hne Hnew].
    destruct (bool_decide _ && negb _) eqn:Hfire; simpl.
    + split; [|split].
      * apply noStutter_snoc; [done|]. by rewrite <- Hlast.
      * by rewrite last_snoc.
      * intros ? ? [=].
    + split; [done|]. split; [done|]. intros ? ? [=].
Qed.

Lemma run_searchInv (actions : list Action) (st : SearchState) :
  searchInv st → searchInv (run actions st).
Proof.
  unfold run. revert st. induction actions as [|a actions IH]; intros st Hst; simpl; [done|].
  by apply IH, step_searchInv.
Qed.

End SearchFacts.

(** X24.  The search box never renders the same query twice in a row.
    Whatever is typed and whenever the 200ms timer fires, every call of
    [updateUI] made by the search differs from the one before (the first
    one from the empty query), [lastSearchQuery] is the query of the last
    such call, and a pending timer always holds a non-empty query other
    than [lastSearchQuery]. *)
Theorem search_never_rerenders (actions : list Search.Action) :
  let st := Search.run actions Search.initial in
  noStutter ("" :: Search.rendered st)
  ∧ Search.lastSearchQuery st = List.last (Search.rendered st) ""
  ∧ ∀ due q, Search.searchTimeout st = Some (due, q) →
             q ≠ "" ∧ q ≠ Search.lastSearchQuery st.
Proof.
  apply (run_searchInv actions Search.initial).
  split; [done|]. split; [done|]. intros ? ? [=].
Qed.

Lemma handleSearch_nonempty (now : Z) (value : string) (st : Search.SearchState) :
  trim value ≠ "" →
  Search.handleSearch now value st
  = Search.mkSearchState
      (if bool_decide (trim value = Search.lastSearchQuery st) then None
       else Some (now + 200, trim value))
      (Search.lastSearchQuery st) (Search.rendered st).
Proof.
  intros Hne. unfold Search.handleSearch. cbv zeta. simpl.
  destruct (trim value) as [|c q] eqn:Hq; [done|]. simpl.
  by destruct (bool_decide _).
Qed.

(** X25.  Typing is debounced.  A burst of input events with non-empty
    (trimmed) values renders nothing while it lasts and leaves at most one
    timer, due 200ms after the last event; when that timer fires with the
    box still holding the last value, [updateUI] is called exactly once,
    with the trimmed last value, unless that is the query already shown. *)
Theorem search_burst_renders_once (st0 : Search.SearchState) (burst : list (Z * string))
    (t : Z) (v : string) :
  Forall (fun e => trim e.2 ≠ "") burst → trim v ≠ "" →
  let typed := map (fun e => Search.Typed e.1 e.2) (burst ++ [(t, v)]) in
  let pending := Search.run typed st0 in
  let st := Search.run (typed ++ [Search.TimerFired (Some v)]) st0 in
  Search.rendered pending = Search.rendered st0
  ∧ Search.searchTimeout pending
    = (if bool_decide (trim v = Search.lastSearchQuery st0) then None
       else Some (t + 200, trim v))
  ∧ Search.rendered st
    = (if bool_decide (trim v = Search.lastSearchQuery st0) then Search.rendered st0
       else Search.rendered st0 ++ [trim v])%list
  ∧ Search.searchTimeout st = None.
Proof.
  intros Hburst Hv typed pending st.
  assert (Hkeep : ∀ l s, Forall (fun e => trim e.2 ≠ "") l →
            Search.lastSearchQuery (Search.run (map (fun e => Search.Typed e.1 e.2) l) s)
            = Search.lastSearchQuery s
            ∧ Search.rendered (Search.run (map (fun e => Search.Typed e.1 e.2) l) s)
              = Search.rendered s).
  { intros l. unfold Search.run. induction l as [|e l IH]; intros s Hl; simpl; [done|].
    apply Forall_cons in Hl as [He Hl]. rewrite handleSearch_nonempty by done.
    destruct (IH (Search.mkSearchState
                    (if bool_decide (trim e.2 = Search.lastSearchQuery s) then None
                     else Some (e.1 + 200, trim e.2))
                    (Search.lastSearchQuery s) (Search.rendered s)) Hl) as [-> ->].
    done. }
  assert (Hpending : pending
            = Search.mkSearchState
                (if bool_decide (trim v = Search.lastSearchQuery st0) then None
                 else Some (t + 200, trim v))
                (Search.lastSearchQuery st0) (Search.rendered st0)).
  { unfold pending, typed, Search.run. rewrite map_app, foldl_app. simpl.
    rewrite handleSearch_nonempty by done.
    destruct (Hkeep burst st0 Hburst) as [Hl Hr]. unfold Search.run in Hl, Hr.
    by rewrite Hl, Hr. }
  split; [by rewrite Hpending|]. split; [by rewrite Hpending|].
  unfold st, Search.run. rewrite foldl_app. fold (Search.run typed st0). fold pending.
  rewrite Hpending. simpl. unfold Search.onSearchTimeout. simpl.
  destruct (bool_decide (trim v = Search.lastSearchQuery st0)) eqn:Hsame; [done|].
  simpl. destruct (trim v) as [|c q] eqn:Hq; [done|]. simpl.
  rewrite bool_decide_eq_true_2 by done. rewrite Hsame. done.
Qed.

Lemma search_burst_renders_once_witness :
  let typed := [Search.Typed 0 "h"; Search.Typed 100 "he"; Search.Typed 250 " hel "] in
  Search.rendered (Search.run typed Search.initial) = []
  ∧ Search.rendered (Search.run (typed ++ [Search.TimerFired (Some " hel ")]) Search.initial)
    = ["hel"].
Proof.
  destruct (search_burst_renders_once Search.initial [(0, "h"); (100, "he")] 250 " hel ")
    as (H1 & _ & H2 & _).
  - repeat constructor; discriminate.
  - discriminate.
  - split; [exact H1|exact H2].
Defined.

Section HighlightFacts.
Import Highlight.
Variable connectedAt : Z → bool.
Variable a : Accent.
Variable s0 : Style.
Hypothesis attached : ∀ t, connectedAt t = true.

Lemma orElse_empty (x : string) : orElse x "" = x.
Proof. by destruct x. Qed.

Lemma restored_style :
  mkStyle (orElse (backgroundColor s0) "") (orElse (boxShadow s0) "")
          (orElse (borderRadius s0) "") (orElse (outline s0) "")
          (orElse (outlineOffset s0) "") (orElse (transition s0) "")
          (orElse (willChange s0) "") = s0.
Proof. rewrite !orElse_empty. by destruct s0. Qed.

Lemma animate_atRest (t : Z) (i : nat) :
  animateMessageHighlight true a t (atRest s0 i) = highlighted a s0 t i.
Proof. reflexivity. Qed.

Lemma animate_highlighted (t t' : Z) (i : nat) :
  animateMessageHighlight true a t' (highlighted a s0 t i)
  = highlighted a s0 t' (S (S i)).
Proof.
  unfold animateMessageHighlight, highlighted, clearHTimer, resetHighlight. simpl.
  rewrite (bool_decide_eq_true_2 (i = i)) by done.
  rewrite (bool_decide_eq_false_2 (S i = i)) by lia. simpl.
  rewrite (bool_decide_eq_true_2 (S i = S i)) by done. simpl.
  by rewrite restored_style.
Qed.

Lemma animate_fading (t t' : Z) (i : nat) :
  animateMessageHighlight true a t' (fading a s0 t i) = highlighted a s0 t' (S (S i)).
Proof.
  unfold animateMessageHighlight, fading, highlighted, fadeOut, clearHTimer, resetHighlight.
  simpl. rewrite (bool_decide_eq_false_2 (S i = i)) by lia. simpl.
  rewrite (bool_decide_eq_true_2 (S i = S i)) by done. simpl.
  by rewrite restored_style.
Qed.

Lemma runH_highlighted (limit t : Z) (i fuel : nat) :
  (2 <= fuel)%nat →
  runH connectedAt limit fuel (highlighted a s0 t i)
  = if limit <=? t + 600 then highlighted a s0 t i
    else if limit <=? t + 1700 then fading a s0 t i
         else atRest s0 (S (S i)).
Proof.
  intros Hfuel. destruct fuel as [|[|fuel]]; try lia.
  assert (Hnext : nextHTimer (htimers (highlighted a s0 t i))
                  = Some (mkHTimer i (t + 600) (FadeOut s0))).
  { simpl. unfold earlierH. simpl.
    destruct (Z.ltb_spec (t + 1700) (t + 600)); [lia|].
    destruct (Z.eqb_spec (t + 1700) (t + 600)); [lia|]. done. }
  cbn [runH]. rewrite Hnext. cbn [hdue hid hcallback].
  destruct (Z.ltb_spec (t + 600) limit) as [H1|H1];
    destruct (Z.leb_spec limit (t + 600)) as [H2|H2]; try lia; [|done].
  rewrite attached.
  assert (Hfade : fireH true (FadeOut s0) (clearHTimer i (highlighted a s0 t i))
                  = fading a s0 t i).
  { unfold fireH, clearHTimer, highlighted, fading. simpl.
    rewrite (bool_decide_eq_true_2 (i = i)) by done.
    rewrite (bool_decide_eq_false_2 (S i = i)) by lia. done. }
  rewrite Hfade.
  assert (Hnext2 : nextHTimer (htimers (fading a s0 t i))
                   = Some (mkHTimer (S i) (t + 1700) (ResetHighlight s0))) by done.
  rewrite Hnext2. cbn [hdue hid hcallback].
  destruct (Z.ltb_spec (t + 1700) limit) as [H3|H3];
    destruct (Z.leb_spec limit (t + 1700)) as [H4|H4]; try lia; [|done].
  rewrite attached.
  assert (Hreset : fireH true (ResetHighlight s0) (clearHTimer (S i) (fading a s0 t i))
                   = atRest s0 (S (S i))).
  { unfold fireH, clearHTimer, fading, fadeOut, resetHighlight, atRest. simpl.
    rewrite (bool_decide_eq_true_2 (S i = S i)) by done. simpl.
    by rewrite restored_style. }
  rewrite Hreset. by destruct fuel.
Qed.

Lemma runH_atRest (limit : Z) (fuel i : nat) :
  runH connectedAt limit fuel (atRest s0 i) = atRest s0 i.
Proof. by destruct fuel. Qed.

Lemma highlights_end_highlighted (fuel : nat) (times : list Z) (t : Z) (i : nat) :
  (2 <= fuel)%nat →
  ∃ j, foldl (fun tg t => animateMessageHighlight (connectedAt t) a t
                                                  (runH connectedAt t fuel tg))
             (atRest s0 i) (times ++ [t])
       = highlighted a s0 t j.
Proof.
  intros Hfuel. revert t. induction times as [|u times IH] using rev_ind; intros t.
  - simpl. rewrite runH_atRest, attached. by eexists.
  - rewrite foldl_app. destruct (IH u) as [j ->]. simpl.
    rewrite runH_highlighted by done. rewrite attached.
    destruct (t <=? u + 600); [rewrite animate_highlighted; by eexists|].
    destruct (t <=? u + 1700); [rewrite animate_fading; by eexists|].
    rewrite animate_atRest. by eexists.
Qed.

End HighlightFacts.

(** X26.  The highlight always comes off.  On a target that stays attached,
    any number of highlights, at whatever times, followed by more than
    1700ms without one, leave the target with exactly the inline style it
    had before the first of them, no entry in [highlightCleanupMap] and no
    timer: a repeated highlight first restores the original style of the
    one before, so the style it records as original is never a highlighted
    one. *)
Theorem highlight_round_trip (connectedAt : Z → bool) (a : Highlight.Accent) (fuel : nat)
    (times : list Z) (finish : Z) (tg : Highlight.Target) :
  (∀ t, connectedAt t = true) → (2 <= fuel)%nat →
  Highlight.cleanup tg = None → Highlight.htimers tg = [] →
  (∀ t, t ∈ times → t + 1700 < finish) →
  let tg' := Highlight.session connectedAt a fuel times finish tg in
  Highlight.style tg' = Highlight.style tg
  ∧ Highlight.cleanup tg' = None ∧ Highlight.htimers tg' = [].
Proof.
  intros Hconn Hfuel Hclean Ht Hfinish tg'.
  assert (Htg : tg = atRest (Highlight.style tg) (Highlight.hnextId tg)).
  { destruct tg as [s c tm n]. simpl in *. by subst. }
  unfold tg', Highlight.session. rewrite Htg. simpl Highlight.style.
  destruct times as [|t times _] using rev_ind.
  - simpl. by rewrite runH_atRest.
  - destruct (highlights_end_highlighted connectedAt a (Highlight.style tg) Hconn fuel
                times t (Highlight.hnextId tg) Hfuel) as [j ->].
    rewrite runH_highlighted by done.
    assert (Hlate : t + 1700 < finish) by (apply Hfinish, elem_of_app; right; left).
    destruct (Z.leb_spec finish (t + 600)); [lia|].
    destruct (Z.leb_spec finish (t + 1700)); [lia|]. done.
Qed.

Lemma highlight_round_trip_witness :
  let tg := Highlight.mkTarget plainStyle None [] 1 in
  Highlight.style (Highlight.session (fun _ => true) blueAccent 2 [0; 300; 1500] 3201 tg)
  = plainStyle.
Proof.
  intros tg.
  destruct (highlight_round_trip (fun _ => true) blueAccent 2 [0; 300; 1500] 3201 tg)
    as (H & _).
  - reflexivity.
  - lia.
  - reflexivity.
  - reflexivity.
  - intros t Ht. repeat (apply elem_of_cons in Ht as [->|Ht]; [lia|]).
    by apply elem_of_nil in Ht.
  - exact H.
Defined.

(** X27.  A reset that finds the target detached is lost.  When the target
    is detached at the moment the reset timer fires (1700ms after the
    highlight), [resetHighlight] returns without restoring anything: once
    re-attached the target keeps the faded highlight (its border radius,
    transition and will-change are the highlight's), the map entry stays and
    no timer is left to undo it.  The next highlight of the target repairs
    it: it restores the recorded original first. *)
Theorem highlight_missed_reset (connectedAt : Z → bool) (a : Highlight.Accent)
    (s0 : Highlight.Style) (fuel i : nat) (t finish t' : Z) :
  connectedAt (t + 600) = true → connectedAt (t + 1700) = false →
  (2 <= fuel)%nat → t + 1700 < finish →
  let tg' := Highlight.session connectedAt a fuel [t] finish (atRest s0 i) in
  Highlight.style tg' = Highlight.style (fading a s0 t i)
  ∧ Highlight.cleanup tg' = Some (Highlight.mkCleanup i (S i) s0)
  ∧ Highlight.htimers tg' = []
  ∧ Highlight.animateMessageHighlight true a t' tg' = highlighted a s0 t' (S (S i)).
Proof.
  intros Hfade Hreset Hfuel Hfinish tg'.
  assert (Htg : tg' = Highlight.clearHTimer (S i) (fading a s0 t i)).
  { unfold tg', Highlight.session. simpl foldl.
    rewrite (runH_atRest connectedAt s0).
    change (Highlight.animateMessageHighlight (connectedAt t) a t (atRest s0 i))
      with (highlighted a s0 t i).
    destruct fuel as [|[|fuel]]; try lia.
    assert (Hnext : Highlight.nextHTimer (Highlight.htimers (highlighted a s0 t i))
                    = Some (Highlight.mkHTimer i (t + 600) (Highlight.FadeOut s0))).
    { simpl. unfold Highlight.earlierH. simpl.
      destruct (Z.ltb_spec (t + 1700) (t + 600)); [lia|].
      destruct (Z.eqb_spec (t + 1700) (t + 600)); [lia|]. done. }
    cbn [Highlight.runH]. rewrite Hnext.
    cbn [Highlight.hdue Highlight.hid Highlight.hcallback].
    rewrite (proj2 (Z.ltb_lt (t + 600) finish)) by lia. rewrite Hfade.
    assert (Hfaded : Highlight.fireH true (Highlight.FadeOut s0)
                       (Highlight.clearHTimer i (highlighted a s0 t i))
                     = fading a s0 t i).
    { unfold Highlight.fireH, Highlight.clearHTimer, highlighted, fading. simpl.
      rewrite (bool_decide_eq_true_2 (i = i)) by done.
      rewrite (bool_decide_eq_false_2 (S i = i)) by lia. done. }
    rewrite Hfaded.
    assert (Hnext2 : Highlight.nextHTimer (Highlight.htimers (fading a s0 t i))
                     = Some (Highlight.mkHTimer (S i) (t + 1700)
                                                (Highlight.ResetHighlight s0))) by done.
    rewrite Hnext2. cbn [Highlight.hdue Highlight.hid Highlight.hcallback].
    rewrite (proj2 (Z.ltb_lt (t + 1700) finish)) by lia. rewrite Hreset.
    assert (Hlost : Highlight.fireH false (Highlight.ResetHighlight s0)
                      (Highlight.clearHTimer (S i) (fading a s0 t i))
                    = Highlight.clearHTimer (S i) (fading a s0 t i)) by done.
    rewrite Hlost.
    assert (Hempty : Highlight.htimers (Highlight.clearHTimer (S i) (fading a s0 t i)) = []).
    { unfold Highlight.clearHTimer, fading, Highlight.fadeOut. simpl.
      by rewrite (bool_decide_eq_true_2 (S i = S i)). }
    destruct fuel; [done|]. cbn [Highlight.runH]. by rewrite Hempty. }
  assert (Hempty : Highlight.htimers tg' = []).
  { rewrite Htg. unfold Highlight.clearHTimer, fading, Highlight.fadeOut. simpl.
    by rewrite (bool_decide_eq_true_2 (S i = S i)). }
  split; [by rewrite Htg|]. split; [by rewrite Htg|]. split; [done|].
  unfold Highlight.animateMessageHighlight.
  assert (Hc : Highlight.cleanup tg' = Some (Highlight.mkCleanup i (S i) s0))
    by (by rewrite Htg).
  rewrite Hc. unfold Highlight.clearHTimer, Highlight.resetHighlight. simpl.
  rewrite Hempty. simpl. rewrite (restored_style s0).
  assert (Hn : Highlight.hnextId tg' = S (S i)) by (by rewrite Htg).
  rewrite Hn. done.
Qed.

Lemma highlight_missed_reset_witness :
  let detachedLate := fun t => t <? 1000 in
  let tg' := Highlight.session detachedLate blueAccent 2 [0] 5000 (atRest plainStyle 1) in
  Highlight.willChange (Highlight.style tg')
  = "background-color, box-shadow, border-radius, outline"
  ∧ Highlight.htimers tg' = [].
Proof.
  intros detachedLate tg'.
  destruct (highlight_missed_reset detachedLate blueAccent plainStyle 2 1 0 5000 6000)
    as (Hs & _ & Ht & _); try reflexivity; try lia.
  split; [|exact Ht]. fold tg' in Hs. by rewrite Hs.
Defined.

Section GeminiWrites.
Import GeminiScan.

Lemma handleNode_found_grows (now : Z) (sc : Scan) (b : Block) (m : Message) :
  m ∈ found sc → m ∈ found (handleNode now sc b).
Proof.
  intros Hm. unfold handleNode.
  repeat (match goal with |- context [if ?c then _ else _] => destruct c end; [done|]).
  destruct (Gemini.getStableId _ _ _ _) as [i a']. simpl.
  apply elem_of_app. by left.
Qed.

Lemma scan_found_grows (now : Z) (blocks : list Block) (sc : Scan) (m : Message) :
  m ∈ found sc → m ∈ found (foldl (handleNode now) sc blocks).
Proof.
  revert sc. induction blocks as [|b blocks IH]; intros sc Hm; simpl; [done|].
  by apply IH, handleNode_found_grows.
Qed.

Lemma handleNode_writes (now : Z) (sc : Scan) (b : Block) (k : Node * string) :
  attrs (handleNode now sc b) !! k ≠ attrs sc !! k →
  k = (blockEl b, "data-hopper-id")
  ∧ truthy (marker (attrs sc) (blockEl b)) = false
  ∧ ∃ m, m ∈ found (handleNode now sc b) ∧ element m = Some (blockEl b)
         ∧ attrs (handleNode now sc b) !! k = Some (id m) ∧ truthy (id m) = true.
Proof.
  unfold handleNode.
  repeat (match goal with |- context [if ?c then _ else _] => destruct c end; [done|]).
  unfold Gemini.getStableId, marker, Gemini.getAttribute.
  destruct (truthy (default "" (attrs sc !! (blockEl b, "data-hopper-id")))) eqn:Hex;
    simpl; [done|].
  intros Hk. destruct (decide (k = (blockEl b, "data-hopper-id"))) as [->|Hne].
  - split; [done|]. split; [done|]. eexists. split; [apply elem_of_app; right; left|].
    simpl. split; [done|]. rewrite lookup_insert_eq. split; [done|].
    by destruct (truthy (orElse _ _)).
  - by rewrite lookup_insert_ne in Hk.
Qed.

Lemma scan_writes (now : Z) (blocks : list Block) (sc : Scan) (k : Node * string) :
  attrs (foldl (handleNode now) sc blocks) !! k ≠ attrs sc !! k →
  k.2 = "data-hopper-id"
  ∧ truthy (marker (attrs sc) k.1) = false
  ∧ ∃ m, m ∈ found (foldl (handleNode now) sc blocks) ∧ element m = Some k.1
         ∧ attrs (foldl (handleNode now) sc blocks) !! k = Some (id m)
         ∧ truthy (id m) = true.
Proof.
  revert sc. induction blocks as [|b blocks IH]; intros sc Hk; simpl in *; [done|].
  destruct (decide (attrs (handleNode now sc b) !! k = attrs sc !! k)) as [Heq|Hne].
  - rewrite <- Heq in Hk. destruct (IH _ Hk) as (Hattr & Hempty & Hm).
    split; [done|]. split; [|done].
    destruct (truthy (marker (attrs sc) k.1)) eqn:Hold; [|done].
    rewrite (handleNode_keeps_markers now sc b k.1 Hold) in Hempty. congruence.
  - destruct (handleNode_writes now sc b k Hne) as (-> & Hempty & m & Hm & Hel & Hv & Ht).
    split; [done|]. split; [done|]. exists m. split; [by apply scan_found_grows|].
    split; [done|]. split; [|done].
    destruct (decide (attrs (foldl (handleNode now) (handleNode now sc b) blocks)
                        !! (blockEl b, "data-hopper-id")
                      = attrs (handleNode now sc b) !! (blockEl b, "data-hopper-id")))
      as [Hsame|Hchanged]; [by rewrite Hsame|].
    destruct (IH _ Hchanged) as (_ & Hfalse & _). simpl in Hfalse.
    unfold marker, Gemini.getAttribute in Hfalse. rewrite Hv in Hfalse. simpl in Hfalse.
    congruence.
Qed.

End GeminiWrites.

(** X28.  A Gemini scan writes nothing but fresh markers.  The only
    attribute it ever changes is [data-hopper-id], only on an element that
    had no (or an empty) marker before the scan, and only on an element of a
    candidate it returns: hidden, streaming and empty blocks are never
    marked, and a marker once set is never overwritten. *)
Theorem gemini_scan_writes_only_markers (pageAttrs : gmap (Node * string) string)
    (now : Z) (blocks : list GeminiScan.Block) (el : Node) (attribute : string) :
  let sc := GeminiScan.detectMessages pageAttrs now blocks in
  GeminiScan.attrs sc !! (el, attribute) = pageAttrs !! (el, attribute)
  ∨ (attribute = "data-hopper-id"
     ∧ truthy (GeminiScan.marker pageAttrs el) = false
     ∧ ∃ m, m ∈ GeminiScan.found sc ∧ element m = Some el
            ∧ GeminiScan.attrs sc !! (el, attribute) = Some (id m)).
Proof.
  intros sc.
  destruct (decide (GeminiScan.attrs sc !! (el, attribute) = pageAttrs !! (el, attribute)))
    as [Heq|Hne]; [by left|right].
  destruct (scan_writes now blocks (GeminiScan.mkScan pageAttrs [] 0 []) (el, attribute) Hne)
    as (Hattr & Hempty & m & Hm & Hel & Hv & _).
  simpl in *. subst attribute. split; [done|]. split; [done|]. by exists m.
Qed.

Lemma prefix_app (a b : string) : String.prefix a (a ++ b) = true.
Proof.
  induction a as [|c a IH]; [destruct b; reflexivity|].
  change (String c a ++ b) with (String c (a ++ b)). simpl.
  by destruct (ascii_dec c c).
Qed.

Lemma string_app_assoc (a b c : string) : (a ++ b) ++ c = a ++ (b ++ c).
Proof.
  induction a as [|x a IH]; [done|].
  change (String x ((a ++ b) ++ c) = String x (a ++ (b ++ c))). by rewrite IH.
Qed.

(** Trailing white space is cut after the last other character. *)
Lemma trimEnd_keeps (a b : string) (c : ascii) :
  isWhiteSpace c = false → ∃ t, trimEnd (a ++ String c b) = a ++ String c t.
Proof.
  intros Hc. induction a as [|x a [t IH]].
  - change (EmptyString ++ String c b) with (String c b). simpl.
    rewrite Hc. destruct (trimEnd b); by eexists.
  - change (String x a ++ String c b) with (String x (a ++ String c b)). simpl.
    rewrite IH. exists t. by destruct a.
Qed.

Lemma find_findIndex (P : Message → bool) (l : list Message) :
  match List.find P l with
  | Some x =>
      ∃ k, l !! k = Some x ∧ P x = true ∧ Sidebar.findIndex P l = Some k
           ∧ ∀ j m, (j < k)%nat → l !! j = Some m → P m = false
  | None => ∀ m, m ∈ l → P m = false
  end.
Proof.
  induction l as [|y l IH]; simpl.
  - intros m Hm. by apply elem_of_nil in Hm.
  - destruct (P y) eqn:Hy.
    + exists 0%nat. repeat split; try done. intros j m Hj. lia.
    + destruct (List.find P l) as [x|].
      * destruct IH as (k & Hk & Hx & Hidx & Hbefore). exists (S k).
        split; [done|]. split; [done|]. split; [by rewrite Hidx|].
        intros [|j] m Hj Hm; simpl in Hm; [by injection Hm as <-|].
        apply (Hbefore j); [lia|done].
      * intros m [->|Hm]%elem_of_cons; [done|by apply IH].
Qed.

(** X29.  The copied text carries the number of the card.  [copyMessage]
    copies nothing for an id that no message has, and raises, copying
    nothing, when the selector of the copy button built from the id does
    not parse.  Otherwise it copies the first message with that id, and the
    Markdown heading it writes starts with [### n.] where [n] is the number
    shown on that message's card in the sidebar, its position in the
    sequence counted from 1. *)
Theorem copied_heading_matches_card (doc : Document) (platformName : option string)
    (messages : list Message) (mid : string) :
  match Copy.copyMessage doc platformName messages mid with
  | Ok None => ∀ m, m ∈ messages → id m ≠ mid
  | Throw e =>
      querySelector doc (Copy.copyButtonSelector mid) = Throw e
      ∧ ∃ m, m ∈ messages ∧ id m = mid
  | Ok (Some text) =>
      (∃ button, querySelector doc (Copy.copyButtonSelector mid) = Ok button)
      ∧ ∃ k msg,
          messages !! k = Some msg ∧ id msg = mid
          ∧ (∀ j m, (j < k)%nat → messages !! j = Some m → id m ≠ mid)
          ∧ (∀ index, Sidebar.messageNumber messages index msg = S k)
          ∧ Text.startsWith ("### " ++ pretty (S k) ++ ".") text = true
  end.
Proof.
  unfold Copy.copyMessage.
  pose proof (find_findIndex (fun m => bool_decide (id m = mid)) messages) as Hfind.
  destruct (List.find _ messages) as [msg|].
  - destruct Hfind as (k & Hk & Hid%bool_decide_eq_true & Hidx & Hbefore).
    cbv zeta.
    destruct (querySelector doc (Copy.copyButtonSelector mid)) as [button|e].
    2: { split; [done|]. exists msg. split; [|done]. by eapply list_elem_of_lookup_2. }
    split; [by eexists|].
    exists k, msg. split; [done|]. split; [done|]. split.
    { intros j m Hj Hm. apply (bool_decide_eq_false_1 (id m = mid)).
      by apply (Hbefore j). }
    assert (Hidx' : Sidebar.findIndex (fun m => bool_decide (id m = id msg)) messages
                    = Some k) by (by rewrite Hid).
    split.
    { intros index. unfold Sidebar.messageNumber. rewrite Hidx'. lia. }
    unfold Copy.formatMessageAsMarkdown, Text.startsWith. rewrite Hidx'. cbv zeta.
    rewrite Nat.add_1_r.
    set (label := match role msg with
                  | user => "You"
                  | assistant => orElse (default "" platformName) "AI"
                  end).
    assert (Hheading : "### " ++ (pretty (S k) ++ ". ") ++ label ++ Copy.blankLine
                       = ("### " ++ pretty (S k)) ++ String "."%char
                           (" " ++ label ++ Copy.blankLine)).
    { by rewrite !string_app_assoc. }
    assert (Hprefix : "### " ++ pretty (S k) ++ "."
                      = ("### " ++ pretty (S k)) ++ String "."%char EmptyString).
    { by rewrite !string_app_assoc. }
    rewrite Hheading, Hprefix.
    destruct (negb (truthy _)).
    + unfold trim.
      assert (Hstart : trimStart (("### " ++ pretty (S k)) ++ String "."%char
                                    (" " ++ label ++ Copy.blankLine))
                       = ("### " ++ pretty (S k)) ++ String "."%char
                           (" " ++ label ++ Copy.blankLine)) by done.
      rewrite Hstart.
      destruct (trimEnd_keeps ("### " ++ pretty (S k)) (" " ++ label ++ Copy.blankLine)
                  "."%char eq_refl) as [t ->].
      change (String "."%char t) with (String "."%char EmptyString ++ t).
      rewrite <- string_app_assoc. apply prefix_app.
    + change (String "."%char (" " ++ label ++ Copy.blankLine))
        with (String "."%char EmptyString ++ (" " ++ label ++ Copy.blankLine)).
      rewrite <- (string_app_assoc ("### " ++ pretty (S k)) (String "."%char EmptyString)).
      rewrite (string_app_assoc (("### " ++ pretty (S k)) ++ String "."%char EmptyString)).
      apply prefix_app.
  - intros m Hm. apply (bool_decide_eq_false_1 (id m = mid)). by apply Hfind.
Qed.

(** An id with a double quote: the selector of the copy button does not
    parse, and the call raises with nothing copied. *)
Lemma copyMessage_quoted_id :
  Copy.copyMessage strictDoc (Some "Grok") [quotedMessage] quotedId = Throw "SyntaxError".
Proof. vm_compute. reflexivity. Qed.
